(** * Prime sieve over pipes and processes (user/primes.c)

    The program is a chain of processes connected by pipes.  Every process
    is modelled by its control point (a source line that issues a system
    call) together with the C locals live at that point; the kernel is a
    transition function on a process table, a pipe table and the console.
    A schedule picks which process performs its next system call.

    Two functions of the other programs are modelled as well, as functions
    on C strings and buffers: [get_path_name] of user/find.c and
    [readline_from_stdin] of user/xargs.c. *)

From Stdlib Require Import ZArith List Lia Bool Znumtheory Sorted.
From stdpp Require Import base list.

Open Scope Z_scope.

(** ** Constants of user/primes.c *)

Definition START_PRIME : Z := 2.
Definition MAX_PRIMES : Z := 35.
Definition PIPE_INVALID : Z := -1.

(** C [int]: 32 bits, two's complement. *)
Definition INT_MAX : Z := 2147483647.
Definition to_int (z : Z) : Z := (z + 2 ^ 31) mod 2 ^ 32 - 2 ^ 31.

(** ** System-call interface (user/user.h) *)

(** The three format strings of the program. *)
Inductive line :=
| prime_line (n : Z)          (* "prime %d\n" *)
| pipe_error_line (n : Z)     (* "pipe error, current index: %d\n" *)
| fork_error_line (n : Z).    (* "fork error, current index: %d\n" *)

Inductive syscall :=
| sys_printf (l : line)
| sys_pipe
| sys_fork
| sys_close (fd : Z)
| sys_read (fd : Z)
| sys_write (fd : Z) (v : Z)
| sys_wait
| sys_exit (status : Z)
| no_syscall.   (* a control point that only computes *)

(** What a system call hands back: the [int] result, the two descriptors
    [pipe] stores into its argument and the word [read] stores into its
    buffer.  The last two are meaningful for a successful [pipe] and a
    successful [read] only. *)
Record sysret := SysRet { rv : Z; out_pipe : Z * Z; out_word : Z }.

Definition returns (r : Z) : sysret := SysRet r (0, 0) 0.

(** ** The program *)

(** [int pipe[2]] as the pair [(pipe[PIPE_READ], pipe[PIPE_WRITE])]. *)
Definition cursor : Type := Z * Z.
Definition no_pipe : cursor := (PIPE_INVALID, PIPE_INVALID).

(** [print_prime], line 52. *)
Definition print_prime (n : Z) : syscall := sys_printf (prime_line n).

(** [close_pipe_if_valid], lines 58-62. *)
Definition close_pipe_if_valid (p : Z) : syscall :=
  if negb (p =? PIPE_INVALID) then sys_close p else no_syscall.

(** Control points inside [deliver_prime] up to the fork, and its write
    branch; the child branch continues at the [stage_site]s. *)
Inductive dp_site :=
| L72_pipe | L74_printf | L75_exit
| L78_fork | L113_printf | L114_exit
| L119_write | L120_exit.

Inductive main_site :=
| L136_print | L139_for | M_deliver (d : dp_site)
| L150_close | L151_close | L154_wait | L156_return.

Inductive stage_site :=
| L81_close | L84_print | L91_read | S_deliver (d : dp_site)
| L103_close | L104_close | L105_close | L108_wait | L109_exit.

(** A process is either still in [main]'s frame (locals [i] and [p]) or in
    the child branch of some [deliver_prime] call (parameter [n], the array
    [pipe_left] points to, and the locals [pipe_right], [received_number]). *)
Inductive local :=
| in_main (at_ : main_site) (i : Z) (p : cursor)
| in_stage (at_ : stage_site) (n : Z) (pipe_left pipe_right : cursor)
           (received_number : Z).

(** Line 71: which branch a call [deliver_prime(n, pipe_left)] takes. *)
Definition deliver_prime_enter (pipe_left : cursor) : dp_site :=
  if snd pipe_left =? PIPE_INVALID then L72_pipe else L119_write.

(** The system call issued at a control point of [deliver_prime(n, pipe_left)]. *)
Definition deliver_prime_call (d : dp_site) (n : Z) (pipe_left : cursor) : syscall :=
  match d with
  | L72_pipe => sys_pipe
  | L74_printf => sys_printf (pipe_error_line n)
  | L75_exit => sys_exit 1
  | L78_fork => sys_fork
  | L113_printf => sys_printf (fork_error_line n)
  | L114_exit => sys_exit 1
  | L119_write => sys_write (snd pipe_left) n
  | L120_exit => sys_exit 1
  end.

(** Where [deliver_prime] goes once the call has returned [r]: another of its
    control points, the child branch (line 79), or back to the caller. *)
Inductive dp_next :=
| dp_at (d : dp_site) (pipe_left : cursor)
| dp_child (pipe_left : cursor)
| dp_return (pipe_left : cursor).

Definition deliver_prime (d : dp_site) (pipe_left : cursor) (r : sysret) : dp_next :=
  match d with
  | L72_pipe =>
      if rv r <? 0 then dp_at L74_printf pipe_left
      else dp_at L78_fork (out_pipe r)
  | L74_printf => dp_at L75_exit pipe_left
  | L78_fork =>
      if rv r =? 0 then dp_child pipe_left
      else if rv r >? 0 then dp_return pipe_left
      else dp_at L113_printf pipe_left
  | L113_printf => dp_at L114_exit pipe_left
  | L119_write =>
      if rv r <=? 0 then dp_at L120_exit pipe_left
      else dp_return pipe_left
  | L75_exit | L114_exit | L120_exit => dp_at d pipe_left
  end.

(** A fresh child branch, lines 79-88. *)
Definition child_branch (n : Z) (pipe_left : cursor) : local :=
  in_stage L81_close n pipe_left no_pipe 0.

Section Program.

(** The upper bound of the candidate range; the source fixes it to
    [MAX_PRIMES]. *)
Variable max_primes : Z.

(** One evaluation of the [for] header and body up to the call, lines 139-146. *)
Definition main_for (i : Z) (p : cursor) : local :=
  if i <=? max_primes then
    if Z.rem i START_PRIME =? 0 then in_main L139_for (to_int (i + 1)) p
    else in_main (M_deliver (deliver_prime_enter p)) i p
  else in_main L150_close i p.

(** The system call a process is about to make. *)
Definition next_call (c : local) : syscall :=
  match c with
  | in_main L136_print _ _ => print_prime START_PRIME
  | in_main L139_for _ _ => no_syscall
  | in_main (M_deliver d) i p => deliver_prime_call d i p
  | in_main L150_close _ p => sys_close (fst p)
  | in_main L151_close _ p => sys_close (snd p)
  | in_main L154_wait _ _ => sys_wait
  | in_main L156_return _ _ => sys_exit 0
  | in_stage L81_close _ pipe_left _ _ => close_pipe_if_valid (snd pipe_left)
  | in_stage L84_print n _ _ _ => print_prime n
  | in_stage L91_read _ pipe_left _ _ => sys_read (fst pipe_left)
  | in_stage (S_deliver d) _ _ pipe_right received_number =>
      deliver_prime_call d received_number pipe_right
  | in_stage L103_close _ pipe_left _ _ => close_pipe_if_valid (fst pipe_left)
  | in_stage L104_close _ _ pipe_right _ => close_pipe_if_valid (fst pipe_right)
  | in_stage L105_close _ _ pipe_right _ => close_pipe_if_valid (snd pipe_right)
  | in_stage L108_wait _ _ _ _ => sys_wait
  | in_stage L109_exit _ _ _ _ => sys_exit 0
  end.

(** The process after its call has returned [r], run up to its next call. *)
Definition resume (c : local) (r : sysret) : local :=
  match c with
  | in_main L136_print _ p => in_main L139_for (START_PRIME + 1) p
  | in_main L139_for i p => main_for i p
  | in_main (M_deliver d) i p =>
      match deliver_prime d p r with
      | dp_at d' p' => in_main (M_deliver d') i p'
      | dp_child pipe_left => child_branch i pipe_left
      | dp_return p' => in_main L139_for (to_int (i + 1)) p'
      end
  | in_main L150_close i p => in_main L151_close i p
  | in_main L151_close i p => in_main L154_wait i p
  | in_main L154_wait i p => in_main L156_return i p
  | in_main L156_return i p => in_main L156_return i p
  | in_stage L81_close n pl pr rn => in_stage L84_print n pl pr rn
  | in_stage L84_print n pl pr rn => in_stage L91_read n pl pr rn
  | in_stage L91_read n pl pr rn =>
      if rv r >? 0 then
        if Z.rem (out_word r) n =? 0 then in_stage L91_read n pl pr (out_word r)
        else in_stage (S_deliver (deliver_prime_enter pr)) n pl pr (out_word r)
      else in_stage L103_close n pl pr rn
  | in_stage (S_deliver d) n pl pr rn =>
      match deliver_prime d pr r with
      | dp_at d' pr' => in_stage (S_deliver d') n pl pr' rn
      | dp_child pipe_left => child_branch rn pipe_left
      | dp_return pr' => in_stage L91_read n pl pr' rn
      end
  | in_stage L103_close n pl pr rn => in_stage L104_close n pl pr rn
  | in_stage L104_close n pl pr rn => in_stage L105_close n pl pr rn
  | in_stage L105_close n pl pr rn => in_stage L108_wait n pl pr rn
  | in_stage L108_wait n pl pr rn => in_stage L109_exit n pl pr rn
  | in_stage L109_exit n pl pr rn => in_stage L109_exit n pl pr rn
  end.

(** [main] at its first statement, line 133. *)
Definition main : local := in_main L136_print 0 no_pipe.

End Program.

(** ** The kernel

    Modelled from the spec: the system calls of kernel/ (not part of this
    repository's sources).  A pipe is an unbounded FIFO of [int] records; a
    reader sees end-of-stream once the FIFO is empty and no process holds a
    copy of the write end; [fork] hands the child a copy of every open
    descriptor; [pipe] takes the two lowest free descriptors; [exit] closes
    every descriptor; [wait] collects one terminated child, fails without
    children and blocks otherwise.  [pipe] and [fork] fail when the
    environment says so (resource exhaustion). *)

Inductive file := console | pipe_read (id : nat) | pipe_write (id : nat).

Global Instance file_eq_dec : EqDecision file.
Proof. solve_decision. Defined.

Inductive procstate := RUNNING | ZOMBIE (xstate : Z) | UNUSED.

Record proc := Proc {
  code : local;
  ofile : list (option file);
  parent : option nat;
  state : procstate }.

Record sys := Sys {
  procs : list proc;
  pipes : list (list Z);
  console_out : list line }.

(** Lowest free descriptor. *)
Fixpoint fdalloc (o : list (option file)) : nat :=
  match o with
  | Some _ :: o' => S (fdalloc o')
  | _ => 0%nat
  end.

Fixpoint fdset (fd : nat) (f : file) (o : list (option file)) : list (option file) :=
  match fd, o with
  | O, [] => [Some f]
  | O, _ :: o' => Some f :: o'
  | S fd', [] => None :: fdset fd' f []
  | S fd', x :: o' => x :: fdset fd' f o'
  end.

Definition fdget (fd : Z) (o : list (option file)) : option file :=
  if fd <? 0 then None else mjoin (o !! Z.to_nat fd).

Definition fdclose (fd : Z) (o : list (option file)) : list (option file) :=
  <[Z.to_nat fd := None]> o.

(** Number of descriptors of one table, and of all tables, that refer to [f]. *)
Definition copies (f : file) (o : list (option file)) : nat :=
  length (filter (λ x, x = Some f) o).

Definition open_copies (f : file) (ps : list proc) : nat :=
  sum_list (map (λ p, copies f (ofile p)) ps).

Definition is_running (p : proc) : bool :=
  match state p with RUNNING => true | _ => false end.

Definition is_zombie (p : proc) : bool :=
  match state p with ZOMBIE _ => true | _ => false end.

Definition zombie_child (q : nat) (p : proc) : bool :=
  bool_decide (parent p = Some q) && is_zombie p.

Definition running_child (q : nat) (p : proc) : bool :=
  bool_decide (parent p = Some q) && is_running p.

Definition with_code (p : proc) (c : local) : proc :=
  Proc c (ofile p) (parent p) (state p).

Section Kernel.

Variable max_primes : Z.

(** Process [q] returns from its pending call with [r]. *)
Definition wake (q : nat) (p : proc) (r : sysret) (o : list (option file))
    (s : sys) : sys :=
  Sys (<[q := Proc (resume max_primes (code p) r) o (parent p) RUNNING]> (procs s))
      (pipes s) (console_out s).

Definition with_pipes (ps : list (list Z)) (s : sys) : sys :=
  Sys (procs s) ps (console_out s).

(** Process [q] performs its pending call; [None] when there is no such
    running process or the call blocks.  [fault] makes a [pipe] or a
    [fork] fail. *)
Definition kstep (q : nat) (fault : bool) (s : sys) : option sys :=
  match procs s !! q with
  | None => None
  | Some p =>
    if negb (is_running p) then None else
    match next_call (code p) with
    | no_syscall => Some (wake q p (returns 0) (ofile p) s)
    | sys_printf l =>
        Some (wake q p (returns 0) (ofile p)
                (Sys (procs s) (pipes s) (console_out s ++ [l])))
    | sys_pipe =>
        if fault then Some (wake q p (returns (-1)) (ofile p) s) else
        let id := length (pipes s) in
        let fd0 := fdalloc (ofile p) in
        let o0 := fdset fd0 (pipe_read id) (ofile p) in
        let fd1 := fdalloc o0 in
        let o1 := fdset fd1 (pipe_write id) o0 in
        Some (wake q p (SysRet 0 (Z.of_nat fd0, Z.of_nat fd1) 0) o1
                (with_pipes (pipes s ++ [[]]) s))
    | sys_fork =>
        if fault then Some (wake q p (returns (-1)) (ofile p) s) else
        let pid := length (procs s) in
        let child := Proc (resume max_primes (code p) (returns 0))
                          (ofile p) (Some q) RUNNING in
        let s' := wake q p (returns (Z.of_nat pid)) (ofile p) s in
        Some (Sys (procs s' ++ [child]) (pipes s') (console_out s'))
    | sys_close fd =>
        match fdget fd (ofile p) with
        | Some _ => Some (wake q p (returns 0) (fdclose fd (ofile p)) s)
        | None => Some (wake q p (returns (-1)) (ofile p) s)
        end
    | sys_read fd =>
        match fdget fd (ofile p) with
        | Some (pipe_read id) =>
            match pipes s !! id with
            | Some (v :: buf) =>
                Some (wake q p (SysRet 4 (0, 0) v) (ofile p)
                        (with_pipes (<[id := buf]> (pipes s)) s))
            | Some [] =>
                if (open_copies (pipe_write id) (procs s) =? 0)%nat
                then Some (wake q p (returns 0) (ofile p) s)
                else None
            | None => Some (wake q p (returns (-1)) (ofile p) s)
            end
        | Some console => None
        | _ => Some (wake q p (returns (-1)) (ofile p) s)
        end
    | sys_write fd v =>
        match fdget fd (ofile p) with
        | Some (pipe_write id) =>
            match pipes s !! id with
            | Some buf =>
                if (open_copies (pipe_read id) (procs s) =? 0)%nat
                then Some (wake q p (returns (-1)) (ofile p) s)
                else Some (wake q p (returns 4) (ofile p)
                             (with_pipes (<[id := buf ++ [v]]> (pipes s)) s))
            | None => Some (wake q p (returns (-1)) (ofile p) s)
            end
        | _ => Some (wake q p (returns (-1)) (ofile p) s)
        end
    | sys_wait =>
        match list_find (λ c, zombie_child q c) (procs s) with
        | Some (j, c) =>
            Some (wake q p (returns (Z.of_nat j)) (ofile p)
                    (Sys (<[j := Proc (code c) (ofile c) (parent c) UNUSED]> (procs s))
                         (pipes s) (console_out s)))
        | None =>
            if existsb (running_child q) (procs s) then None
            else Some (wake q p (returns (-1)) (ofile p) s)
        end
    | sys_exit status =>
        Some (Sys (<[q := Proc (code p) [] (parent p) (ZOMBIE status)]> (procs s))
                  (pipes s) (console_out s))
    end
  end.

(** A schedule names, step by step, the process to run and whether its
    [pipe] or [fork] fails; a step that cannot be taken leaves the system
    as it is. *)
Definition sched_step (s : sys) (x : nat * bool) : sys :=
  default s (kstep x.1 x.2 s).

Definition run (sched : list (nat * bool)) (s : sys) : sys :=
  fold_left sched_step sched s.

(** The system when the shell has started [primes]: one process with the
    console on descriptors 0, 1 and 2. *)
Definition boot : sys :=
  Sys [Proc main [Some console; Some console; Some console] None RUNNING] [] [].

End Kernel.

Definition exited_with (status : Z) (p : proc) : bool :=
  match state p with
  | ZOMBIE x => x =? status
  | _ => false
  end.

(** [main] has returned 0. *)
Definition main_returned (s : sys) : bool :=
  match procs s !! 0%nat with
  | Some p => exited_with 0 p
  | None => false
  end.

Definition round_robin (n rounds : nat) : list (nat * bool) :=
  concat (replicate rounds (map (λ q, (q, false)) (seq 0 n))).


(** ** Ground truth: primes by trial division *)

Fixpoint range (a : Z) (len : nat) : list Z :=
  match len with
  | O => []
  | S len' => a :: range (a + 1) len'
  end.

(** The integers [a, a+1, ..., b]. *)
Definition upto (a b : Z) : list Z := range a (Z.to_nat (b - a + 1)).

Definition no_divisor_below (b x : Z) : bool :=
  forallb (λ d, negb (x mod d =? 0)) (upto 2 (b - 1)).

Definition is_prime (n : Z) : bool := (2 <=? n) && no_divisor_below n n.

Definition primes_upto (N : Z) : list Z := filter (λ n, is_prime n = true) (upto 2 N).

(** * Definitions used by the statements *)

Definition survives (n v : Z) : Prop := Z.rem v n ≠ 0.

Global Instance survives_dec n v : Decision (survives n v).
Proof. unfold survives. apply _. Defined.

Fixpoint sieve_aux (fuel : nat) (l : list Z) : list Z :=
  match fuel, l with
  | S fuel', p :: t => p :: sieve_aux fuel' (filter (survives p) t)
  | _, _ => []
  end.

Definition sieve (l : list Z) : list Z := sieve_aux (length l) l.

Definition candidates (a N : Z) : list Z := filter (survives START_PRIME) (upto a N).

(** ** Shape of the reachable states *)

Definition cursor_of (c : local) : cursor :=
  match c with
  | in_main _ _ p => p
  | in_stage _ _ _ pipe_right _ => pipe_right
  end.

Definition initialized (c : cursor) : bool := negb (snd c =? PIPE_INVALID).

Definition dp_site_of (c : local) : option dp_site :=
  match c with
  | in_main (M_deliver d) _ _ => Some d
  | in_stage (S_deliver d) _ _ _ _ => Some d
  | _ => None
  end.

(** The descriptors of the pipe created by the process at depth [k]. *)
Definition own_pipe (k : nat) : cursor := (Z.of_nat k + 3, Z.of_nat k + 4).

Inductive phase := Pstart | Prun | Pup_closed | Prd_closed | Pall_closed.

Definition main_phase (m : main_site) : phase :=
  match m with
  | L151_close => Prd_closed
  | L154_wait | L156_return => Pall_closed
  | _ => Prun
  end.

Definition stage_phase (t : stage_site) : phase :=
  match t with
  | L81_close => Pstart
  | L104_close => Pup_closed
  | L105_close => Prd_closed
  | L108_wait | L109_exit => Pall_closed
  | _ => Prun
  end.

Definition up_open (ph : phase) : bool :=
  match ph with Pstart | Prun => true | _ => false end.

Definition rd_open (ph : phase) : bool :=
  match ph with Pstart | Prun | Pup_closed => true | _ => false end.

Definition wr_open (ph : phase) : bool :=
  match ph with Pall_closed => false | _ => true end.

Definition is_start (ph : phase) : bool :=
  match ph with Pstart => true | _ => false end.

Definition slot (open : bool) (f : file) : option file :=
  if open then Some f else None.

(** Console and the read ends inherited from the ancestors. *)
Definition inh (n : nat) : list (option file) :=
  replicate 3 (Some console) ++ map (λ j, Some (pipe_read j)) (seq 0 n).

Definition own_slots (k : nat) (cur : cursor) (ph : phase)
    (fresh : list (option file)) : list (option file) :=
  if initialized cur
  then [slot (rd_open ph) (pipe_read k); slot (wr_open ph) (pipe_write k)]
  else fresh.

(** The descriptor table of the running process at depth [k]. *)
Definition table (k : nat) (c : local) : list (option file) :=
  match c with
  | in_main m _ p => inh 0 ++ own_slots 0 p (main_phase m) []
  | in_stage t _ _ pr _ =>
      inh (k - 1) ++ slot (up_open (stage_phase t)) (pipe_read (k - 1))
        :: own_slots k pr (stage_phase t)
             [slot (is_start (stage_phase t)) (pipe_write (k - 1))]
  end.

Definition dp_ok (k : nat) (d : dp_site) (cur : cursor) : Prop :=
  match d with
  | L72_pipe | L74_printf | L75_exit => cur = no_pipe
  | L78_fork | L113_printf | L114_exit | L119_write => cur = own_pipe k
  | L120_exit => False
  end.

Definition cur_ok (k : nat) (cur : cursor) : Prop :=
  cur = no_pipe ∨ cur = own_pipe k.

Definition code_ok (k : nat) (c : local) : Prop :=
  match c with
  | in_main m _ p =>
      k = 0%nat ∧
      match m with
      | L136_print => p = no_pipe
      | M_deliver d => dp_ok 0 d p
      | _ => cur_ok 0 p
      end
  | in_stage t _ pl pr _ =>
      (0 < k)%nat ∧ pl = own_pipe (k - 1) ∧
      match t with
      | L81_close | L84_print => pr = no_pipe
      | S_deliver d => dp_ok k d pr
      | _ => cur_ok k pr
      end
  end.

(** The cursor is initialized and the fork has returned in the parent. *)
Definition forked (c : local) : bool :=
  initialized (cursor_of c) &&
  match dp_site_of c with
  | Some (L78_fork | L113_printf | L114_exit) => false
  | _ => true
  end.

Definition after_wait (c : local) : bool :=
  match c with
  | in_main L156_return _ _ | in_stage L109_exit _ _ _ _ => true
  | _ => false
  end.

Definition exit_site (c : local) : bool :=
  match next_call c with sys_exit _ => true | _ => false end.

Definition quiet (p : proc) : bool := negb (is_running p) || after_wait (code p).

Record proc_ok (np npipes k : nat) (p : proc) : Prop := {
  ok_code : code_ok k (code p);
  ok_parent : parent p = match k with S k' => Some k' | O => None end;
  ok_table : ofile p = if is_running p then table k (code p) else [];
  ok_exit : is_running p = false → exit_site (code p) = true;
  ok_status : match state p with
              | RUNNING => True
              | ZOMBIE x => next_call (code p) = sys_exit x
              | UNUSED => k ≠ 0%nat
              end;
  ok_pipe : initialized (cursor_of (code p)) = bool_decide (k < npipes)%nat;
  ok_child : forked (code p) = bool_decide (S k < np)%nat }.

Record Shape (s : sys) : Prop := {
  shape_procs : ∀ k p, procs s !! k = Some p →
    proc_ok (length (procs s)) (length (pipes s)) k p;
  shape_quiet : ∀ k p j p', procs s !! k = Some p → quiet p = true →
    (k < j)%nat → procs s !! j = Some p' → state p' = UNUSED;
  shape_pipes : (length (pipes s) ≤ length (procs s))%nat }.

(** ** Data flow through the chain *)

(** The value handed to [deliver_prime] and not yet passed on. *)
Definition pend (c : local) : list Z :=
  match c with
  | in_main (M_deliver _) i _ => [i]
  | in_stage (S_deliver _) _ _ _ received_number => [received_number]
  | _ => []
  end.

Definition in_loop (t : stage_site) : bool :=
  match t with
  | L81_close | L84_print | L91_read | S_deliver _ => true
  | _ => false
  end.

Definition unprinted (c : local) : list Z :=
  match c with
  | in_main L136_print _ _ => [START_PRIME]
  | in_stage (L81_close | L84_print) n _ _ _ => [n]
  | _ => []
  end.

(** The number a process filters by. *)
Definition prime_of (c : local) : Z :=
  match c with
  | in_main _ _ _ => START_PRIME
  | in_stage _ n _ _ _ => n
  end.

Definition no_error_site (c : local) : bool :=
  match dp_site_of c with
  | Some (L74_printf | L75_exit | L113_printf | L114_exit | L120_exit) => false
  | _ => true
  end.

Definition code_at (cs : list local) (k : nat) : local := default main (cs !! k).
Definition buf_at (bs : list (list Z)) (k : nat) : list Z := default [] (bs !! k).

Definition codes (s : sys) : list local := map code (procs s).
Definition view (p : proc) : local * bool := (code p, is_running p).
Definition views (s : sys) : list (local * bool) := map view (procs s).

(** Steps a process still has to take at its control point, input apart. *)
Definition dp_weight (d : dp_site) : nat :=
  match d with
  | L72_pipe => 2
  | L78_fork | L119_write => 1
  | _ => 0
  end.

Definition stage_weight (t : stage_site) : nat :=
  match t with
  | L81_close => 8
  | L84_print => 7
  | L91_read => 6
  | S_deliver d => 6 + dp_weight d
  | L103_close => 5
  | L104_close => 4
  | L105_close => 3
  | L108_wait => 2
  | L109_exit => 1
  end.

(** Steps of the stages a stream will still create. *)
Fixpoint toll_aux (fuel : nat) (l : list Z) : nat :=
  match fuel, l with
  | S fuel', v :: t =>
      (8 + 3 * length t + toll_aux fuel' (filter (survives v) t))%nat
  | _, _ => 0%nat
  end.

Definition toll (l : list Z) : nat := toll_aux (length l) l.

Section Flow.

Variable N : Z.

(** The candidates [main] has still to hand out. *)
Definition main_source (c : local) : list Z :=
  match c with
  | in_main L136_print _ _ => candidates (START_PRIME + 1) N
  | in_main L139_for i _ => candidates i N
  | in_main (M_deliver _) i _ => candidates (i + 1) N
  | _ => []
  end.

(** Everything the process will still pass to [deliver_prime], given what
    is still to arrive on its left pipe. *)
Definition out (c : local) (input : list Z) : list Z :=
  match c with
  | in_main _ _ _ => pend c ++ main_source c
  | in_stage t n _ _ _ =>
      pend c ++ (if in_loop t then filter (survives n) input else [])
  end.

Fixpoint flow (cs : list local) (bs : list (list Z)) (k : nat) : list Z :=
  out (code_at cs k)
      match k with
      | O => []
      | S k' => buf_at bs k' ++ flow cs bs k'
      end.

Definition input (cs : list local) (bs : list (list Z)) (k : nat) : list Z :=
  match k with
  | O => []
  | S k' => buf_at bs k' ++ flow cs bs k'
  end.

(** What the chain will still print. *)
Definition future (cs : list local) (bs : list (list Z)) : list Z :=
  let K := (length cs - 1)%nat in
  unprinted (code_at cs K) ++ sieve (flow cs bs K).

Definition main_i_ok (c : local) : Prop :=
  match c with
  | in_main L139_for i _ => 3 ≤ i ≤ N + 1
  | in_main (M_deliver _) i _ => 3 ≤ i ≤ N ∧ Z.rem i START_PRIME ≠ 0
  | _ => True
  end.

Definition main_weight (m : main_site) (i : Z) : nat :=
  match m with
  | L136_print => 6 + 3 * Z.to_nat (N + 1 - (START_PRIME + 1))
  | L139_for => 5 + 3 * Z.to_nat (N + 1 - i)
  | M_deliver d => 5 + 3 * Z.to_nat (N - i) + dp_weight d
  | L150_close => 4
  | L151_close => 3
  | L154_wait => 2
  | L156_return => 1
  end.

Definition weight (c : local) : nat :=
  match c with
  | in_main m i _ => main_weight m i
  | in_stage t _ _ _ _ => stage_weight t
  end.

Definition proc_weight (v : local * bool) (input : list Z) : nat :=
  if v.2 then (weight v.1 + 3 * length input)%nat else 0%nat.

Definition weight_at (s : sys) (k : nat) : nat :=
  match views s !! k with
  | Some v => proc_weight v (input (codes s) (pipes s) k)
  | None => 0%nat
  end.

Fixpoint weight_below (s : sys) (k : nat) : nat :=
  match k with
  | O => 0%nat
  | S k' => (weight_below s k' + weight_at s k')%nat
  end.

(** An upper bound on the steps the system can still take. *)
Definition mu (s : sys) : nat :=
  (weight_below s (length (procs s))
   + toll (flow (codes s) (pipes s) (length (procs s) - 1)))%nat.

Record Flow (s : sys) : Prop := {
  flow_sites : ∀ k c, codes s !! k = Some c →
    no_error_site c = true ∧ main_i_ok c;
  flow_last_pipe : ∀ k buf, pipes s !! k = Some buf →
    (length (procs s) ≤ S k)%nat → buf = [];
  flow_console :
    console_out s ++ map prime_line (future (codes s) (pipes s))
    = map prime_line (START_PRIME :: sieve (candidates (START_PRIME + 1) N));
  flow_good : ∀ k v j,
    v ∈ pend (code_at (codes s) k) ++ buf_at (pipes s) k → (j ≤ k)%nat →
    survives (prime_of (code_at (codes s) j)) v;
  flow_chain :
    console_out s
      ++ map prime_line (unprinted (code_at (codes s) (length (procs s) - 1)))
    = map prime_line (map prime_of (codes s)) }.

End Flow.

Definition fault_free (sched : list (nat * bool)) : bool :=
  forallb (λ x, negb x.2) sched.

Definition phase_of (c : local) : phase :=
  match c with
  | in_main m _ _ => main_phase m
  | in_stage t _ _ _ _ => stage_phase t
  end.

Definition at_wait (c : local) : bool :=
  match c with
  | in_main L154_wait _ _ | in_stage L108_wait _ _ _ _ => true
  | _ => false
  end.

(** A stage with prime [p] just after the fork that created it, as the only
    process of the system: its descriptors are the console, the read end
    and its copy of the write end of the upstream pipe, which already holds
    everything the stage is going to receive. *)
Definition stage_alone (p : Z) (received : list Z) : sys :=
  Sys [Proc (child_branch p (3, 4))
            [Some console; Some console; Some console;
             Some (pipe_read 0); Some (pipe_write 0)] None RUNNING]
      [received] [].

(** What the process at index 0 has passed to [deliver_prime], in order:
    the first value went to the child through the fork, the later ones are
    in the pipe to the child (which did not run). *)
Definition forwarded (s : sys) : list Z :=
  match procs s !! 1%nat with
  | Some c => prime_of (code c) :: buf_at (pipes s) 1
  | None => []
  end.

Definition alone (m : nat) : list (nat * bool) := repeat (0%nat, false) m.

(** The stage of [stage_alone] at the head of its loop, and the child it
    forks for the first value that passes. *)
Definition reading (p : Z) (pr : cursor) (rn : Z) (o : list (option file)) : proc :=
  Proc (in_stage L91_read p (3, 4) pr rn)
       ([Some console; Some console; Some console; Some (pipe_read 0)] ++ o)
       None RUNNING.

Definition spawned (x : Z) : proc :=
  Proc (child_branch x (4, 5))
       [Some console; Some console; Some console; Some (pipe_read 0);
        Some (pipe_read 1); Some (pipe_write 1)] (Some 0%nat) RUNNING.

Definition alone_done (N : Z) (s : sys) (con : list line) (fw : list Z) : Prop :=
  console_out s = con ∧ forwarded s = fw ∧ buf_at (pipes s) 0 = [] ∧
  kstep N 0 false s = None.

(** The process at index [k]; an unused slot past the end of the table. *)
Definition proc_at (s : sys) (k : nat) : proc :=
  default (Proc main [] None UNUSED) (procs s !! k).

(** ** Who holds the write end of a pipe *)

Definition owner_writes (p : proc) : bool :=
  is_running p && initialized (cursor_of (code p)) && wr_open (phase_of (code p)).

Definition child_starting (p : proc) : bool :=
  is_running p && is_start (phase_of (code p)).

(** The copies of the write end of pipe [x] the invariant accounts for:
    the one of its creator, until line 105 or 151, and the one its child
    inherits and closes at line 81. *)
Definition writers (s : sys) (x : nat) : nat :=
  (Nat.b2n (owner_writes (proc_at s x))
   + Nat.b2n (child_starting (proc_at s (S x))))%nat.

(** The process is past its loop: lines 103-109 and 150-156. *)
Definition past_loop (c : local) : bool :=
  match c with
  | in_main (L150_close | L151_close | L154_wait | L156_return) _ _ => true
  | in_stage (L103_close | L104_close | L105_close | L108_wait | L109_exit) _ _ _ _ => true
  | _ => false
  end.

(** The source of the process at index [k] has nothing more to give: the
    range is used up, or the upstream pipe is empty with no writer left. *)
Definition exhausted (N : Z) (s : sys) (k : nat) : Prop :=
  match code (proc_at s k) with
  | in_main _ i _ => N < i
  | in_stage _ _ _ _ _ =>
      buf_at (pipes s) (k - 1) = [] ∧
      open_copies (pipe_write (k - 1)) (procs s) = 0%nat
  end.

(** The states [main] goes through when the range holds 2 only. *)
Definition short_run : list sys :=
  map (λ m, run 2 (alone m) boot) (seq 0 7).

Global Instance line_eq_dec : EqDecision line.
Proof. solve_decision. Defined.

Definition short_ok (s : sys) : bool :=
  bool_decide (length (procs s) = 1%nat) && bool_decide (pipes s = [])
  && (negb (main_returned s)
      || bool_decide (console_out s = [prime_line 2])).

Definition is_unused (p : proc) : bool :=
  match state p with UNUSED => true | _ => false end.

(** Workers that were spawned and have not been collected by a [wait]. *)
Definition outstanding (s : sys) : nat :=
  length (filter (λ p, is_unused p = false) (drop 1 (procs s))).

(** The value [deliver_prime] was called with. *)
Definition in_flight (c : local) : Z :=
  match c with
  | in_main _ i _ => i
  | in_stage _ _ _ _ received_number => received_number
  end.

Definition error_line (c : local) : line :=
  match next_call c with
  | sys_pipe => pipe_error_line (in_flight c)
  | _ => fork_error_line (in_flight c)
  end.

(** ** Steps of a run *)

(** The steps of a schedule that are taken: those that name a process
    that can run. *)
Fixpoint steps_taken (N : Z) (sched : list (nat * bool)) (s : sys) : nat :=
  match sched with
  | [] => 0
  | x :: rest =>
      match kstep N x.1 x.2 s with
      | Some s' => S (steps_taken N rest s')
      | None => steps_taken N rest s
      end
  end.

(** ** user/find.c: the last component of a path *)

(** A C string is the list of its characters (as numbers) before the
    terminating NUL; [path[p]] for [0 <= p <= strlen(path)]. *)
Definition char_at (path : list Z) (p : Z) : Z :=
  nth (Z.to_nat p) path 0.

(** '/' *)
Definition slash : Z := 47.

(** The [for] loop of line 43, started at [p]: the offset it stops at. *)
Fixpoint scan_back (path : list Z) (fuel : nat) (p : Z) : Z :=
  match fuel with
  | O => p
  | S fuel' =>
      if (0 <=? p) && negb (Z.eqb (char_at path p) slash)
      then scan_back path fuel' (p - 1)
      else p
  end.

(** [get_path_name], lines 39-48: the string that starts at [p + 1]. *)
Definition get_path_name (path : list Z) : list Z :=
  drop (Z.to_nat (scan_back path (S (length path)) (Z.of_nat (length path)) + 1))
       path.

(** ** user/xargs.c: reading a line *)

(** '\n' *)
Definition newline : Z := 10.

(** What a call leaves behind: the value returned, the buffer and the rest
    of the input; or a store past the end of the buffer, at the given index,
    which C leaves undefined. *)
Inductive line_read :=
| Returned (n : nat) (buf : list Z) (stdin : list Z)
| PastTheEnd (index : nat).

(** [buf[n] = c] followed by [k]. *)
Definition store (buf : list Z) (n : nat) (c : Z)
    (k : list Z → line_read) : line_read :=
  if (n <? length buf)%nat then k (<[n := c]> buf) else PastTheEnd n.

(** Line 199 and 200. *)
Definition terminate (buf : list Z) (n : nat) (stdin : list Z) : line_read :=
  store buf n 0 (λ buf', Returned n buf' stdin).

(** The loop of lines 192-197, with [n] characters stored so far.
    [read(0, buf + n, 1)] delivers the next byte of the input, and 0 at its
    end. *)
Fixpoint readline_loop (max : Z) (stdin : list Z) (buf : list Z) (n : nat)
    : line_read :=
  if Z.of_nat n <? max then
    match stdin with
    | c :: rest =>
        store buf n c (λ buf',
          if c =? newline then terminate buf' n rest
          else readline_loop max rest buf' (S n))
    | [] => terminate buf n []
    end
  else terminate buf n stdin.

(** [readline_from_stdin], lines 190-201. *)
Definition readline_from_stdin (buf : list Z) (max : Z) (stdin : list Z)
    : line_read :=
  readline_loop max stdin buf 0.

(** * Proofs *)

(** ** The sieve finds the primes *)

Lemma sieve_aux_fuel f1 f2 l :
  (length l ≤ f1)%nat → (length l ≤ f2)%nat → sieve_aux f1 l = sieve_aux f2 l.
Proof.
  revert f2 l. induction f1 as [|f1 IH]; intros [|f2] [|p t] H1 H2;
    simpl in *; try done; try lia.
  pose proof (length_filter (survives p) t). f_equal. apply IH; lia.
Qed.

Lemma sieve_aux_enough fuel l :
  (length l ≤ fuel)%nat → sieve_aux fuel l = sieve l.
Proof. intros. apply sieve_aux_fuel; [done | lia]. Qed.

Lemma sieve_nil : sieve [] = [].
Proof. done. Qed.

Lemma sieve_cons p t : sieve (p :: t) = p :: sieve (filter (survives p) t).
Proof.
  unfold sieve at 1. simpl. f_equal. apply sieve_aux_enough.
  apply length_filter.
Qed.

Lemma range_elem x a len : x ∈ range a len ↔ a ≤ x < a + Z.of_nat len.
Proof.
  revert a. induction len as [|len IH]; intros a; simpl.
  - rewrite elem_of_nil. lia.
  - rewrite elem_of_cons, IH. lia.
Qed.

Lemma upto_elem x a b : x ∈ upto a b ↔ a ≤ x ≤ b.
Proof. unfold upto. rewrite range_elem. lia. Qed.

Lemma upto_nil a b : b < a → upto a b = [].
Proof. intros. unfold upto. replace (Z.to_nat (b - a + 1)) with O by lia. done. Qed.

Lemma upto_cons a b : a ≤ b → upto a b = a :: upto (a + 1) b.
Proof.
  intros. unfold upto.
  replace (Z.to_nat (b - a + 1)) with (S (Z.to_nat (b - (a + 1) + 1))) by lia.
  done.
Qed.

Lemma no_divisor_below_spec b x :
  no_divisor_below b x = true ↔ ∀ d, 2 ≤ d < b → x mod d ≠ 0.
Proof.
  unfold no_divisor_below. rewrite forallb_forall. split.
  - intros H d Hd. specialize (H d). rewrite <- list_elem_of_In, upto_elem in H.
    specialize (H ltac:(lia)). apply negb_true_iff, Z.eqb_neq in H. done.
  - intros H d Hd. rewrite <- list_elem_of_In, upto_elem in Hd.
    apply negb_true_iff, Z.eqb_neq, H. lia.
Qed.

Lemma is_prime_spec n : is_prime n = true ↔ Z.prime n.
Proof.
  unfold is_prime, Z.prime.
  rewrite andb_true_iff, no_divisor_below_spec, Z.leb_le. split.
  - intros [H1 H2]. split; [lia|]. intros d Hd Hdiv.
    apply (H2 d); [lia|]. apply Z.mod_divide; [lia | done].
  - intros [H1 H2]. split; [lia|]. intros d Hd Hm.
    apply (H2 d); [lia|]. apply Z.mod_divide; [lia | done].
Qed.

Lemma survives_mod p x : 0 ≤ x → 0 < p → survives p x ↔ x mod p ≠ 0.
Proof. intros. unfold survives. rewrite Z.rem_mod_nonneg by lia. done. Qed.

Lemma no_divisor_below_succ b x :
  2 ≤ b →
  no_divisor_below (b + 1) x = true ↔ x mod b ≠ 0 ∧ no_divisor_below b x = true.
Proof.
  intros Hb. rewrite !no_divisor_below_spec. split.
  - intros H. split; [apply H; lia|]. intros d Hd. apply H. lia.
  - intros [H1 H2] d Hd. destruct (decide (d = b)) as [->|]; [done|]. apply H2. lia.
Qed.

Lemma filter_iff_elem {A} (P1 P2 : A → Prop)
    `{!∀ x, Decision (P1 x), !∀ x, Decision (P2 x)} (l : list A) :
  (∀ x, x ∈ l → P1 x ↔ P2 x) → filter P1 l = filter P2 l.
Proof.
  induction l as [|a l IH]; intros Hl; [done|].
  rewrite !filter_cons.
  rewrite IH by (intros x Hx; apply Hl; by right).
  assert (P1 a ↔ P2 a) as Ha by (apply Hl; by left).
  destruct (decide (P1 a)), (decide (P2 a)); tauto || done.
Qed.

Lemma composite_divides b x :
  2 ≤ b → no_divisor_below b b = false → no_divisor_below b x = true → x mod b ≠ 0.
Proof.
  intros Hb Hc Hx Hm.
  assert (¬ ∀ d, 2 ≤ d < b → b mod d ≠ 0) as Hn.
  { rewrite <- no_divisor_below_spec. congruence. }
  apply Hn. intros d Hd Hbd.
  rewrite no_divisor_below_spec in Hx. apply (Hx d Hd).
  apply Z.mod_divide in Hm; [|lia]. apply Z.mod_divide in Hbd; [|lia].
  apply Z.mod_divide; [lia|]. by etrans.
Qed.

Lemma sieve_sound_from N n b :
  2 ≤ b → (Z.to_nat (N - b + 1) ≤ n)%nat →
  sieve (filter (λ x, no_divisor_below b x = true) (upto b N))
  = filter (λ x, is_prime x = true) (upto b N).
Proof.
  revert b. induction n as [|n IH]; intros b Hb Hn.
  - rewrite upto_nil by lia. done.
  - destruct (decide (N < b)) as [Hlt|Hge]; [rewrite upto_nil by lia; done|].
    rewrite upto_cons by lia.
    destruct (no_divisor_below b b) eqn:Hbb.
    + rewrite (filter_cons_True _ b) by done.
      rewrite (filter_cons_True (λ x, is_prime x = true) b).
      2:{ unfold is_prime. rewrite Hbb. apply andb_true_iff. split; [lia | done]. }
      rewrite sieve_cons. f_equal. rewrite <- IH by lia. f_equal.
      rewrite list_filter_filter. apply filter_iff_elem.
      intros x Hx%upto_elem. rewrite no_divisor_below_succ by done.
      rewrite survives_mod by lia. done.
    + rewrite (filter_cons_False _ b) by congruence.
      rewrite (filter_cons_False (λ x, is_prime x = true) b).
      2:{ unfold is_prime. rewrite Hbb, andb_false_r. done. }
      rewrite <- IH by lia. f_equal. apply filter_iff_elem.
      intros x Hx%upto_elem. rewrite no_divisor_below_succ by done.
      split; [|tauto]. intros Hx'. split; [|done].
      by apply composite_divides.
Qed.

Theorem sieve_upto N : sieve (upto 2 N) = primes_upto N.
Proof.
  unfold primes_upto. rewrite <- (sieve_sound_from N (Z.to_nat (N - 2 + 1))) by lia.
  f_equal. induction (upto 2 N) as [|a l IH]; [done|].
  rewrite filter_cons_True by done. by f_equal.
Qed.

Lemma sieve_upto_candidates N :
  2 ≤ N → sieve (upto 2 N) = START_PRIME :: sieve (candidates 3 N).
Proof. intros. rewrite upto_cons by lia. by rewrite sieve_cons. Qed.

(** *** Descriptor tables *)

Lemma inh_length n : length (inh n) = (n + 3)%nat.
Proof. unfold inh. rewrite length_app, length_replicate, length_map, length_seq. lia. Qed.

Lemma inh_snoc n : inh (S n) = inh n ++ [Some (pipe_read n)].
Proof. unfold inh. rewrite seq_S, map_app, app_assoc. done. Qed.

Lemma inh_all_open n : Forall (λ x, is_Some x) (inh n).
Proof.
  unfold inh. apply Forall_app. split.
  - repeat constructor; eauto.
  - apply Forall_map, Forall_forall. intros; simpl; eauto.
Qed.

Lemma fdalloc_app l r :
  Forall (λ x, is_Some x) l → fdalloc (l ++ r) = (length l + fdalloc r)%nat.
Proof.
  induction 1 as [|x l [f ->] _ IH]; simpl; [done|]. by rewrite IH.
Qed.

Lemma fdset_app l r j f : fdset (length l + j) f (l ++ r) = l ++ fdset j f r.
Proof. induction l as [|x l IH]; simpl; [done|]. by rewrite IH. Qed.

Lemma fdget_app l r fd j :
  fd = Z.of_nat (length l + j) → fdget fd (l ++ r) = mjoin (r !! j).
Proof.
  intros ->. unfold fdget.
  destruct (Z.ltb_spec (Z.of_nat (length l + j)) 0); [lia|].
  rewrite Nat2Z.id, lookup_app_r by lia. do 2 f_equal. lia.
Qed.

Lemma fdclose_app l r fd j :
  fd = Z.of_nat (length l + j) → fdclose fd (l ++ r) = l ++ <[j := None]> r.
Proof.
  intros ->. unfold fdclose. rewrite Nat2Z.id, insert_app_r_alt by lia.
  do 2 f_equal. lia.
Qed.

Lemma fdget_invalid o : fdget PIPE_INVALID o = None.
Proof. done. Qed.

(** ** Every step keeps the shape *)

Lemma initialized_own k : initialized (own_pipe k) = true.
Proof. unfold initialized, own_pipe, PIPE_INVALID. simpl. apply negb_true_iff, Z.eqb_neq. lia. Qed.

Lemma initialized_no_pipe : initialized no_pipe = false.
Proof. done. Qed.

Lemma enter_own k : deliver_prime_enter (own_pipe k) = L119_write.
Proof.
  unfold deliver_prime_enter. pose proof (initialized_own k) as H.
  unfold initialized in H. apply negb_true_iff in H. by rewrite H.
Qed.

Lemma enter_no_pipe : deliver_prime_enter no_pipe = L72_pipe.
Proof. done. Qed.

Lemma own_pipe_inj k : own_pipe k ≠ no_pipe.
Proof. unfold own_pipe, no_pipe, PIPE_INVALID. intros [= H1 H2]. lia. Qed.

Lemma shape_frame s ps out :
  Shape s → length ps = length (pipes s) → Shape (Sys (procs s) ps out).
Proof.
  intros [H1 H2 H3] Hl. split; simpl; [|done|lia].
  intros k p Hk. rewrite Hl. by apply H1.
Qed.

Section Steps.

Variable N : Z.

Lemma shape_wake s q p r o' :
  Shape s → procs s !! q = Some p → is_running p = true →
  code_ok q (resume N (code p) r) →
  o' = table q (resume N (code p) r) →
  initialized (cursor_of (resume N (code p) r)) = initialized (cursor_of (code p)) →
  forked (resume N (code p) r) = forked (code p) →
  (after_wait (resume N (code p) r) = true →
     ∀ j p', (q < j)%nat → procs s !! j = Some p' → state p' = UNUSED) →
  Shape (wake N q p r o' s).
Proof.
  intros [H1 H2 H3] Hq Hrun Hc -> Hi Hf Ha.
  pose proof (lookup_lt_Some _ _ _ Hq) as Hlt.
  split; simpl; [| |by rewrite length_insert].
  - intros k p' Hk. rewrite length_insert.
    destruct (decide (k = q)) as [->|Hne].
    + rewrite list_lookup_insert_eq in Hk by done. injection Hk as <-.
      destruct (H1 _ _ Hq) as [? ? ? ? ? ? ?].
      split; simpl; try done; [by rewrite Hi | by rewrite Hf].
    + rewrite list_lookup_insert_ne in Hk by done. by apply H1.
  - intros k pk j pj Hk Hquiet Hkj Hj.
    destruct (decide (j = q)) as [->|Hjq].
    + exfalso. destruct (decide (k = q)) as [->|Hkq]; [lia|].
      rewrite list_lookup_insert_ne in Hk by done.
      pose proof (H2 _ _ _ _ Hk Hquiet Hkj Hq) as Hu.
      unfold is_running in Hrun. rewrite Hu in Hrun. done.
    + rewrite list_lookup_insert_ne in Hj by done.
      destruct (decide (k = q)) as [->|Hkq].
      * rewrite list_lookup_insert_eq in Hk by done. injection Hk as <-.
        unfold quiet in Hquiet. simpl in Hquiet. exact (Ha Hquiet _ _ Hkj Hj).
      * rewrite list_lookup_insert_ne in Hk by done. exact (H2 _ _ _ _ Hk Hquiet Hkj Hj).
Qed.

Lemma running_not_unused p : is_running p = true → state p ≠ UNUSED.
Proof. unfold is_running. by destruct (state p). Qed.

(** A process without a child is the last one of the chain. *)
Lemma shape_last s q p j p' :
  Shape s → procs s !! q = Some p → forked (code p) = false →
  (q < j)%nat → procs s !! j = Some p' → False.
Proof.
  intros HS Hq Hf Hj Hp'. destruct (shape_procs _ HS _ _ Hq) as [_ _ _ _ _ _ Hc].
  rewrite Hf in Hc. symmetry in Hc. apply bool_decide_eq_false in Hc.
  apply lookup_lt_Some in Hp'. lia.
Qed.

Lemma shape_upstream_init s q p k pk :
  Shape s → procs s !! q = Some p → is_running p = true →
  (k < q)%nat → procs s !! k = Some pk →
  forked (code pk) = true ∧ (k < length (pipes s))%nat.
Proof.
  intros HS Hq Hrun Hk Hpk.
  destruct (shape_procs _ HS _ _ Hpk) as [_ _ _ _ _ Hp Hc].
  apply lookup_lt_Some in Hq.
  assert (forked (code pk) = true) as Hf.
  { rewrite Hc. apply bool_decide_eq_true. lia. }
  split; [done|]. unfold forked in Hf. apply andb_true_iff in Hf as [Hi _].
  rewrite Hi in Hp. symmetry in Hp. by apply bool_decide_eq_true in Hp.
Qed.

Lemma shape_pipe_id s q p :
  Shape s → procs s !! q = Some p → is_running p = true →
  initialized (cursor_of (code p)) = false → length (pipes s) = q.
Proof.
  intros HS Hq Hrun Hi.
  destruct (shape_procs _ HS _ _ Hq) as [_ _ _ _ _ Hp _]. rewrite Hi in Hp.
  symmetry in Hp. apply bool_decide_eq_false in Hp.
  destruct q as [|q']; [lia|]. pose proof (lookup_lt_Some _ _ _ Hq).
  destruct (lookup_lt_is_Some_2 (procs s) q') as [pk Hpk]; [lia|].
  destruct (shape_upstream_init s (S q') p q' pk); [done..|lia|done|]. lia.
Qed.

Lemma shape_exit s q p status :
  Shape s → procs s !! q = Some p → is_running p = true →
  next_call (code p) = sys_exit status →
  forked (code p) = false ∨ after_wait (code p) = true →
  Shape (Sys (<[q := Proc (code p) [] (parent p) (ZOMBIE status)]> (procs s))
             (pipes s) (console_out s)).
Proof.
  intros HS Hq Hrun Hex Hor. pose proof HS as [H1 H2 H3].
  split; simpl; [| |by rewrite length_insert].
  - intros k p' Hk. rewrite length_insert.
    destruct (decide (k = q)) as [->|Hne].
    + rewrite list_lookup_insert_eq in Hk by (by eapply lookup_lt_Some).
      injection Hk as <-. destruct (H1 _ _ Hq) as [? ? ? ? ? ? ?].
      split; simpl; try done. intros _. unfold exit_site. by rewrite Hex.
    + rewrite list_lookup_insert_ne in Hk by done. by apply H1.
  - intros k pk j pj Hk Hquiet Hkj Hj.
    destruct (decide (j = q)) as [->|Hjq].
    + exfalso. destruct (decide (k = q)) as [->|Hkq]; [lia|].
      rewrite list_lookup_insert_ne in Hk by done.
      by apply (running_not_unused _ Hrun), (H2 _ _ _ _ Hk Hquiet Hkj Hq).
    + rewrite list_lookup_insert_ne in Hj by done.
      destruct (decide (k = q)) as [->|Hkq].
      * destruct Hor as [Hf|Ha].
        -- exfalso. by eapply (shape_last s q p j pj).
        -- apply (H2 q p j pj Hq); [|done..]. unfold quiet. rewrite Ha. apply orb_true_r.
      * rewrite list_lookup_insert_ne in Hk by done.
        exact (H2 _ _ _ _ Hk Hquiet Hkj Hj).
Qed.

Lemma shape_reap s j c :
  Shape s → procs s !! j = Some c → is_zombie c = true → j ≠ 0%nat →
  Shape (Sys (<[j := Proc (code c) (ofile c) (parent c) UNUSED]> (procs s))
             (pipes s) (console_out s)).
Proof.
  intros HS Hj Hz Hj0. pose proof HS as [H1 H2 H3].
  assert (is_running c = false) as Hnr.
  { unfold is_zombie, is_running in *. by destruct (state c). }
  split; simpl; [| |by rewrite length_insert].
  - intros k p' Hk. rewrite length_insert.
    destruct (decide (k = j)) as [->|Hne].
    + rewrite list_lookup_insert_eq in Hk by (by eapply lookup_lt_Some).
      injection Hk as <-. destruct (H1 _ _ Hj) as [? ? Ht ? ? ? ?].
      rewrite Hnr in Ht. split; simpl; auto.
    + rewrite list_lookup_insert_ne in Hk by done. by apply H1.
  - intros k pk i pi Hk Hquiet Hki Hi.
    destruct (decide (i = j)) as [->|Hij].
    + rewrite list_lookup_insert_eq in Hi by (by eapply lookup_lt_Some).
      by injection Hi as <-.
    + rewrite list_lookup_insert_ne in Hi by done.
      destruct (decide (k = j)) as [->|Hkj].
      * apply (H2 j c i pi Hj); [|done..]. unfold quiet. by rewrite Hnr.
      * rewrite list_lookup_insert_ne in Hk by done.
        exact (H2 _ _ _ _ Hk Hquiet Hki Hi).
Qed.

Lemma shape_pipe s q p r o' :
  Shape s → procs s !! q = Some p → is_running p = true →
  initialized (cursor_of (code p)) = false →
  code_ok q (resume N (code p) r) →
  o' = table q (resume N (code p) r) →
  initialized (cursor_of (resume N (code p) r)) = true →
  forked (resume N (code p) r) = false →
  after_wait (resume N (code p) r) = false →
  Shape (wake N q p r o' (with_pipes (pipes s ++ [[]]) s)).
Proof.
  intros HS Hq Hrun Hi Hc -> Hi' Hf' Ha'. pose proof HS as [H1 H2 H3].
  pose proof (lookup_lt_Some _ _ _ Hq) as Hlt.
  assert (forked (code p) = false) as Hf by (unfold forked; by rewrite Hi).
  assert (length (pipes s) = q) as Hnp.
  { destruct (H1 _ _ Hq) as [_ _ _ _ _ Hp _]. rewrite Hi in Hp.
    symmetry in Hp. apply bool_decide_eq_false in Hp.
    destruct q as [|q']; [lia|].
    destruct (lookup_lt_is_Some_2 (procs s) q') as [pk Hpk]; [lia|].
    destruct (shape_upstream_init s (S q') p q' pk); [done..|lia|done|]. lia. }
  split; simpl; [| |rewrite length_insert, length_app; simpl; lia].
  - intros k p' Hk. rewrite length_insert, length_app. simpl.
    destruct (decide (k = q)) as [->|Hne].
    + rewrite list_lookup_insert_eq in Hk by done. injection Hk as <-.
      destruct (H1 _ _ Hq) as [? ? ? ? ? ? Hch]. rewrite Hf in Hch.
      split; simpl; try done.
      * rewrite Hi'. symmetry. apply bool_decide_eq_true. lia.
      * by rewrite Hf'.
    + rewrite list_lookup_insert_ne in Hk by done.
      destruct (H1 _ _ Hk) as [? ? ? ? ? Hp ?]. split; try done.
      rewrite Hp. apply bool_decide_ext.
      destruct (decide (k < q)%nat); [lia|]. exfalso.
      eapply (shape_last s q p k p'); [done..|lia|done].
  - intros k pk j pj Hk Hquiet Hkj Hj.
    destruct (decide (j = q)) as [->|Hjq].
    + exfalso. destruct (decide (k = q)) as [->|Hkq]; [lia|].
      rewrite list_lookup_insert_ne in Hk by done.
      by apply (running_not_unused _ Hrun), (H2 _ _ _ _ Hk Hquiet Hkj Hq).
    + rewrite list_lookup_insert_ne in Hj by done.
      exfalso. destruct (decide (k = q)) as [->|Hkq].
      * by eapply (shape_last s q p j pj).
      * rewrite list_lookup_insert_ne in Hk by done.
        destruct (decide (k < q)%nat).
        -- by apply (running_not_unused _ Hrun), (H2 _ _ _ _ Hk Hquiet l Hq).
        -- eapply (shape_last s q p k pk); [done..|lia|done].
Qed.

Lemma shape_fork s q p pid :
  Shape s → procs s !! q = Some p → is_running p = true →
  initialized (cursor_of (code p)) = true → forked (code p) = false →
  code_ok q (resume N (code p) (returns pid)) →
  table q (resume N (code p) (returns pid)) = ofile p →
  initialized (cursor_of (resume N (code p) (returns pid))) = true →
  forked (resume N (code p) (returns pid)) = true →
  after_wait (resume N (code p) (returns pid)) = false →
  code_ok (S q) (resume N (code p) (returns 0)) →
  table (S q) (resume N (code p) (returns 0)) = ofile p →
  initialized (cursor_of (resume N (code p) (returns 0))) = false →
  Shape (Sys (procs (wake N q p (returns pid) (ofile p) s)
                ++ [Proc (resume N (code p) (returns 0)) (ofile p) (Some q) RUNNING])
             (pipes s) (console_out s)).
Proof.
  intros HS Hq Hrun Hi Hf Hc Ht Hi' Hf' Ha' Hcc Htc Hic.
  pose proof HS as [H1 H2 H3].
  pose proof (lookup_lt_Some _ _ _ Hq) as Hlt.
  assert (length (procs s) = S q) as Hnp.
  { destruct (H1 _ _ Hq) as [_ _ _ _ _ _ Hch]. rewrite Hf in Hch.
    symmetry in Hch. apply bool_decide_eq_false in Hch. lia. }
  assert (length (pipes s) = S q) as Hnpipes.
  { destruct (H1 _ _ Hq) as [_ _ _ _ _ Hp _]. rewrite Hi in Hp.
    symmetry in Hp. apply bool_decide_eq_true in Hp. lia. }
  assert (forked (resume N (code p) (returns 0)) = false) as Hfc.
  { unfold forked. by rewrite Hic. }
  split; simpl; [| |rewrite length_app, length_insert; simpl; lia].
  - intros k p' Hk. rewrite length_app, length_insert. simpl.
    rewrite Hnp, Hnpipes.
    destruct (decide (k = S q)) as [->|Hne].
    + rewrite lookup_app_r in Hk by (rewrite length_insert; lia).
      rewrite length_insert, Hnp, Nat.sub_diag in Hk. injection Hk as <-.
      split; simpl; try done.
      * rewrite Hic. symmetry. apply bool_decide_eq_false. lia.
      * rewrite Hfc. symmetry. apply bool_decide_eq_false. lia.
    + assert (k < S q)%nat as Hkq.
      { apply lookup_lt_Some in Hk. rewrite length_app, length_insert in Hk.
        simpl in Hk. lia. }
      rewrite lookup_app_l in Hk by (rewrite length_insert; lia).
      destruct (decide (k = q)) as [->|Hne'].
      * rewrite list_lookup_insert_eq in Hk by done. injection Hk as <-.
        destruct (H1 _ _ Hq) as [? ? ? ? ? ? ?].
        split; simpl; try done.
        -- rewrite Hi'. symmetry. apply bool_decide_eq_true. lia.
        -- rewrite Hf'. symmetry. apply bool_decide_eq_true. lia.
      * rewrite list_lookup_insert_ne in Hk by done.
        destruct (H1 _ _ Hk) as [? ? ? ? ? Hp Hch]. split; try done.
        -- rewrite Hp, Hnpipes. done.
        -- rewrite Hch, Hnp. apply bool_decide_ext. lia.
  - intros k pk j pj Hk Hquiet Hkj Hj. exfalso.
    assert (j < S (S q))%nat as Hjlt.
    { apply lookup_lt_Some in Hj. rewrite length_app, length_insert in Hj.
      simpl in Hj. lia. }
    rewrite lookup_app_l in Hk by (rewrite length_insert; lia).
    destruct (decide (k = q)) as [->|Hkq].
    + rewrite list_lookup_insert_eq in Hk by done. injection Hk as <-.
      unfold quiet in Hquiet. simpl in Hquiet. congruence.
    + rewrite list_lookup_insert_ne in Hk by done.
      assert (k < q)%nat as Hlt' by lia.
      by apply (running_not_unused _ Hrun), (H2 k pk q p Hk Hquiet Hlt' Hq).
Qed.

End Steps.

Lemma own_fst k : fst (own_pipe k) = Z.of_nat k + 3.
Proof. done. Qed.

Lemma own_snd k : snd (own_pipe k) = Z.of_nat k + 4.
Proof. done. Qed.

Lemma close_valid k c :
  0 ≤ c → close_pipe_if_valid (Z.of_nat k + c) = sys_close (Z.of_nat k + c).
Proof.
  intros. unfold close_pipe_if_valid, PIPE_INVALID.
  destruct (Z.eqb_spec (Z.of_nat k + c) (-1)); [lia | done].
Qed.

Lemma own_pipe_0 : own_pipe 0 = (3, 4).
Proof. done. Qed.

Lemma inh_0 : inh 0 = [Some console; Some console; Some console].
Proof. done. Qed.

Lemma fdalloc_inh k r : fdalloc (inh k ++ r) = (k + 3 + fdalloc r)%nat.
Proof. by rewrite fdalloc_app, inh_length by apply inh_all_open. Qed.

Lemma fdset_inh k j f r : fdset (k + 3 + j) f (inh k ++ r) = inh k ++ fdset j f r.
Proof. by rewrite <- (inh_length k), fdset_app. Qed.

Lemma fdget_inh j k r fd :
  fd = Z.of_nat k + 3 + Z.of_nat j → fdget fd (inh k ++ r) = mjoin (r !! j).
Proof. intros. apply fdget_app. rewrite inh_length. lia. Qed.

Lemma fdclose_inh j k r fd :
  fd = Z.of_nat k + 3 + Z.of_nat j → fdclose fd (inh k ++ r) = inh k ++ <[j := None]> r.
Proof. intros. apply fdclose_app. rewrite inh_length. lia. Qed.

Lemma own_pipe_alloc k :
  (Z.of_nat (k + 3 + 1), Z.of_nat (k + 3 + 2)) = own_pipe (S k).
Proof. unfold own_pipe. f_equal; lia. Qed.

Lemma copies_pos f o : Some f ∈ o → (0 < copies f o)%nat.
Proof.
  intros H. unfold copies.
  assert (Some f ∈ filter (λ x, x = Some f) o) as H' by (by apply list_elem_of_filter).
  destruct (filter _ o); [by apply elem_of_nil in H' | simpl; lia].
Qed.

Lemma open_copies_pos f ps q p :
  ps !! q = Some p → Some f ∈ ofile p → (open_copies f ps =? 0)%nat = false.
Proof.
  intros Hq Hf. apply Nat.eqb_neq. unfold open_copies.
  apply copies_pos in Hf. revert q Hq.
  induction ps as [|x ps IH]; intros [|q] Hq; simpl in *; try done.
  - injection Hq as ->. lia.
  - specialize (IH _ Hq). lia.
Qed.

Section Steps.

Variable N : Z.

Local Opaque inh own_pipe.

Ltac use_wake HS Hq Hrun :=
  apply shape_wake;
  [ first [ exact HS
          | apply shape_frame; [exact HS | simpl; by rewrite ?length_insert] ]
  | exact Hq | exact Hrun | .. ].

Local Arguments resume : simpl never.

Local Arguments wake : simpl never.

Local Arguments with_pipes : simpl never.

Ltac norm_in H :=
  simpl in H;
  rewrite ?own_fst, ?own_snd, ?initialized_own, ?enter_own, ?Nat.sub_0_r in H;
  rewrite ?close_valid in H by lia; simpl in H.

Ltac norm :=
  simpl; rewrite ?own_fst, ?own_snd, ?initialized_own, ?enter_own, ?Nat.sub_0_r;
  rewrite ?close_valid by lia; simpl.

Ltac local_goal Hc Htab :=
  rewrite ?Hc, ?Htab; unfold resume, table, own_slots, forked; norm.

Ltac stage_index Hcode q k Hcur :=
  destruct Hcode as (Hk & -> & Hcur); destruct q as [|k]; [lia|];
  replace (S k - 1)%nat with k in * by lia; clear Hk.

Lemma fdget_minus_one o : fdget (-1) o = None.
Proof. done. Qed.

Ltac fd_in H :=
  rewrite ?fdget_invalid, ?fdget_minus_one in H;
  try first [ rewrite (fdget_inh 0) in H by lia
            | rewrite (fdget_inh 1) in H by lia
            | rewrite (fdget_inh 2) in H by lia ];
  try first [ rewrite (fdclose_inh 0) in H by lia
            | rewrite (fdclose_inh 1) in H by lia
            | rewrite (fdclose_inh 2) in H by lia ];
  simpl in H.

Lemma shape_wait s q p s' :
  Shape s → procs s !! q = Some p → is_running p = true →
  (∀ r, code_ok q (resume N (code p) r) ∧
        ofile p = table q (resume N (code p) r) ∧
        initialized (cursor_of (resume N (code p) r))
          = initialized (cursor_of (code p)) ∧
        forked (resume N (code p) r) = forked (code p)) →
  match list_find (λ c : proc, zombie_child q c) (procs s) with
  | Some (j, c) =>
      Some (wake N q p (returns (Z.of_nat j)) (ofile p)
              (Sys (<[j := Proc (code c) (ofile c) (parent c) UNUSED]> (procs s))
                   (pipes s) (console_out s)))
  | None =>
      if existsb (running_child q) (procs s) then None
      else Some (wake N q p (returns (-1)) (ofile p) s)
  end = Some s' →
  Shape s'.
Proof.
  intros HS Hq Hrun Hloc Hstep.
  destruct (list_find _ _) as [[j c]|] eqn:Hfind.
  - injection Hstep as <-.
    apply list_find_Some in Hfind as (Hj & Hz & _).
    unfold zombie_child in Hz. apply andb_prop_elim in Hz as [Hpar Hz].
    apply bool_decide_unpack in Hpar. apply Is_true_eq_true in Hz.
    assert (j = S q) as ->.
    { destruct (shape_procs _ HS _ _ Hj) as [_ Hp _ _ _ _ _].
      rewrite Hpar in Hp. destruct j; congruence. }
    destruct (Hloc (returns (Z.of_nat (S q)))) as (H1 & H2 & H3 & H4).
    apply shape_wake; try done.
    + by apply shape_reap.
    + simpl. rewrite list_lookup_insert_ne by lia. done.
    + intros _ j p' Hlt Hp'. simpl in Hp'.
      destruct (decide (j = S q)) as [->|Hne].
      * rewrite list_lookup_insert_eq in Hp' by (by eapply lookup_lt_Some).
        by injection Hp' as <-.
      * rewrite list_lookup_insert_ne in Hp' by done.
        apply (shape_quiet _ HS (S q) c j p'); [done| |lia|done].
        unfold quiet, is_running, is_zombie in *. by destruct (state c).
  - destruct (existsb _ _) eqn:Hex; [done|]. injection Hstep as <-.
    destruct (Hloc (returns (-1))) as (H1 & H2 & H3 & H4).
    apply shape_wake; try done.
    intros _ j p' Hlt Hp'.
    destruct (lookup_lt_is_Some_2 (procs s) (S q)) as [c Hc].
    { apply lookup_lt_Some in Hp'. lia. }
    assert (state c = UNUSED) as Hcu.
    { destruct (shape_procs _ HS _ _ Hc) as [_ Hp _ _ _ _ _].
      apply list_find_None in Hfind. rewrite Forall_forall in Hfind.
      specialize (Hfind c (list_elem_of_lookup_2 _ _ _ Hc)).
      rewrite <- not_true_iff_false, existsb_exists in Hex.
      assert (running_child q c = false) as Hr.
      { apply not_true_iff_false. intros Hr. apply Hex. exists c.
        split; [|done]. apply list_elem_of_In. by eapply list_elem_of_lookup_2. }
      unfold zombie_child, running_child, is_zombie, is_running in *.
      rewrite Hp, bool_decide_eq_true_2 in Hfind, Hr by done. simpl in *.
      destruct (state c); try done. }
    destruct (decide (j = S q)) as [->|Hne]; [congruence|].
    apply (shape_quiet _ HS (S q) c j p'); [done| |lia|done].
    unfold quiet, is_running. by rewrite Hcu.
Qed.

Ltac ok_tac :=
  rewrite ?Nat.sub_0_r; repeat split; try lia; try done;
  first [by left | by right | done].

Lemma shape_step q fault s s' :
  Shape s → kstep N q fault s = Some s' → Shape s'.
Proof.
  intros HS Hstep. unfold kstep in Hstep.
  destruct (procs s !! q) as [p|] eqn:Hq; [|done].
  destruct (is_running p) eqn:Hrun; [|done]. cbn [negb] in Hstep.
  pose proof (shape_procs _ HS _ _ Hq) as [Hcode Hpar Htab Hex _ Hpipe Hchild].
  rewrite Hrun in Htab. clear Hex.
  pose proof (lookup_lt_Some _ _ _ Hq) as Hlen.
  destruct (next_call (code p)) eqn:Hcall;
  destruct (code p) as [m i cur | t n pl pr rn] eqn:Hc.
  - (* printf in main *)
    destruct Hcode as [-> Hcur]. injection Hstep as <-.
    destruct m as [| |[]| | | |]; norm_in Hcall; try discriminate Hcall;
      simpl in Hcur; try subst cur;
      (use_wake HS Hq Hrun; local_goal Hc Htab; try done; ok_tac).
  - (* printf in a stage *)
    stage_index Hcode q k Hcur. injection Hstep as <-.
    destruct t as [| | |[]| | | | |]; norm_in Hcall; try discriminate Hcall.
    all: simpl in Hcur; try subst pr.
    all: try (destruct Hcur as [-> | ->]; norm_in Hcall; try discriminate Hcall).
    all: use_wake HS Hq Hrun; local_goal Hc Htab; try done; ok_tac.
  - (* pipe in main *)
    destruct Hcode as [-> Hcur].
    destruct m as [| |[]| | | |]; norm_in Hcall; try discriminate Hcall.
    simpl in Hcur. subst cur. destruct fault; injection Hstep as <-.
    { use_wake HS Hq Hrun; local_goal Hc Htab; try done; ok_tac. }
    assert (length (pipes s) = 0%nat) as Hid.
    { eapply shape_pipe_id; [done..|]. by rewrite Hc. }
    rewrite Htab, Hid. unfold table, own_slots. rewrite inh_0. simpl.
    apply shape_pipe; try done; local_goal Hc Htab; rewrite ?inh_0; try done.
  - (* pipe in a stage *)
    stage_index Hcode q k Hcur.
    destruct t as [| | |[]| | | | |]; norm_in Hcall; try discriminate Hcall.
    all: simpl in Hcur; try subst pr.
    all: try (destruct Hcur as [-> | ->]; norm_in Hcall; try discriminate Hcall).
    destruct fault; injection Hstep as <-.
    { use_wake HS Hq Hrun; local_goal Hc Htab; try done; ok_tac. }
    assert (length (pipes s) = S k) as Hid.
    { eapply shape_pipe_id; [done..|]. by rewrite Hc. }
    rewrite Htab, Hid. unfold table, own_slots. simpl. rewrite ?Nat.sub_0_r.
    rewrite !fdalloc_inh. simpl. rewrite (fdset_inh k 1). simpl.
    rewrite fdalloc_inh. simpl. rewrite (fdset_inh k 2). simpl.
    rewrite own_pipe_alloc.
    apply shape_pipe; try done; local_goal Hc Htab; try done; ok_tac.
  - (* fork in main *)
    destruct Hcode as [-> Hcur].
    destruct m as [| |[]| | | |]; norm_in Hcall; try discriminate Hcall.
    simpl in Hcur. subst cur. rewrite <- Hc in Hstep.
    destruct fault; injection Hstep as <-.
    { use_wake HS Hq Hrun; local_goal Hc Htab; try done; ok_tac. }
    assert (resume N (code p) (returns (Z.of_nat (length (procs s))))
            = in_main L139_for (to_int (i + 1)) (own_pipe 0)) as Hpar'.
    { rewrite Hc. unfold resume. simpl.
      destruct (Z.eqb_spec (Z.of_nat (length (procs s))) 0) as [|_]; [lia|].
      by destruct (Z.gtb_spec (Z.of_nat (length (procs s))) 0) as [_|]; [|lia]. }
    assert (resume N (code p) (returns 0) = child_branch i (own_pipe 0)) as Hch'.
    { rewrite Hc. done. }
    apply shape_fork; rewrite ?Hpar', ?Hch'; try done;
      local_goal Hc Htab; try done; ok_tac.
  - (* fork in a stage *)
    stage_index Hcode q k Hcur.
    destruct t as [| | |[]| | | | |]; norm_in Hcall; try discriminate Hcall.
    all: simpl in Hcur; try subst pr.
    all: try (destruct Hcur as [-> | ->]; norm_in Hcall; try discriminate Hcall).
    rewrite <- Hc in Hstep. destruct fault; injection Hstep as <-.
    { use_wake HS Hq Hrun; local_goal Hc Htab; try done; ok_tac. }
    assert (resume N (code p) (returns (Z.of_nat (length (procs s))))
            = in_stage L91_read n (own_pipe k) (own_pipe (S k)) rn) as Hpar'.
    { rewrite Hc. unfold resume. simpl.
      destruct (Z.eqb_spec (Z.of_nat (length (procs s))) 0) as [|_]; [lia|].
      by destruct (Z.gtb_spec (Z.of_nat (length (procs s))) 0) as [_|]; [|lia]. }
    assert (resume N (code p) (returns 0) = child_branch rn (own_pipe (S k))) as Hch'.
    { rewrite Hc. done. }
    apply shape_fork; rewrite ?Hpar', ?Hch'; try done;
      local_goal Hc Htab; try done; try ok_tac.
    by rewrite inh_snoc, ?Nat.sub_0_r, <- app_assoc.
  - (* close in main *)
    destruct Hcode as [-> Hcur].
    destruct m as [| |[]| | | |]; norm_in Hcall; try discriminate Hcall.
    all: simpl in Hcur; destruct Hcur as [-> | ->]; norm_in Hcall;
      injection Hcall as <-.
    all: rewrite Htab in Hstep; unfold table, own_slots in Hstep;
      norm_in Hstep; fd_in Hstep; injection Hstep as <-.
    all: use_wake HS Hq Hrun; local_goal Hc Htab; try done; ok_tac.
  - (* close in a stage *)
    stage_index Hcode q k Hcur.
    destruct t as [| | |[]| | | | |]; norm_in Hcall; try discriminate Hcall.
    all: simpl in Hcur; try subst pr.
    all: try (destruct Hcur as [-> | ->]; norm_in Hcall; try discriminate Hcall).
    all: injection Hcall as <-.
    all: rewrite Htab in Hstep; unfold table, own_slots in Hstep;
      norm_in Hstep; fd_in Hstep; injection Hstep as <-.
    all: use_wake HS Hq Hrun; local_goal Hc Htab; try done; try ok_tac.
  - (* read in main: none *)
    destruct m as [| |[]| | | |]; norm_in Hcall; discriminate Hcall.
  - (* read in a stage: line 91 *)
    stage_index Hcode q k Hcur.
    destruct t as [| | |[]| | | | |]; norm_in Hcall; try discriminate Hcall.
    all: simpl in Hcur; try subst pr.
    all: try (destruct Hcur as [-> | ->]; norm_in Hcall; try discriminate Hcall).
    all: injection Hcall as <-.
    all: rewrite Htab in Hstep; unfold table, own_slots in Hstep;
      norm_in Hstep; fd_in Hstep.
    all: destruct (pipes s !! k) as [[|v buf]|];
      [ destruct (open_copies (pipe_write k) (procs s) =? 0)%nat;
        [|discriminate Hstep] | | ].
    all: injection Hstep as <-.
    all: use_wake HS Hq Hrun; local_goal Hc Htab; try done; try ok_tac.
    all: destruct (Z.rem v n =? 0); norm; try done; ok_tac.
  - (* write in main: line 119 *)
    destruct Hcode as [-> Hcur].
    destruct m as [| |[]| | | |]; norm_in Hcall; try discriminate Hcall.
    simpl in Hcur. subst cur. norm_in Hcall. injection Hcall as <- <-.
    assert ((open_copies (pipe_read 0) (procs s) =? 0)%nat = false) as Hrd.
    { eapply open_copies_pos; [done|]. rewrite Htab. unfold table, own_slots.
      norm. apply elem_of_app. right. by left. }
    destruct (lookup_lt_is_Some_2 (pipes s) 0) as [buf Hbuf].
    { norm_in Hpipe. symmetry in Hpipe.
      by apply bool_decide_eq_true in Hpipe. }
    rewrite Htab in Hstep; unfold table, own_slots in Hstep;
      norm_in Hstep; fd_in Hstep. rewrite Hbuf, Hrd in Hstep.
    injection Hstep as <-.
    use_wake HS Hq Hrun; local_goal Hc Htab; try done; ok_tac.
  - (* write in a stage: line 119 *)
    stage_index Hcode q k Hcur.
    destruct t as [| | |[]| | | | |]; norm_in Hcall; try discriminate Hcall.
    all: simpl in Hcur; try subst pr.
    all: try (destruct Hcur as [-> | ->]; norm_in Hcall; try discriminate Hcall).
    norm_in Hcall. injection Hcall as <- <-.
    assert ((open_copies (pipe_read (S k)) (procs s) =? 0)%nat = false) as Hrd.
    { eapply open_copies_pos; [done|]. rewrite Htab. unfold table, own_slots.
      norm. apply elem_of_app. right. right. by left. }
    destruct (lookup_lt_is_Some_2 (pipes s) (S k)) as [buf Hbuf].
    { norm_in Hpipe. symmetry in Hpipe.
      by apply bool_decide_eq_true in Hpipe. }
    rewrite Htab in Hstep; unfold table, own_slots in Hstep;
      norm_in Hstep; fd_in Hstep. rewrite Hbuf, Hrd in Hstep.
    injection Hstep as <-.
    use_wake HS Hq Hrun; local_goal Hc Htab; try done; ok_tac.
  - (* wait in main: line 154 *)
    destruct Hcode as [-> Hcur].
    destruct m as [| |[]| | | |]; norm_in Hcall; try discriminate Hcall.
    simpl in Hcur.
    eapply shape_wait; [done..| |done].
    intros r. local_goal Hc Htab. destruct Hcur as [-> | ->]; norm; ok_tac.
  - (* wait in a stage: line 108 *)
    stage_index Hcode q k Hcur.
    destruct t as [| | |[]| | | | |]; norm_in Hcall; try discriminate Hcall.
    all: simpl in Hcur; try subst pr.
    all: try (destruct Hcur as [-> | ->]; norm_in Hcall; try discriminate Hcall).
    all: (eapply shape_wait; [done..| |done]).
    all: intros r; local_goal Hc Htab; ok_tac.
  - (* exit in main *)
    rewrite <- Hc in Hstep. injection Hstep as <-.
    destruct Hcode as [-> Hcur].
    destruct m as [| |[]| | | |]; norm_in Hcall; try discriminate Hcall.
    all: simpl in Hcur; try done; try subst cur.
    all: apply shape_exit; try done; rewrite Hc; unfold forked; norm;
      try done; auto.
  - (* exit in a stage *)
    rewrite <- Hc in Hstep. injection Hstep as <-.
    stage_index Hcode q k Hcur.
    destruct t as [| | |[]| | | | |]; norm_in Hcall; try discriminate Hcall.
    all: simpl in Hcur; try done; try subst pr.
    all: try (destruct Hcur as [-> | ->]; norm_in Hcall; try discriminate Hcall).
    all: apply shape_exit; try done; rewrite Hc; unfold forked; norm;
      try done; auto.
  - (* no call in main: line 139 *)
    destruct Hcode as [-> Hcur]. injection Hstep as <-.
    destruct m as [| |[]| | | |]; norm_in Hcall; try discriminate Hcall.
    simpl in Hcur.
    use_wake HS Hq Hrun; local_goal Hc Htab; unfold main_for;
      destruct (i <=? N); destruct (Z.rem i START_PRIME =? 0);
      destruct Hcur as [-> | ->]; norm; try done; ok_tac.
  - (* no call in a stage: a guarded close of an unset descriptor *)
    stage_index Hcode q k Hcur. injection Hstep as <-.
    destruct t as [| | |[]| | | | |]; norm_in Hcall; try discriminate Hcall.
    all: simpl in Hcur; try subst pr.
    all: try (destruct Hcur as [-> | ->]; norm_in Hcall; try discriminate Hcall).
    all: use_wake HS Hq Hrun; local_goal Hc Htab; try done; ok_tac.
Qed.

End Steps.

(** ** Data flow: streams, buffers and codes *)

Lemma toll_aux_fuel f1 f2 l :
  (length l ≤ f1)%nat → (length l ≤ f2)%nat → toll_aux f1 l = toll_aux f2 l.
Proof.
  revert f2 l. induction f1 as [|f1 IH]; intros [|f2] [|p t] H1 H2;
    simpl in *; try done; try lia.
  pose proof (length_filter (survives p) t).
  rewrite (IH f2 (filter (survives p) t)) by lia. done.
Qed.

Lemma toll_cons v l :
  toll (v :: l) = (8 + 3 * length l + toll (filter (survives v) l))%nat.
Proof.
  unfold toll at 1. cbn [length toll_aux].
  rewrite (toll_aux_fuel (length l) (length (filter (survives v) l))); [done| |done].
  apply length_filter.
Qed.

Lemma codes_length s : length (codes s) = length (procs s).
Proof. unfold codes. by rewrite length_map. Qed.

Lemma views_length s : length (views s) = length (procs s).
Proof. unfold views. by rewrite length_map. Qed.

Lemma codes_views s : codes s = map fst (views s).
Proof. unfold codes, views. rewrite map_map. done. Qed.

Lemma views_codes_lookup s k c r :
  views s !! k = Some (c, r) → codes s !! k = Some c.
Proof. intros H. by rewrite codes_views, list_lookup_fmap, H. Qed.

Lemma views_codes_insert s s' q v :
  views s' = <[q := v]> (views s) → codes s' = <[q := v.1]> (codes s).
Proof. intros H. by rewrite !codes_views, H, list_fmap_insert. Qed.

Lemma views_lookup s k p : procs s !! k = Some p → views s !! k = Some (view p).
Proof. intros H. unfold views. by rewrite list_lookup_fmap, H. Qed.

Lemma codes_lookup s k c :
  codes s !! k = Some c ↔ ∃ p, procs s !! k = Some p ∧ code p = c.
Proof.
  unfold codes. rewrite list_lookup_fmap. destruct (procs s !! k); simpl.
  - split; [intros [= <-]; eauto | intros (? & [= <-] & <-); done].
  - split; [done | intros (? & ? & _); done].
Qed.

Lemma code_at_insert cs q c j :
  (q < length cs)%nat →
  code_at (<[q := c]> cs) j = if decide (j = q) then c else code_at cs j.
Proof.
  intros Hq. unfold code_at. destruct (decide (j = q)) as [->|Hne].
  - by rewrite list_lookup_insert_eq.
  - by rewrite list_lookup_insert_ne.
Qed.

Lemma code_at_lookup cs k c : cs !! k = Some c → code_at cs k = c.
Proof. intros H. unfold code_at. by rewrite H. Qed.

Lemma buf_at_nil (bs : list (list Z)) k :
  (∀ b, bs !! k = Some b → b = []) → buf_at bs k = [].
Proof. unfold buf_at. destruct (bs !! k); simpl; auto. Qed.

Lemma buf_at_snoc (bs : list (list Z)) j : buf_at (bs ++ [[]]) j = buf_at bs j.
Proof.
  unfold buf_at. destruct (decide (j < length bs)%nat).
  - by rewrite lookup_app_l.
  - rewrite lookup_app_r, (lookup_ge_None_2 bs) by lia.
    by destruct (j - length bs)%nat as [|[|?]].
Qed.

Lemma buf_at_insert (bs : list (list Z)) k b j :
  j ≠ k → buf_at (<[k := b]> bs) j = buf_at bs j.
Proof. intros. unfold buf_at. by rewrite list_lookup_insert_ne. Qed.

Lemma buf_at_lookup (bs : list (list Z)) k b : bs !! k = Some b → buf_at bs k = b.
Proof. intros H. unfold buf_at. by rewrite H. Qed.

Lemma buf_at_insert_eq (bs : list (list Z)) k b b0 :
  bs !! k = Some b0 → buf_at (<[k := b]> bs) k = b.
Proof.
  intros H. unfold buf_at.
  by rewrite list_lookup_insert_eq by (by eapply lookup_lt_Some).
Qed.

Section Flow.

Variable N : Z.

Lemma flow_unfold cs bs k : flow N cs bs k = out N (code_at cs k) (input N cs bs k).
Proof. by destruct k. Qed.

Lemma flow_below cs cs' bs bs' k :
  (∀ j, (j ≤ k)%nat → code_at cs' j = code_at cs j) →
  (∀ j, (j < k)%nat → buf_at bs' j = buf_at bs j) →
  flow N cs' bs' k = flow N cs bs k.
Proof.
  induction k as [|k IH]; intros Hc Hb; simpl.
  - by rewrite Hc.
  - rewrite Hc, Hb by lia. rewrite IH; [done| |].
    + intros j Hj. apply Hc. lia.
    + intros j Hj. apply Hb. lia.
Qed.

Lemma flow_above cs cs' bs bs' q k :
  (q < k)%nat →
  (∀ j, (q < j)%nat → code_at cs' j = code_at cs j) →
  (∀ j, (q < j)%nat → buf_at bs' j = buf_at bs j) →
  buf_at bs' q ++ flow N cs' bs' q = buf_at bs q ++ flow N cs bs q →
  flow N cs' bs' k = flow N cs bs k.
Proof.
  intros Hk Hc Hb Hq. induction k as [|k IH]; [lia|].
  simpl. rewrite Hc by lia. f_equal.
  destruct (decide (k = q)) as [->|Hne]; [done|].
  rewrite Hb, IH by lia. done.
Qed.

(** A step of [q] that leaves what [q] will still deliver as it is. *)
Lemma flows_local cs bs cs' bs' q c c' :
  cs !! q = Some c → cs' = <[q := c']> cs →
  (∀ j, S j ≠ q → buf_at bs' j = buf_at bs j) →
  out N c' match q with
           | O => []
           | S q' => buf_at bs' q' ++ flow N cs bs q'
           end = out N c (input N cs bs q) →
  (∀ k, flow N cs' bs' k = flow N cs bs k) ∧
  (∀ k, k ≠ q → input N cs' bs' k = input N cs bs k) ∧
  input N cs' bs' q = match q with
                      | O => []
                      | S q' => buf_at bs' q' ++ flow N cs bs q'
                      end.
Proof.
  intros Hq -> Hbs Hout.
  pose proof (lookup_lt_Some _ _ _ Hq) as Hlt.
  assert (∀ k, (k < q)%nat → flow N (<[q:=c']> cs) bs' k = flow N cs bs k) as Hlow.
  { intros k Hk. apply flow_below.
    - intros j Hj. rewrite code_at_insert by done. rewrite decide_False by lia. done.
    - intros j Hj. apply Hbs. lia. }
  assert (input N (<[q:=c']> cs) bs' q
          = match q with
            | O => []
            | S q' => buf_at bs' q' ++ flow N cs bs q'
            end) as Hin.
  { destruct q as [|q']; [done|]. simpl. by rewrite Hlow by lia. }
  assert (flow N (<[q:=c']> cs) bs' q = flow N cs bs q) as Hfq.
  { rewrite !flow_unfold, Hin, code_at_insert by done.
    rewrite decide_True by done. by rewrite Hout, (code_at_lookup _ _ _ Hq). }
  assert (∀ k, flow N (<[q:=c']> cs) bs' k = flow N cs bs k) as Hall.
  { intros k. destruct (decide (k < q)%nat); [by apply Hlow|].
    destruct (decide (k = q)) as [->|Hkq]; [done|].
    apply (flow_above _ _ _ _ q); [lia| | |].
    - intros j Hj. rewrite code_at_insert by done. rewrite decide_False by lia. done.
    - intros j Hj. apply Hbs. lia.
    - rewrite Hfq, Hbs by lia. done. }
  split; [done|]. split; [|done].
  intros [|k'] Hk; [done|]. simpl. rewrite Hall, Hbs by lia. done.
Qed.

(** A write moves the value in flight to the end of the pipe. *)
Lemma flows_write cs bs cs' bs' q c c' v buf :
  cs !! q = Some c → cs' = <[q := c']> cs →
  bs !! q = Some buf → bs' = <[q := buf ++ [v]]> bs →
  (∀ X, out N c X = v :: out N c' X) →
  flow N cs bs q = v :: flow N cs' bs' q ∧
  (∀ k, (q < k)%nat → flow N cs' bs' k = flow N cs bs k) ∧
  (∀ k, input N cs' bs' k = input N cs bs k).
Proof.
  intros Hq -> Hbuf -> Hout.
  pose proof (lookup_lt_Some _ _ _ Hq) as Hlt.
  assert (∀ k, (k < q)%nat →
            flow N (<[q:=c']> cs) (<[q:=buf ++ [v]]> bs) k = flow N cs bs k) as Hlow.
  { intros k Hk. apply flow_below.
    - intros j Hj. rewrite code_at_insert by done. rewrite decide_False by lia. done.
    - intros j Hj. apply buf_at_insert. lia. }
  assert (input N (<[q:=c']> cs) (<[q:=buf ++ [v]]> bs) q = input N cs bs q) as Hin.
  { destruct q as [|q']; [done|]. simpl.
    rewrite Hlow, buf_at_insert by lia. done. }
  assert (flow N cs bs q = v :: flow N (<[q:=c']> cs) (<[q:=buf ++ [v]]> bs) q) as Hfq.
  { rewrite !flow_unfold, Hin, code_at_insert by done.
    rewrite decide_True by done. by rewrite (code_at_lookup _ _ _ Hq), Hout. }
  assert (∀ k, (q < k)%nat →
            flow N (<[q:=c']> cs) (<[q:=buf ++ [v]]> bs) k = flow N cs bs k) as Hhigh.
  { intros k Hk. apply (flow_above _ _ _ _ q); [lia| | |].
    - intros j Hj. rewrite code_at_insert by done. rewrite decide_False by lia. done.
    - intros j Hj. apply buf_at_insert. lia.
    - rewrite Hfq, (buf_at_insert_eq _ _ _ _ Hbuf), (buf_at_lookup _ _ _ Hbuf).
      by rewrite <- app_assoc. }
  split; [done|]. split; [done|].
  intros [|k']; [done|]. simpl.
  destruct (decide (k' = q)) as [->|Hne].
  - rewrite Hfq, (buf_at_insert_eq _ _ _ _ Hbuf), (buf_at_lookup _ _ _ Hbuf).
    by rewrite <- app_assoc.
  - rewrite buf_at_insert by done. f_equal.
    destruct (decide (k' < q)%nat); [apply Hlow | apply Hhigh]; lia.
Qed.

End Flow.

Section Flow.

Variable N : Z.

Lemma weight_below_ext s s' k :
  (∀ j, (j < k)%nat → weight_at N s' j = weight_at N s j) →
  weight_below N s' k = weight_below N s k.
Proof.
  induction k as [|k IH]; intros H; simpl; [done|].
  rewrite IH, H by (intros; try apply H; lia). done.
Qed.

Lemma weight_below_change s s' q k :
  (q < k)%nat →
  (∀ j, j ≠ q → weight_at N s' j = weight_at N s j) →
  (weight_below N s' k + weight_at N s q
   = weight_below N s k + weight_at N s' q)%nat.
Proof.
  intros Hq H. induction k as [|k IH]; [lia|]. simpl.
  destruct (decide (k = q)) as [->|Hne].
  - rewrite (weight_below_ext s s' q) by (intros; apply H; lia). lia.
  - rewrite H by done. specialize (IH ltac:(lia)). lia.
Qed.

Lemma sites_insert s s' q c' :
  Flow N s → (q < length (procs s))%nat →
  codes s' = <[q := c']> (codes s) →
  no_error_site c' = true → main_i_ok N c' →
  ∀ k c, codes s' !! k = Some c → no_error_site c = true ∧ main_i_ok N c.
Proof.
  intros [H1 _ _ _ _] Hlt Hcs Hne Hi k c Hk.
  rewrite Hcs in Hk. rewrite <- codes_length in Hlt.
  destruct (decide (k = q)) as [->|Hkq].
  - rewrite list_lookup_insert_eq in Hk by done. by injection Hk as <-.
  - rewrite list_lookup_insert_ne in Hk by done. by eapply H1.
Qed.

(** A step of [q] that neither writes nor forks. *)
Lemma step_local s s' q c c' r' :
  Flow N s → views s !! q = Some (c, true) →
  views s' = <[q := (c', r')]> (views s) →
  console_out s' ++ map prime_line (unprinted c')
    = console_out s ++ map prime_line (unprinted c) →
  unprinted c' = unprinted c ∨ S q = length (procs s) →
  (∀ j, S j ≠ q → buf_at (pipes s') j = buf_at (pipes s) j) →
  (∀ j v, v ∈ buf_at (pipes s') j → v ∈ buf_at (pipes s) j) →
  no_error_site c' = true → main_i_ok N c' → prime_of c' = prime_of c →
  out N c' match q with
           | O => []
           | S q' => buf_at (pipes s') q' ++ flow N (codes s) (pipes s) q'
           end = out N c (input N (codes s) (pipes s) q) →
  (∀ v, v ∈ pend c' → v ∈ pend c ∨
     (survives (prime_of c) v ∧
      match q with O => True | S q' => v ∈ buf_at (pipes s) q' end)) →
  (proc_weight N (c', r')
     match q with
     | O => []
     | S q' => buf_at (pipes s') q' ++ flow N (codes s) (pipes s) q'
     end < proc_weight N (c, true) (input N (codes s) (pipes s) q))%nat →
  Flow N s' ∧ (mu N s' < mu N s)%nat.
Proof.
  intros HF Hv Hv' Hcon Hlast Hbs Hsub Hne Hi Hpr Hout Hpend Hw.
  pose proof HF as [H1 H2 H3 H4 H5].
  pose proof (views_codes_lookup _ _ _ _ Hv) as Hq.
  pose proof (views_codes_insert _ _ _ _ Hv') as Hcs. simpl in Hcs.
  pose proof (lookup_lt_Some _ _ _ Hq) as Hlt.
  assert (length (procs s') = length (procs s)) as Hlen.
  { rewrite <- !views_length, Hv', length_insert. done. }
  destruct (flows_local N _ _ _ _ _ _ _ Hq Hcs Hbs Hout) as (Hfl & Hin & Hinq).
  rewrite codes_length in Hlt.
  set (K := (length (procs s) - 1)%nat).
  assert (console_out s' ++ map prime_line (unprinted (code_at (codes s') K))
          = console_out s ++ map prime_line (unprinted (code_at (codes s) K))) as HconK.
  { rewrite Hcs, code_at_insert by (by rewrite codes_length).
    case_decide as HK.
    - by rewrite HK, (code_at_lookup _ _ _ Hq).
    - destruct Hlast as [Hu|Hu]; [|lia]. rewrite Hu in Hcon.
      apply app_inv_tail in Hcon. by rewrite Hcon. }
  assert (∀ j, prime_of (code_at (codes s') j) = prime_of (code_at (codes s) j)) as Hprj.
  { intros j. rewrite Hcs, code_at_insert by (by rewrite codes_length).
    case_decide as Hj; [|done]. by rewrite Hj, (code_at_lookup _ _ _ Hq). }
  split; [split|].
  - by eapply sites_insert.
  - intros k b Hk Hl. rewrite Hlen in Hl.
    rewrite <- (buf_at_lookup _ _ _ Hk), Hbs by lia.
    apply buf_at_nil. intros b0 Hb0. by eapply H2.
  - unfold future. rewrite codes_length, Hlen, Hfl. fold K.
    rewrite map_app, app_assoc, HconK, <- app_assoc, <- map_app.
    unfold future in H3. rewrite codes_length in H3. done.
  - intros k v j Hin' Hj. rewrite Hprj.
    apply elem_of_app in Hin' as [Hin'|Hin'].
    + rewrite Hcs, code_at_insert in Hin' by (by rewrite codes_length).
      case_decide as Hk.
      * subst k. destruct (Hpend v Hin') as [Hp|[Hs Hb]].
        -- apply (H4 q v j); [|done]. apply elem_of_app. left.
           by rewrite (code_at_lookup _ _ _ Hq).
        -- destruct (decide (j = q)) as [->|Hjq].
           { by rewrite (code_at_lookup _ _ _ Hq). }
           destruct q as [|q']; [lia|].
           apply (H4 q' v j); [|lia]. apply elem_of_app. by right.
      * apply (H4 k v j); [|done]. apply elem_of_app. by left.
    + apply (H4 k v j); [|done]. apply elem_of_app. right. by apply Hsub.
  - rewrite Hlen. fold K. rewrite HconK. unfold K. rewrite H5, Hcs, list_fmap_insert.
    symmetry. f_equal. apply list_insert_id.
    by rewrite list_lookup_fmap, Hq, Hpr.
  - unfold mu. rewrite Hlen, Hfl.
    assert (∀ j, j ≠ q → weight_at N s' j = weight_at N s j) as Hother.
    { intros j Hj. unfold weight_at.
      rewrite Hv', list_lookup_insert_ne, Hin by done. done. }
    pose proof (weight_below_change s s' q (length (procs s)) Hlt Hother) as Hch.
    unfold weight_at in Hch.
    rewrite Hv', list_lookup_insert_eq, Hinq, Hv in Hch
      by (by rewrite views_length).
    lia.
Qed.

(** A write moves the value in flight to the end of the pipe. *)
Lemma step_write s s' q c c' v buf :
  Flow N s → views s !! q = Some (c, true) →
  views s' = <[q := (c', true)]> (views s) →
  console_out s' = console_out s →
  pipes s !! q = Some buf → pipes s' = <[q := buf ++ [v]]> (pipes s) →
  (S q < length (procs s))%nat →
  no_error_site c' = true → main_i_ok N c' → prime_of c' = prime_of c →
  v ∈ pend c → pend c' = [] →
  (∀ X, out N c X = v :: out N c' X) →
  (weight N c' < weight N c)%nat →
  Flow N s' ∧ (mu N s' < mu N s)%nat.
Proof.
  intros HF Hv Hv' Hcon Hbuf Hbs Hchild Hne Hi Hpr Hvp Hp' Hout Hw.
  pose proof HF as [H1 H2 H3 H4 H5].
  pose proof (views_codes_lookup _ _ _ _ Hv) as Hq.
  pose proof (views_codes_insert _ _ _ _ Hv') as Hcs. simpl in Hcs.
  pose proof (lookup_lt_Some _ _ _ Hq) as Hlt.
  assert (length (procs s') = length (procs s)) as Hlen.
  { rewrite <- !views_length, Hv', length_insert. done. }
  destruct (flows_write N _ _ _ _ _ _ _ _ _ Hq Hcs Hbuf Hbs Hout) as (Hfq & Hfl & Hin).
  set (K := (length (procs s) - 1)%nat).
  assert (code_at (codes s') K = code_at (codes s) K) as HcK.
  { rewrite Hcs, code_at_insert by done. rewrite decide_False by lia. done. }
  assert (∀ j, prime_of (code_at (codes s') j) = prime_of (code_at (codes s) j)) as Hprj.
  { intros j. rewrite Hcs, code_at_insert by done.
    case_decide as Hj; [|done]. by rewrite Hj, (code_at_lookup _ _ _ Hq). }
  split; [split|].
  - eapply sites_insert; [done| |done..]. lia.
  - intros k b Hk Hl. rewrite Hlen in Hl.
    rewrite Hbs, list_lookup_insert_ne in Hk by lia. by eapply H2.
  - unfold future. rewrite codes_length, Hlen, Hfl by lia. fold K.
    rewrite HcK, Hcon. unfold future in H3. rewrite codes_length in H3. done.
  - intros k w j Hin' Hj. rewrite Hprj.
    apply elem_of_app in Hin' as [Hin'|Hin'].
    + rewrite Hcs, code_at_insert in Hin' by done. case_decide as Hk.
      * rewrite Hp' in Hin'. by apply elem_of_nil in Hin'.
      * apply (H4 k w j); [|done]. apply elem_of_app. by left.
    + destruct (decide (k = q)) as [->|Hkq].
      * rewrite Hbs, (buf_at_insert_eq _ _ _ _ Hbuf) in Hin'.
        apply (H4 q w j); [|done]. apply elem_of_app.
        apply elem_of_app in Hin' as [Hin'|Hin'].
        -- right. by rewrite (buf_at_lookup _ _ _ Hbuf).
        -- left. apply list_elem_of_singleton in Hin' as ->.
           by rewrite (code_at_lookup _ _ _ Hq).
      * rewrite Hbs, buf_at_insert in Hin' by done.
        apply (H4 k w j); [|done]. apply elem_of_app. by right.
  - rewrite Hlen. fold K. rewrite HcK, Hcon. unfold K. rewrite H5, Hcs, list_fmap_insert.
    symmetry. f_equal. apply list_insert_id.
    by rewrite list_lookup_fmap, Hq, Hpr.
  - unfold mu. rewrite Hlen, Hfl by lia.
    assert (∀ j, j ≠ q → weight_at N s' j = weight_at N s j) as Hother.
    { intros j Hj. unfold weight_at.
      rewrite Hv', list_lookup_insert_ne, Hin by done. done. }
    assert (q < length (procs s))%nat as Hlt' by lia.
    pose proof (weight_below_change s s' q (length (procs s)) Hlt' Hother) as Hch.
    unfold weight_at in Hch.
    rewrite Hv', list_lookup_insert_eq, Hin, Hv in Hch
      by (by rewrite views_length).
    unfold proc_weight in Hch. simpl in Hch. lia.
Qed.

(** A fork turns the value in flight into the prime of a new stage. *)
Lemma step_fork s s' q c c' cc v :
  Flow N s → views s !! q = Some (c, true) →
  views s' = <[q := (c', true)]> (views s) ++ [(cc, true)] →
  console_out s' = console_out s →
  pipes s' = pipes s →
  S q = length (procs s) →
  unprinted c = [] → unprinted cc = [v] → prime_of cc = v → pend cc = [] →
  weight N cc = 8%nat →
  no_error_site c' = true → main_i_ok N c' → prime_of c' = prime_of c →
  pend c' = [] →
  no_error_site cc = true → main_i_ok N cc →
  (∀ X, out N c X = v :: out N c' X) →
  (∀ X, out N cc X = filter (survives v) X) →
  (weight N c' < weight N c)%nat →
  Flow N s' ∧ (mu N s' < mu N s)%nat.
Proof.
  intros HF Hv Hv' Hcon Hbs Hlast Hu Huc Hprc Hpc Hwc Hne Hi Hpr Hp' Hnec Hic
    Hout Houtc Hw.
  pose proof HF as [H1 H2 H3 H4 H5].
  pose proof (views_codes_lookup _ _ _ _ Hv) as Hq.
  assert (codes s' = <[q := c']> (codes s) ++ [cc]) as Hcs.
  { rewrite !codes_views, Hv', map_app, list_fmap_insert. done. }
  pose proof (lookup_lt_Some _ _ _ Hq) as Hlt.
  assert (length (codes s) = S q) as Hlc by (by rewrite codes_length).
  assert (length (procs s') = S (S q)) as Hlen.
  { rewrite <- views_length, Hv', length_app, length_insert, views_length.
    simpl. lia. }
  assert (∀ j, (j < S q)%nat → code_at (codes s') j
            = if decide (j = q) then c' else code_at (codes s) j) as Hca.
  { intros j Hj. rewrite <- code_at_insert by done. unfold code_at.
    rewrite Hcs, lookup_app_l by (rewrite length_insert; lia). done. }
  assert (code_at (codes s') (S q) = cc) as Hcc.
  { unfold code_at. rewrite Hcs, lookup_app_r by (rewrite length_insert; lia).
    by rewrite length_insert, Hlc, Nat.sub_diag. }
  assert (∀ k, (k < q)%nat → flow N (codes s') (pipes s') k
                              = flow N (codes s) (pipes s) k) as Hlow.
  { intros k Hk. rewrite Hbs. apply flow_below; [|done].
    intros j Hj. rewrite Hca by lia. rewrite decide_False by lia. done. }
  assert (∀ k, (k ≤ q)%nat → input N (codes s') (pipes s') k
                              = input N (codes s) (pipes s) k) as Hin.
  { intros [|k'] Hk; [done|]. simpl. rewrite Hlow, Hbs by lia. done. }
  assert (flow N (codes s) (pipes s) q = v :: flow N (codes s') (pipes s') q) as Hfq.
  { rewrite !flow_unfold, Hin, Hca by lia.
    rewrite decide_True by done. by rewrite (code_at_lookup _ _ _ Hq), Hout. }
  assert (buf_at (pipes s) q = []) as Hempty.
  { apply buf_at_nil. intros b Hb. eapply H2; [done|lia]. }
  assert (input N (codes s') (pipes s') (S q) = flow N (codes s') (pipes s') q) as HinS.
  { simpl. by rewrite Hbs, Hempty. }
  assert (flow N (codes s') (pipes s') (S q)
          = filter (survives v) (flow N (codes s') (pipes s') q)) as HfS.
  { by rewrite flow_unfold, HinS, Hcc, Houtc. }
  assert (∀ j, (j ≤ q)%nat →
            prime_of (code_at (codes s') j) = prime_of (code_at (codes s) j)) as Hprj.
  { intros j Hj. rewrite Hca by lia.
    case_decide as Hjq; [|done]. by rewrite Hjq, (code_at_lookup _ _ _ Hq). }
  assert (console_out s = map prime_line (map prime_of (codes s))) as Hchain.
  { rewrite <- H5, <- Hlast. simpl. rewrite Nat.sub_0_r.
    by rewrite (code_at_lookup _ _ _ Hq), Hu, app_nil_r. }
  split; [split|].
  - intros k c0 Hk. rewrite Hcs in Hk.
    destruct (decide (k = S q)) as [->|Hkq].
    + rewrite lookup_app_r in Hk by (rewrite length_insert; lia).
      rewrite length_insert, Hlc, Nat.sub_diag in Hk. by injection Hk as <-.
    + assert (k < S q)%nat.
      { apply lookup_lt_Some in Hk. rewrite length_app, length_insert in Hk.
        simpl in Hk. lia. }
      rewrite lookup_app_l in Hk by (rewrite length_insert; lia).
      destruct (decide (k = q)) as [->|Hkq'].
      * rewrite list_lookup_insert_eq in Hk by done. by injection Hk as <-.
      * rewrite list_lookup_insert_ne in Hk by done. by eapply H1.
  - intros k b Hk Hl. rewrite Hlen in Hl. rewrite Hbs in Hk.
    eapply H2; [done|lia].
  - rewrite Hcon, <- H3. do 2 f_equal. unfold future.
    rewrite !codes_length, Hlen, <- Hlast.
    replace (S (S q) - 1)%nat with (S q) by lia.
    replace (S q - 1)%nat with q by lia.
    rewrite Hcc, HfS, Huc, (code_at_lookup _ _ _ Hq), Hu, Hfq.
    by rewrite sieve_cons.
  - intros k w j Hin' Hj.
    destruct (decide (k ≤ q)%nat) as [Hkq|Hkq].
    + rewrite Hprj by lia. apply (H4 k w j); [|done].
      rewrite Hbs in Hin'. apply elem_of_app in Hin' as [Hin'|Hin'];
        apply elem_of_app; [|by right].
      rewrite Hca in Hin' by lia. case_decide; [|by left].
      rewrite Hp' in Hin'. by apply elem_of_nil in Hin'.
    + exfalso. apply elem_of_app in Hin' as [Hin'|Hin'].
      * destruct (decide (k = S q)) as [->|Hne'].
        -- rewrite Hcc, Hpc in Hin'. by apply elem_of_nil in Hin'.
        -- unfold code_at in Hin'. rewrite lookup_ge_None_2 in Hin'.
           ++ by apply elem_of_nil in Hin'.
           ++ rewrite codes_length, Hlen. lia.
      * rewrite Hbs, buf_at_nil in Hin'; [by apply elem_of_nil in Hin'|].
        intros b Hb. eapply H2; [done|lia].
  - rewrite Hlen. replace (S (S q) - 1)%nat with (S q) by lia.
    rewrite Hcc, Huc, Hcon, Hchain, Hcs.
    rewrite !map_app, list_fmap_insert. simpl. rewrite Hprc. do 3 f_equal.
    symmetry. apply list_insert_id. by rewrite list_lookup_fmap, Hq, Hpr.
  - unfold mu. rewrite Hlen, <- Hlast.
    replace (S (S q) - 1)%nat with (S q) by lia.
    replace (S q - 1)%nat with q by lia.
    cbn [weight_below]. rewrite HfS, Hfq, toll_cons.
    rewrite (weight_below_ext s s' q).
    2:{ intros j Hj. unfold weight_at.
        rewrite Hin, Hv', lookup_app_l, list_lookup_insert_ne
          by (rewrite ?length_insert, ?views_length; lia). done. }
    unfold weight_at.
    rewrite Hv, Hv', !Hin, HinS, lookup_app_l, list_lookup_insert_eq
      by (rewrite ?length_insert, ?views_length; lia).
    rewrite lookup_app_r by (rewrite ?length_insert, ?views_length; lia).
    rewrite length_insert, views_length, <- Hlast, Nat.sub_diag. simpl.
    unfold proc_weight. simpl. rewrite Hwc. lia.
Qed.

End Flow.

(** ** Steps without a failure keep the data flow and lower the measure *)

Lemma to_int_id z : - 2 ^ 31 ≤ z < 2 ^ 31 → to_int z = z.
Proof. intros. unfold to_int. rewrite Z.mod_small by lia. lia. Qed.

Lemma candidates_done i N : N < i → candidates i N = [].
Proof. intros. unfold candidates. by rewrite upto_nil. Qed.

Lemma candidates_even i N :
  i ≤ N → Z.rem i START_PRIME = 0 → candidates i N = candidates (i + 1) N.
Proof.
  intros. unfold candidates. rewrite upto_cons by done.
  rewrite filter_cons_False; [done|]. unfold survives. tauto.
Qed.

Lemma candidates_odd i N :
  i ≤ N → Z.rem i START_PRIME ≠ 0 → candidates i N = i :: candidates (i + 1) N.
Proof.
  intros. unfold candidates. rewrite upto_cons by done.
  by rewrite filter_cons_True.
Qed.

Lemma views_wake N q p r o s :
  views (wake N q p r o s) = <[q := (resume N (code p) r, true)]> (views s).
Proof. unfold views, wake. simpl. by rewrite list_fmap_insert. Qed.

Lemma copies_zero f o : copies f o = 0%nat → Some f ∉ o.
Proof. intros H Hin. apply copies_pos in Hin. lia. Qed.

Lemma open_copies_zero f ps q p :
  open_copies f ps = 0%nat → ps !! q = Some p → Some f ∉ ofile p.
Proof.
  intros H0 Hq Hin.
  pose proof (open_copies_pos f ps q p Hq Hin) as H. apply Nat.eqb_neq in H. done.
Qed.

Lemma buf_at_pop (bs : list (list Z)) k v buf j w :
  bs !! k = Some (v :: buf) → w ∈ buf_at (<[k := buf]> bs) j → w ∈ buf_at bs j.
Proof.
  intros Hk Hw. destruct (decide (j = k)) as [->|Hne].
  - rewrite (buf_at_insert_eq _ _ _ _ Hk) in Hw. rewrite (buf_at_lookup _ _ _ Hk).
    by right.
  - by rewrite buf_at_insert in Hw.
Qed.

Section FlowSteps.

Variable N : Z.

Hypothesis HN : 2 ≤ N < INT_MAX.

Local Opaque inh own_pipe.

Local Arguments resume : simpl never.

Local Arguments wake : simpl never.

Local Arguments with_pipes : simpl never.

(** Once nobody holds the write end of pipe [k], process [k] has nothing
    left to send. *)
Lemma no_writer_flow s k pk :
  Shape s → Flow N s → procs s !! k = Some pk →
  (S k < length (procs s))%nat →
  open_copies (pipe_write k) (procs s) = 0%nat →
  flow N (codes s) (pipes s) k = [].
Proof.
  intros HS HF Hk Hchild Hw.
  destruct (shape_procs _ HS _ _ Hk) as [Hcode _ Htab Hex _ _ Hch].
  assert (codes s !! k = Some (code pk)) as Hck by (apply codes_lookup; eauto).
  destruct (flow_sites _ _ HF _ _ Hck) as [Hne _].
  pose proof (open_copies_zero _ _ _ _ Hw Hk) as Hnin.
  rewrite bool_decide_eq_true_2 in Hch by done.
  rewrite flow_unfold, (code_at_lookup _ _ _ Hck).
  unfold forked in Hch. apply andb_true_iff in Hch as [Hinit Hsite].
  destruct (is_running pk) eqn:Hrun.
  - rewrite Htab in Hnin. destruct (code pk) as [m i cur | t n pl pr rn].
    + simpl in Hinit. unfold table, own_slots in Hnin. rewrite Hinit in Hnin.
      destruct Hcode as [-> _].
      destruct m as [| |[]| | | |]; simpl in *; try done;
        exfalso; apply Hnin; rewrite elem_of_app; right;
        rewrite !elem_of_cons; auto 8.
    + simpl in Hinit. unfold table, own_slots in Hnin. rewrite Hinit in Hnin.
      destruct t as [| | |[]| | | | |]; simpl in *; try done;
        exfalso; apply Hnin; rewrite elem_of_app; right;
        rewrite !elem_of_cons; auto 8.
  - specialize (Hex eq_refl). unfold exit_site in Hex.
    destruct (code pk) as [m i cur | t n pl pr rn].
    + destruct m as [| |[]| | | |]; simpl in *; try done.
    + destruct t as [| | |[]| | | | |]; simpl in *; try done;
        unfold close_pipe_if_valid in Hex;
        repeat match type of Hex with
               | context [if ?b then _ else _] => destruct b
               end; done.
Qed.

Ltac norm_in H :=
  simpl in H;
  rewrite ?own_fst, ?own_snd, ?initialized_own, ?enter_own, ?Nat.sub_0_r in H;
  rewrite ?close_valid in H by lia; simpl in H.

Ltac norm :=
  simpl; rewrite ?own_fst, ?own_snd, ?initialized_own, ?enter_own, ?Nat.sub_0_r;
  rewrite ?close_valid by lia; simpl.

Ltac stage_index Hcode q k Hcur :=
  destruct Hcode as (Hk & -> & Hcur); destruct q as [|k]; [lia|];
  replace (S k - 1)%nat with k in * by lia; clear Hk.

Ltac fd_in H :=
  rewrite ?fdget_invalid, ?fdget_minus_one in H;
  try first [ rewrite (fdget_inh 0) in H by lia
            | rewrite (fdget_inh 1) in H by lia
            | rewrite (fdget_inh 2) in H by lia ];
  try first [ rewrite (fdclose_inh 0) in H by lia
            | rewrite (fdclose_inh 1) in H by lia
            | rewrite (fdclose_inh 2) in H by lia ];
  simpl in H.

Ltac stage_sites t Hcall Hcur Hsite :=
  destruct t as [| | |[]| | | | |]; norm_in Hcall; try discriminate Hcall;
  try discriminate Hsite; simpl in Hcur;
  try match type of Hcur with ?x = _ => subst x end;
  try (destruct Hcur as [-> | ->]; norm_in Hcall; try discriminate Hcall).

Ltac main_sites m Hcall Hcur Hsite :=
  destruct m as [| |[]| | | |]; norm_in Hcall; try discriminate Hcall;
  try discriminate Hsite; simpl in Hcur;
  try match type of Hcur with ?x = _ => subst x end;
  try (destruct Hcur as [-> | ->]; norm_in Hcall; try discriminate Hcall).

Lemma child_cases s q p :
  Shape s → procs s !! q = Some p →
  if forked (code p) then (S q < length (procs s))%nat
  else S q = length (procs s).
Proof.
  intros HS Hq. destruct (shape_procs _ HS _ _ Hq) as [_ _ _ _ _ _ Hch].
  apply lookup_lt_Some in Hq. destruct (forked (code p)); symmetry in Hch.
  - by apply bool_decide_eq_true in Hch.
  - apply bool_decide_eq_false in Hch. lia.
Qed.

Ltac fin Hch :=
  rewrite ?app_nil_r; try done;
  try (unfold START_PRIME in *; lia);
  try (by left);
  try (right; unfold forked in Hch; norm_in Hch; done);
  try (intros ? ?; exfalso; by eapply elem_of_nil);
  try (intros; rewrite ?buf_at_snoc, ?buf_at_insert in * by lia; done).

Ltac local_step HF Hv Hc :=
  eapply (step_local N _ _ _ _ _ _ HF Hv);
  [ rewrite views_wake; reflexivity
  | rewrite ?Hc; unfold resume, wake, with_pipes, proc_weight; norm;
    rewrite ?buf_at_snoc .. ].

Lemma flow_wait s q p s' :
  Flow N s → views s !! q = Some (code p, true) →
  (∀ r, no_error_site (resume N (code p) r) = true ∧
        main_i_ok N (resume N (code p) r) ∧
        unprinted (resume N (code p) r) = unprinted (code p) ∧
        prime_of (resume N (code p) r) = prime_of (code p) ∧
        pend (resume N (code p) r) = [] ∧
        (weight N (resume N (code p) r) < weight N (code p))%nat ∧
        ∀ X Y, out N (resume N (code p) r) X = out N (code p) Y) →
  match list_find (λ c : proc, zombie_child q c) (procs s) with
  | Some (j, c) =>
      Some (wake N q p (returns (Z.of_nat j)) (ofile p)
              (Sys (<[j := Proc (code c) (ofile c) (parent c) UNUSED]> (procs s))
                   (pipes s) (console_out s)))
  | None =>
      if existsb (running_child q) (procs s) then None
      else Some (wake N q p (returns (-1)) (ofile p) s)
  end = Some s' →
  Flow N s' ∧ (mu N s' < mu N s)%nat.
Proof.
  intros HF Hv Hloc Hstep.
  destruct (list_find _ _) as [[j c]|] eqn:Hfind.
  - injection Hstep as <-. apply list_find_Some in Hfind as (Hj & Hz & _).
    destruct (Hloc (returns (Z.of_nat j))) as (H1 & H2 & H3 & H4 & H5 & H6 & H7).
    eapply (step_local N _ _ q (code p)
              (resume N (code p) (returns (Z.of_nat j))) true HF Hv); try done.
    + rewrite views_wake. f_equal. unfold views. simpl.
      rewrite list_fmap_insert. apply list_insert_id.
      rewrite list_lookup_fmap, Hj. simpl. unfold view. do 2 f_equal.
      unfold zombie_child in Hz. apply andb_prop_elim in Hz as [_ Hz].
      unfold is_zombie, is_running in *. by destruct (state c).
    + by rewrite H3.
    + by left.
    + intros v Hin. rewrite H5 in Hin. by apply elem_of_nil in Hin.
    + unfold proc_weight, input, wake. simpl. lia.
  - destruct (existsb _ _); [done|]. injection Hstep as <-.
    destruct (Hloc (returns (-1))) as (H1 & H2 & H3 & H4 & H5 & H6 & H7).
    eapply (step_local N _ _ q (code p)
              (resume N (code p) (returns (-1))) true HF Hv); try done.
    + by rewrite views_wake.
    + by rewrite H3.
    + by left.
    + intros v Hin. rewrite H5 in Hin. by apply elem_of_nil in Hin.
    + unfold proc_weight, input, wake. simpl. lia.
Qed.

Lemma flow_exit s q c status p :
  Flow N s → views s !! q = Some (c, true) → code p = c →
  pend c = [] → (0 < weight N c)%nat →
  Flow N (Sys (<[q := Proc c [] (parent p) (ZOMBIE status)]> (procs s))
              (pipes s) (console_out s)) ∧
  (mu N (Sys (<[q := Proc c [] (parent p) (ZOMBIE status)]> (procs s))
             (pipes s) (console_out s)) < mu N s)%nat.
Proof.
  intros HF Hv Hc Hp Hw.
  pose proof (views_codes_lookup _ _ _ _ Hv) as Hq.
  destruct (flow_sites _ _ HF _ _ Hq) as [Hne Hi].
  eapply (step_local N _ _ q c c false HF Hv); try done.
  - unfold views. simpl. by rewrite list_fmap_insert.
  - by left.
  - by left.
  - unfold proc_weight. simpl. lia.
Qed.

Lemma flow_step q s s' :
  Shape s → Flow N s → kstep N q false s = Some s' →
  Flow N s' ∧ (mu N s' < mu N s)%nat.
Proof.
  intros HS HF Hstep. unfold kstep in Hstep.
  destruct (procs s !! q) as [p|] eqn:Hq; [|done].
  destruct (is_running p) eqn:Hrun; [|done]. cbn [negb] in Hstep.
  pose proof (shape_procs _ HS _ _ Hq) as [Hcode Hpar Htab Hex _ Hpipe Hchild].
  rewrite Hrun in Htab. clear Hex.
  pose proof (lookup_lt_Some _ _ _ Hq) as Hlen.
  assert (views s !! q = Some (code p, true)) as Hv.
  { rewrite (views_lookup _ _ _ Hq). unfold view. by rewrite Hrun. }
  destruct (flow_sites _ _ HF q (code p)) as [Hsite Hi].
  { apply codes_lookup. eauto. }
  pose proof (child_cases _ _ _ HS Hq) as Hch.
  unfold INT_MAX in HN.
  destruct (next_call (code p)) eqn:Hcall;
  destruct (code p) as [m i cur | t n pl pr rn] eqn:Hc.
  - (* printf in main: line 136 *)
    destruct Hcode as [-> Hcur]. injection Hstep as <-.
    main_sites m Hcall Hcur Hsite. injection Hcall as <-.
    local_step HF Hv Hc; fin Hch.
  - (* printf in a stage: line 84 *)
    stage_index Hcode q k Hcur. injection Hstep as <-.
    stage_sites t Hcall Hcur Hsite. injection Hcall as <-.
    local_step HF Hv Hc; fin Hch.
  - (* pipe in main: line 72 *)
    destruct Hcode as [-> Hcur]. main_sites m Hcall Hcur Hsite.
    injection Hstep as <-. local_step HF Hv Hc; fin Hch.
  - (* pipe in a stage: line 72 *)
    stage_index Hcode q k Hcur. stage_sites t Hcall Hcur Hsite.
    injection Hstep as <-. local_step HF Hv Hc; fin Hch.
  - (* fork in main: line 78 *)
    destruct Hcode as [-> Hcur]. main_sites m Hcall Hcur Hsite.
    rewrite <- Hc in Hstep. injection Hstep as <-.
    assert (resume N (code p) (returns (Z.of_nat (length (procs s))))
            = in_main L139_for (to_int (i + 1)) (own_pipe 0)) as Hpar'.
    { rewrite Hc. unfold resume. simpl.
      destruct (Z.eqb_spec (Z.of_nat (length (procs s))) 0) as [|_]; [lia|].
      by destruct (Z.gtb_spec (Z.of_nat (length (procs s))) 0) as [_|]; [|lia]. }
    assert (resume N (code p) (returns 0) = child_branch i (own_pipe 0)) as Hch'.
    { rewrite Hc. done. }
    simpl in Hi. unfold forked in Hch. norm_in Hch.
    eapply (step_fork N _ _ _ _ _ _ i HF Hv).
    + unfold views. simpl. rewrite map_app, list_fmap_insert. simpl.
      unfold view at 1 3. simpl. rewrite Hpar', Hch'. reflexivity.
    + reflexivity.
    + reflexivity.
    + done.
    + done.
    + done.
    + done.
    + done.
    + done.
    + done.
    + simpl. rewrite to_int_id by lia. lia.
    + done.
    + done.
    + done.
    + done.
    + intros X. simpl. rewrite to_int_id by lia. done.
    + done.
    + simpl. rewrite to_int_id by lia. lia.
  - (* fork in a stage: line 78 *)
    stage_index Hcode q k Hcur. stage_sites t Hcall Hcur Hsite.
    rewrite <- Hc in Hstep. injection Hstep as <-.
    assert (resume N (code p) (returns (Z.of_nat (length (procs s))))
            = in_stage L91_read n (own_pipe k) (own_pipe (S k)) rn) as Hpar'.
    { rewrite Hc. unfold resume. simpl.
      destruct (Z.eqb_spec (Z.of_nat (length (procs s))) 0) as [|_]; [lia|].
      by destruct (Z.gtb_spec (Z.of_nat (length (procs s))) 0) as [_|]; [|lia]. }
    assert (resume N (code p) (returns 0) = child_branch rn (own_pipe (S k))) as Hch'.
    { rewrite Hc. done. }
    unfold forked in Hch. norm_in Hch.
    eapply (step_fork N _ _ _ _ _ _ rn HF Hv).
    + unfold views. simpl. rewrite map_app, list_fmap_insert. simpl.
      unfold view at 1 3. simpl. rewrite Hpar', Hch'. reflexivity.
    + reflexivity.
    + reflexivity.
    + done.
    + done.
    + done.
    + done.
    + done.
    + done.
    + done.
    + done.
    + done.
    + done.
    + done.
    + done.
    + done.
    + done.
    + simpl. lia.
  - (* close in main: lines 150, 151 *)
    destruct Hcode as [-> Hcur]. main_sites m Hcall Hcur Hsite.
    all: destruct (fdget _ _); injection Hstep as <-.
    all: local_step HF Hv Hc; fin Hch.
  - (* close in a stage: lines 81, 103, 104, 105 *)
    stage_index Hcode q k Hcur. stage_sites t Hcall Hcur Hsite.
    all: destruct (fdget _ _); injection Hstep as <-.
    all: local_step HF Hv Hc; fin Hch.
  - (* read in main: none *)
    destruct m as [| |[]| | | |]; norm_in Hcall; discriminate Hcall.
  - (* read in a stage: line 91 *)
    stage_index Hcode q k Hcur. stage_sites t Hcall Hcur Hsite.
    all: injection Hcall as <-.
    all: rewrite Htab in Hstep; unfold table, own_slots in Hstep;
      norm_in Hstep; fd_in Hstep.
    all: destruct (lookup_lt_is_Some_2 (procs s) k) as [pk Hpk]; [lia|].
    all: destruct (shape_upstream_init s (S k) p k pk) as [_ Hkp]; [done..|lia|done|].
    all: destruct (lookup_lt_is_Some_2 (pipes s) k) as [b Hb]; [done|].
    all: rewrite Hb in Hstep; destruct b as [|v buf].
    all: try (destruct (Nat.eqb_spec (open_copies (pipe_write k) (procs s)) 0)
                as [Hw|]; [|discriminate Hstep]).
    all: injection Hstep as <-.
    all: local_step HF Hv Hc; fin Hch.
    all: try (rewrite (buf_at_lookup _ _ _ Hb), (no_writer_flow s k pk) by done;
              done).
    all: try (intros j w Hw; by eapply buf_at_pop).
    all: try (destruct (Z.eqb_spec (Z.rem v n) 0) as [Hz|Hz]; norm; fin Hch).
    all: rewrite ?(buf_at_insert_eq _ _ _ _ Hb), ?(buf_at_lookup _ _ _ Hb); simpl.
    all: try (by rewrite filter_cons_False by (unfold survives; tauto)).
    all: try (by rewrite filter_cons_True by done).
    all: try (intros w Hw%list_elem_of_singleton; subst w; right;
              split; [done | by left]).
    all: rewrite ?length_app; simpl; lia.
  - (* write in main: line 119 *)
    destruct Hcode as [-> Hcur]. main_sites m Hcall Hcur Hsite.
    injection Hcall as <- <-.
    assert ((open_copies (pipe_read 0) (procs s) =? 0)%nat = false) as Hrd.
    { eapply open_copies_pos; [done|]. rewrite Htab. unfold table, own_slots.
      norm. apply elem_of_app. right. by left. }
    destruct (lookup_lt_is_Some_2 (pipes s) 0) as [buf Hbuf].
    { norm_in Hpipe. symmetry in Hpipe. by apply bool_decide_eq_true in Hpipe. }
    rewrite Htab in Hstep; unfold table, own_slots in Hstep;
      norm_in Hstep; fd_in Hstep. rewrite Hbuf, Hrd in Hstep.
    injection Hstep as <-. simpl in Hi. unfold forked in Hch. norm_in Hch.
    eapply (step_write N _ _ _ _ _ i buf HF Hv);
      [rewrite views_wake; reflexivity | reflexivity | done | reflexivity | ..];
      rewrite ?Hc; unfold resume; norm; rewrite ?to_int_id by lia; try done; try lia.
    by left.
  - (* write in a stage: line 119 *)
    stage_index Hcode q k Hcur. stage_sites t Hcall Hcur Hsite.
    injection Hcall as <- <-.
    assert ((open_copies (pipe_read (S k)) (procs s) =? 0)%nat = false) as Hrd.
    { eapply open_copies_pos; [done|]. rewrite Htab. unfold table, own_slots.
      norm. apply elem_of_app. right. right. by left. }
    destruct (lookup_lt_is_Some_2 (pipes s) (S k)) as [buf Hbuf].
    { norm_in Hpipe. symmetry in Hpipe. by apply bool_decide_eq_true in Hpipe. }
    rewrite Htab in Hstep; unfold table, own_slots in Hstep;
      norm_in Hstep; fd_in Hstep. rewrite Hbuf, Hrd in Hstep.
    injection Hstep as <-. unfold forked in Hch. norm_in Hch.
    eapply (step_write N _ _ _ _ _ rn buf HF Hv);
      [rewrite views_wake; reflexivity | reflexivity | done | reflexivity | ..];
      rewrite ?Hc; unfold resume; norm; try done; try lia.
    by left.
  - (* wait in main: line 154 *)
    destruct Hcode as [-> Hcur].
    destruct m as [| |[]| | | |]; norm_in Hcall; try discriminate Hcall.
    rewrite <- Hc in Hv. eapply flow_wait; [done..| |done].
    intros r. rewrite Hc. unfold resume. simpl. repeat split; try done; lia.
  - (* wait in a stage: line 108 *)
    destruct t as [| | |[]| | | | |]; simpl in Hcall;
      unfold close_pipe_if_valid in Hcall;
      repeat match type of Hcall with
             | context [if ?b then _ else _] => destruct b
             end; try discriminate Hcall.
    rewrite <- Hc in Hv. eapply flow_wait; [done..| |done].
    intros r. rewrite Hc. unfold resume. simpl. repeat split; try done; lia.
  - (* exit in main: line 156 *)
    injection Hstep as <-.
    destruct Hcode as [-> Hcur]. main_sites m Hcall Hcur Hsite.
    all: eapply flow_exit; try done; simpl; lia.
  - (* exit in a stage: line 109 *)
    injection Hstep as <-.
    stage_index Hcode q k Hcur. stage_sites t Hcall Hcur Hsite.
    all: eapply flow_exit; try done; simpl; lia.
  - (* no call in main: line 139 *)
    destruct Hcode as [-> Hcur]. injection Hstep as <-.
    destruct m as [| |[]| | | |]; norm_in Hcall; try discriminate Hcall.
    simpl in Hi.
    local_step HF Hv Hc; unfold main_for;
      destruct (Z.leb_spec i N);
      destruct (Z.eqb_spec (Z.rem i START_PRIME) 0);
      norm; rewrite ?to_int_id by lia; fin Hch.
    + by destruct Hcur as [-> | ->]; rewrite ?enter_own.
    + symmetry. by apply candidates_even.
    + symmetry. by apply candidates_odd.
    + symmetry. by apply candidates_done.
    + symmetry. by apply candidates_done.
    + intros w Hw%list_elem_of_singleton. subst w. by right.
    + destruct Hcur as [-> | ->]; rewrite ?enter_own; simpl; lia.
  - (* no call in a stage: a guarded close of an unset descriptor *)
    stage_index Hcode q k Hcur. injection Hstep as <-.
    stage_sites t Hcall Hcur Hsite.
    all: local_step HF Hv Hc; fin Hch.
Qed.

End FlowSteps.

(** ** Reachable states, progress and termination *)

Lemma inh_no_write n x : Some (pipe_write x) ∉ inh n.
Proof.
  unfold inh. rewrite elem_of_app, list_elem_of_fmap. intros [H|(j & H & _)].
  - simpl in H. rewrite !elem_of_cons in H.
    destruct H as [H|[H|[H|H]]]; try done. by apply elem_of_nil in H.
  - done.
Qed.

Lemma table_writer j c x :
  Some (pipe_write x) ∈ table j c → code_ok j c →
  (x = j ∧ wr_open (phase_of c) = true) ∨ (j = S x ∧ is_start (phase_of c) = true).
Proof.
  intros Hin Hok. unfold table in Hin. destruct c as [m i cur | t n pl pr rn].
  - destruct Hok as [-> _]. apply elem_of_app in Hin as [Hin|Hin].
    { by apply inh_no_write in Hin. }
    unfold own_slots in Hin. destruct (initialized cur); [|by apply elem_of_nil in Hin].
    left. simpl. destruct (wr_open (main_phase m)), (rd_open (main_phase m));
      simpl in Hin; rewrite !elem_of_cons in Hin;
      destruct Hin as [Hin|[Hin|Hin]]; try done; try (by apply elem_of_nil in Hin);
      by injection Hin as ->.
  - destruct Hok as (Hj & _ & _). apply elem_of_app in Hin as [Hin|Hin].
    { by apply inh_no_write in Hin. }
    apply elem_of_cons in Hin as [Hin|Hin].
    { by destruct (up_open (stage_phase t)). }
    unfold own_slots in Hin. simpl. destruct (initialized pr).
    + left. destruct (wr_open (stage_phase t)), (rd_open (stage_phase t));
        simpl in Hin; rewrite !elem_of_cons in Hin;
        destruct Hin as [Hin|[Hin|Hin]]; try done; try (by apply elem_of_nil in Hin);
        by injection Hin as ->.
    + right. destruct (is_start (stage_phase t)); simpl in Hin;
        apply list_elem_of_singleton in Hin; [|done].
      injection Hin as ->. split; [lia|done].
Qed.

Lemma open_copies_none f ps :
  (∀ j p, ps !! j = Some p → Some f ∉ ofile p) → open_copies f ps = 0%nat.
Proof.
  intros H. unfold open_copies. induction ps as [|p ps IH]; [done|]. simpl.
  rewrite IH by (intros j p' Hj; apply (H (S j) p' Hj)).
  assert (copies f (ofile p) = 0%nat) as ->; [|done].
  specialize (H 0%nat p eq_refl). unfold copies.
  destruct (filter _ (ofile p)) as [|y l] eqn:E; [done|]. exfalso. apply H.
  assert (y ∈ filter (λ x, x = Some f) (ofile p)) as Hy by (rewrite E; by left).
  apply list_elem_of_filter in Hy as [-> Hy]. done.
Qed.

Section Reach.

Variable N : Z.

Local Opaque inh own_pipe.

Local Arguments resume : simpl never.

Local Arguments wake : simpl never.

Local Arguments with_pipes : simpl never.

Lemma shape_boot : Shape boot.
Proof.
  split; simpl; [| |lia].
  - intros [|k] p Hk; [|done]. injection Hk as <-.
    split; simpl; done.
  - intros [|k] p [|j] p' Hk _ Hlt Hj; try done; lia.
Qed.

Lemma shape_sched_step s x : Shape s → Shape (sched_step N s x).
Proof.
  intros HS. unfold sched_step.
  destruct (kstep N x.1 x.2 s) eqn:Hstep; simpl; [|done].
  by eapply shape_step.
Qed.

Lemma shape_run sched s : Shape s → Shape (run N sched s).
Proof.
  revert s. induction sched as [|x sched IH]; intros s HS; simpl; [done|].
  apply IH, shape_sched_step, HS.
Qed.

(** Every call but [read] and [wait] returns at once. *)
Lemma kstep_nonblocking q s p :
  procs s !! q = Some p → is_running p = true →
  (∀ fd, next_call (code p) ≠ sys_read fd) →
  next_call (code p) ≠ sys_wait →
  is_Some (kstep N q false s).
Proof.
  intros Hq Hrun Hrd Hwt. unfold kstep. rewrite Hq, Hrun. simpl.
  destruct (next_call (code p)) as [l| | |fd|fd|fd v| |st|]; try done.
  - destruct (fdget fd (ofile p)); done.
  - by destruct (Hrd fd).
  - destruct (fdget fd (ofile p)) as [[]|]; try done.
    destruct (pipes s !! id); [|done].
    destruct (open_copies (pipe_read id) (procs s) =? 0)%nat; done.
Qed.

Lemma next_call_wait c : next_call c = sys_wait → at_wait c = true.
Proof.
  destruct c as [[| |[]| | | |] ? ? | [| | |[]| | | | |] ? ? ? ?]; simpl;
    unfold close_pipe_if_valid;
    repeat match goal with
           | |- context [if ?b then _ else _] => destruct b
           end; done.
Qed.

Lemma next_call_read c fd :
  next_call c = sys_read fd →
  ∃ n pl pr rn, c = in_stage L91_read n pl pr rn ∧ fd = fst pl.
Proof.
  destruct c as [[| |[]| | | |] ? ? | [| | |[]| | | | |] n pl pr rn]; simpl;
    unfold close_pipe_if_valid;
    repeat match goal with
           | |- context [if ?b then _ else _] => destruct b
           end; try done.
  intros [= <-]. eauto 6.
Qed.

Hypothesis HN : 2 ≤ N < INT_MAX.

Lemma flow_boot : Flow N boot.
Proof.
  split; simpl; try done.
  - intros [|k] c Hk; [|done]. by injection Hk as <-.
  - intros [|k] v j Hin Hj; simpl in Hin; by apply elem_of_nil in Hin.
Qed.

Lemma flow_run sched s :
  fault_free sched = true → Shape s → Flow N s →
  Flow N (run N sched s).
Proof.
  revert s. induction sched as [|[q f] sched IH]; intros s Hff HS HF; simpl; [done|].
  simpl in Hff. apply andb_true_iff in Hff as [Hf Hff].
  apply negb_true_iff in Hf. simpl in Hf. subst f.
  apply IH; [done|by apply shape_sched_step|].
  unfold sched_step. simpl.
  destruct (kstep N q false s) eqn:Hstep; simpl; [|done].
  by eapply flow_step.
Qed.

(** Some process can always take a step: the first one, from the top of
    the chain, that is not waiting for its child, or the last one. *)
Lemma progress_from s d k p :
  Shape s → Flow N s → (length (procs s) ≤ k + d)%nat →
  procs s !! k = Some p → is_running p = true →
  (∀ j pj, (j < k)%nat → procs s !! j = Some pj →
     is_running pj = true ∧ at_wait (code pj) = true) →
  ∃ q, is_Some (kstep N q false s).
Proof.
  intros HS HF. revert k p. induction d as [|d IH]; intros k p Hd Hk Hrun Hup.
  { apply lookup_lt_Some in Hk. lia. }
  destruct (next_call (code p)) eqn:Hcall.
  1-4,6,8-9: exists k; eapply kstep_nonblocking; [done..| |]; congruence.
  - (* read *)
    apply next_call_read in Hcall as (n & pl & pr & rn & Hc & ->).
    destruct (shape_procs _ HS _ _ Hk) as [Hcode _ Htab _ _ _ _].
    rewrite Hrun, Hc in Htab. rewrite Hc in Hcode.
    destruct Hcode as (Hk0 & -> & Hcur). destruct k as [|k']; [lia|].
    replace (S k' - 1)%nat with k' in * by lia.
    destruct (lookup_lt_is_Some_2 (procs s) k') as [pk Hpk].
    { apply lookup_lt_Some in Hk. lia. }
    destruct (shape_upstream_init s (S k') p k' pk) as [_ Hkp]; [done..|lia|done|].
    destruct (lookup_lt_is_Some_2 (pipes s) k') as [b Hb]; [done|].
    exists (S k'). unfold kstep. rewrite Hk, Hrun, Hc. simpl.
    rewrite own_fst, Htab. unfold table.
    rewrite (fdget_inh 0) by lia. simpl. rewrite Nat.sub_0_r, Hb.
    destruct b as [|v buf]; [|done].
    rewrite (open_copies_none (pipe_write k')); [done|].
    intros j pj Hj Hin.
    destruct (shape_procs _ HS _ _ Hj) as [Hcj _ Htj _ _ _ _].
    destruct (is_running pj) eqn:Hrj; [|rewrite Htj in Hin; by apply elem_of_nil in Hin].
    rewrite Htj in Hin.
    destruct (table_writer _ _ _ Hin Hcj) as [[Heq Hw]|[Heq Hs]]; subst j.
    + destruct (Hup k' pj) as [_ Haw]; [lia|done|].
      destruct (code pj) as [[| |[]| | | |] ? ? | [| | |[]| | | | |] ? ? ? ?];
        simpl in *; done.
    + rewrite Hk in Hj. injection Hj as <-. by rewrite Hc in Hs.
  - (* wait *)
    unfold kstep. 
    destruct (list_find (λ c, zombie_child k c) (procs s)) as [[j c]|] eqn:Hfind.
    { exists k. unfold kstep. rewrite Hk, Hrun, Hcall. simpl. by rewrite Hfind. }
    destruct (existsb (running_child k) (procs s)) eqn:Hex.
    2:{ exists k. unfold kstep. rewrite Hk, Hrun, Hcall. simpl.
        by rewrite Hfind, Hex. }
    apply existsb_exists in Hex as (c & Hc & Hrc).
    apply list_elem_of_In, list_elem_of_lookup in Hc as [j Hj].
    unfold running_child in Hrc. apply andb_true_iff in Hrc as [Hpar Hrc].
    apply bool_decide_eq_true in Hpar.
    assert (j = S k) as ->.
    { destruct (shape_procs _ HS _ _ Hj) as [_ Hp _ _ _ _ _].
      rewrite Hpar in Hp. destruct j; congruence. }
    apply (IH (S k) c); [lia|done..|].
    intros i pi Hi Hpi. destruct (decide (i = k)) as [->|Hne].
    + rewrite Hk in Hpi. injection Hpi as <-. split; [done|].
      by apply next_call_wait.
    + apply (Hup i pi); [lia|done].
Qed.

Lemma progress s :
  Shape s → Flow N s → main_returned s = false →
  ∃ q, is_Some (kstep N q false s).
Proof.
  intros HS HF Hret.
  destruct (procs s !! 0%nat) as [p0|] eqn:H0;
    [|unfold main_returned in Hret].
  2:{ pose proof (flow_chain _ _ HF) as Hc. unfold codes, code_at in Hc.
      destruct (procs s); [|done]. simpl in Hc.
      by destruct (console_out s). }
  destruct (is_running p0) eqn:Hrun.
  { apply (progress_from s (length (procs s)) 0 p0); try done; lia. }
  exfalso. unfold main_returned in Hret. rewrite H0 in Hret.
  destruct (shape_procs _ HS _ _ H0) as [Hcode _ _ Hex Hst _ _].
  specialize (Hex Hrun).
  assert (codes s !! 0%nat = Some (code p0)) as Hc0 by (apply codes_lookup; eauto).
  destruct (flow_sites _ _ HF _ _ Hc0) as [Hne _].
  unfold exited_with, is_running, exit_site in *.
  destruct (state p0) as [|x|]; try done.
  destruct (code p0) as [[| |[]| | | |] ? ? | ? ? ? ? ?]; simpl in *; try done.
  - injection Hst as <-. done.
  - destruct Hcode; lia.
Qed.

(** Every schedule without failures that keeps picking processes which
    can run reaches the end: the steps left are bounded by [mu]. *)
Lemma terminates n s :
  (mu N s ≤ n)%nat → Shape s → Flow N s →
  ∃ sched, fault_free sched = true ∧ main_returned (run N sched s) = true.
Proof.
  revert s. induction n as [|n IH]; intros s Hmu HS HF;
    destruct (main_returned s) eqn:Hret;
    try (by exists []).
  - destruct (progress s HS HF Hret) as [q [s' Hstep]].
    destruct (flow_step N HN q s s' HS HF Hstep). lia.
  - destruct (progress s HS HF Hret) as [q [s' Hstep]].
    destruct (flow_step N HN q s s' HS HF Hstep) as [HF' Hlt].
    destruct (IH s') as (sched & Hff & Hfin); [lia|by eapply shape_step|done|].
    exists ((q, false) :: sched). split; [done|].
    simpl. unfold sched_step. simpl. by rewrite Hstep.
Qed.

(** When [main] has returned nothing is left to print. *)
Lemma flow_finished s :
  Shape s → Flow N s → main_returned s = true →
  console_out s = map prime_line (primes_upto N).
Proof.
  intros HS HF Hret. unfold main_returned in Hret.
  destruct (procs s !! 0%nat) as [p0|] eqn:H0; [|done].
  assert (is_running p0 = false) as Hr0.
  { unfold exited_with, is_running in *. by destruct (state p0). }
  set (K := (length (procs s) - 1)%nat).
  pose proof (lookup_lt_Some _ _ _ H0) as Hlen.
  destruct (lookup_lt_is_Some_2 (procs s) K) as [pK HK]; [lia|].
  assert (is_running pK = false) as HrK.
  { destruct (decide (K = 0%nat)) as [HK0|HK0].
    - rewrite HK0, H0 in HK. by injection HK as <-.
    - unfold is_running.
      rewrite (shape_quiet _ HS 0%nat p0 K pK); [done..| |lia|done].
      unfold quiet. by rewrite Hr0. }
  destruct (shape_procs _ HS _ _ HK) as [_ _ _ Hex _ _ _].
  assert (codes s !! K = Some (code pK)) as HcK by (apply codes_lookup; eauto).
  destruct (flow_sites _ _ HF _ _ HcK) as [Hne _].
  specialize (Hex HrK).
  assert (unprinted (code pK) = [] ∧ ∀ X, out N (code pK) X = []) as [Hu Ho].
  { unfold exit_site in Hex. destruct (code pK) as [m i cur | t n pl pr rn].
    - destruct m as [| |[]| | | |]; simpl in *; try done.
    - destruct t as [| | |[]| | | | |]; simpl in *; try done;
        unfold close_pipe_if_valid in Hex;
        repeat match type of Hex with
               | context [if ?b then _ else _] => destruct b
               end; done. }
  pose proof (flow_console _ _ HF) as Hc. unfold future in Hc.
  rewrite codes_length in Hc. fold K in Hc.
  rewrite flow_unfold, (code_at_lookup _ _ _ HcK), Hu, Ho in Hc.
  simpl in Hc. rewrite app_nil_r in Hc.
  rewrite Hc, <- sieve_upto, sieve_upto_candidates by lia. done.
Qed.

End Reach.

(** ** One stage on its own *)

Section Alone.

Variable N : Z.

Variable p : Z.

Local Arguments run : simpl never.

Local Arguments alone : simpl never.

Lemma run_alone_S m s :
  run N (alone (S m)) s = run N (alone m) (default s (kstep N 0 false s)).
Proof. done. Qed.

Lemma filter_survives_cons x xs :
  filter (survives p) (x :: xs)
  = if Z.rem x p =? 0 then filter (survives p) xs
    else x :: filter (survives p) xs.
Proof.
  rewrite filter_cons. unfold survives at 1.
  destruct (Z.eqb_spec (Z.rem x p) 0); destruct (decide _); done.
Qed.

Ltac alone_step :=
  rewrite run_alone_S; simpl; unfold wake, with_pipes; simpl;
  unfold resume; simpl.

(** With a child: the values that pass are written to the second pipe. *)
Lemma alone_writing xs : ∀ rn x buf con,
  ∃ m, alone_done N
    (run N (alone m)
       (Sys [reading p (4, 5) rn [Some (pipe_read 1); Some (pipe_write 1)]; spawned x]
            [xs; buf] con))
    con (x :: buf ++ filter (survives p) xs).
Proof.
  induction xs as [|y xs IH]; intros rn x buf con.
  - exists 4%nat. rewrite app_nil_r. by vm_compute.
  - rewrite filter_survives_cons.
    destruct (Z.rem y p =? 0) eqn:Hy.
    + destruct (IH y x buf con) as [m Hm]. exists (S m).
      alone_step. rewrite Hy. exact Hm.
    + destruct (IH y x (buf ++ [y]) con) as [m Hm]. exists (S (S m)).
      alone_step. rewrite Hy. alone_step.
      rewrite <- app_assoc in Hm. exact Hm.
Qed.

(** Without a child: the first value that passes is handed to a new one. *)
Lemma alone_reading xs : ∀ rn con,
  ∃ m, alone_done N
    (run N (alone m) (Sys [reading p no_pipe rn [None]] [xs] con))
    con (filter (survives p) xs).
Proof.
  induction xs as [|y xs IH]; intros rn con.
  - exists 6%nat. by vm_compute.
  - rewrite filter_survives_cons.
    destruct (Z.rem y p =? 0) eqn:Hy.
    + destruct (IH y con) as [m Hm]. exists (S m).
      alone_step. rewrite Hy. exact Hm.
    + destruct (alone_writing xs y y [] con) as [m Hm]. exists (S (S (S m))).
      alone_step. rewrite Hy. do 2 alone_step. exact Hm.
Qed.

Lemma stage_alone_run xs :
  ∃ m, alone_done N (run N (alone m) (stage_alone p xs))
         [prime_line p] (filter (survives p) xs).
Proof.
  destruct (alone_reading xs 0 [prime_line p]) as [m Hm].
  exists (S (S m)). rewrite !run_alone_S. exact Hm.
Qed.

End Alone.

(** ** Consequences of the invariants *)

Lemma map_prime_line_inj l1 l2 :
  map prime_line l1 = map prime_line l2 → l1 = l2.
Proof.
  revert l2. induction l1 as [|x l1 IH]; intros [|y l2] H; try done.
  injection H as -> H. f_equal. by apply IH.
Qed.

Lemma primes_upto_elem N x : x ∈ primes_upto N ↔ 2 ≤ x ≤ N ∧ Z.prime x.
Proof.
  unfold primes_upto. rewrite list_elem_of_filter, upto_elem, is_prime_spec. tauto.
Qed.

Lemma range_sorted a len : StronglySorted Z.lt (range a len).
Proof.
  revert a. induction len as [|len IH]; intros a; simpl; constructor; [done|].
  apply Forall_forall. intros x Hx. apply range_elem in Hx. lia.
Qed.

Lemma sorted_filter (P : Z → Prop) `{∀ x, Decision (P x)} l :
  StronglySorted Z.lt l → StronglySorted Z.lt (filter P l).
Proof.
  induction 1 as [|a l Hl IH Ha]; [constructor|].
  rewrite filter_cons. destruct (decide (P a)); [|done].
  constructor; [done|]. rewrite Forall_forall in *.
  intros x Hx. apply list_elem_of_filter in Hx as [_ Hx]. by apply Ha.
Qed.

Lemma primes_upto_sorted N : StronglySorted Z.lt (primes_upto N).
Proof. apply sorted_filter, range_sorted. Qed.

Section Consequences.

Variable N : Z.

Hypothesis HN : 2 ≤ N < INT_MAX.

Lemma reach_shape sched : Shape (run N sched boot).
Proof. apply shape_run, shape_boot. Qed.

Lemma reach_flow sched : fault_free sched = true → Flow N (run N sched boot).
Proof. intros Hff. apply flow_run; [done..|apply shape_boot|by apply flow_boot]. Qed.

(** The primes of the chain, followed by what the rest of the run will
    find, are the primes of the range. *)
Lemma chain_prefix s :
  Flow N s →
  map prime_of (codes s)
    ++ sieve (flow N (codes s) (pipes s) (length (procs s) - 1))
  = primes_upto N.
Proof.
  intros HF. pose proof (flow_console _ _ HF) as Hc.
  pose proof (flow_chain _ _ HF) as Hch.
  unfold future in Hc. rewrite codes_length, map_app, app_assoc, Hch in Hc.
  rewrite <- !map_app in Hc. apply map_prime_line_inj in Hc.
  rewrite Hc, <- sieve_upto, sieve_upto_candidates by lia. done.
Qed.

Lemma chain_prime s k c :
  Flow N s → codes s !! k = Some c → Z.prime (prime_of c) ∧ prime_of c ≤ N.
Proof.
  intros HF Hk.
  assert (prime_of c ∈ primes_upto N) as Hin.
  { rewrite <- (chain_prefix s HF). apply elem_of_app. left.
    apply list_elem_of_fmap. exists c. split; [done|].
    by eapply list_elem_of_lookup_2. }
  apply primes_upto_elem in Hin. split; [tauto|lia].
Qed.

(** The console never shows anything but a prefix of the primes. *)
Lemma console_prefix s :
  Flow N s → ∃ rest, console_out s ++ map prime_line rest = map prime_line (primes_upto N).
Proof.
  intros HF. pose proof (flow_console _ _ HF) as Hc.
  eexists. rewrite Hc, <- sieve_upto, sieve_upto_candidates by lia. done.
Qed.

End Consequences.

(** ** Descriptor tables of the reachable states *)

Lemma proc_at_running s k :
  is_running (proc_at s k) = true → procs s !! k = Some (proc_at s k).
Proof. unfold proc_at. by destruct (procs s !! k). Qed.

Lemma proc_at_lookup s k p : procs s !! k = Some p → proc_at s k = p.
Proof. unfold proc_at. by intros ->. Qed.

Lemma running_table s k :
  Shape s → is_running (proc_at s k) = true →
  code_ok k (code (proc_at s k)) ∧
  ofile (proc_at s k) = table k (code (proc_at s k)).
Proof.
  intros HS Hrun. pose proof (proc_at_running _ _ Hrun) as Hk.
  destruct (shape_procs _ HS _ _ Hk) as [Hcode _ Htab _ _ _ _].
  by rewrite Hrun in Htab.
Qed.

Lemma cur_ok_initialized k cur :
  cur_ok k cur → initialized cur = true → cur = own_pipe k.
Proof. by intros [->| ->]. Qed.

Lemma code_ok_cursor k c :
  code_ok k c → initialized (cursor_of c) = true → cursor_of c = own_pipe k.
Proof.
  destruct c as [m i cur | t n pl pr rn]; simpl.
  - intros [-> H] Hi.
    destruct m as [| |[]| | | |]; simpl in H; try (by apply cur_ok_initialized);
      subst; done.
  - intros (_ & _ & H) Hi.
    destruct t as [| | |[]| | | | |]; simpl in H; try (by apply cur_ok_initialized);
      subst; done.
Qed.

Lemma fdget_inh_read n x r :
  (x < n)%nat → fdget (Z.of_nat x + 3) (inh n ++ r) = Some (pipe_read x).
Proof.
  intros Hx. unfold inh, fdget.
  destruct (Z.ltb_spec (Z.of_nat x + 3) 0); [lia|].
  replace (Z.to_nat (Z.of_nat x + 3)) with (3 + x)%nat by lia.
  rewrite <- app_assoc. simpl.
  rewrite lookup_app_l by (rewrite length_map, length_seq; lia).
  rewrite list_lookup_fmap, lookup_seq_lt by lia. done.
Qed.

Section Tables.

Local Opaque inh.

(** While a running process has not reached the close of an end of its
    own pipe, that end is open in its table. *)
Lemma endpoints_open s k :
  Shape s → is_running (proc_at s k) = true →
  initialized (cursor_of (code (proc_at s k))) = true →
  (rd_open (phase_of (code (proc_at s k))) = true →
   fdget (fst (cursor_of (code (proc_at s k)))) (ofile (proc_at s k))
   = Some (pipe_read k)) ∧
  (wr_open (phase_of (code (proc_at s k))) = true →
   fdget (snd (cursor_of (code (proc_at s k)))) (ofile (proc_at s k))
   = Some (pipe_write k)).
Proof.
  intros HS Hrun Hinit. destruct (running_table s k HS Hrun) as [Hok ->].
  pose proof (code_ok_cursor _ _ Hok Hinit) as Hcur.
  destruct (code (proc_at s k)) as [m i cur | t n pl pr rn]; simpl in *.
  - destruct Hok as [-> _]. subst cur. unfold own_slots. rewrite Hinit.
    split; intros ->; simpl.
    + by rewrite (fdget_inh 0 0).
    + by rewrite (fdget_inh 1 0).
  - destruct Hok as (Hk & _ & _). subst pr. unfold own_slots. rewrite Hinit.
    split; intros ->; simpl.
    + rewrite (fdget_inh 1 (k - 1)); [done|]. unfold own_pipe. simpl. lia.
    + rewrite (fdget_inh 2 (k - 1)); [done|]. unfold own_pipe. simpl. lia.
Qed.

(** A running stage holds the read end of its upstream pipe until line 103,
    and the read ends its ancestors read from for as long as it runs. *)
Lemma upstream_open s k t n pl pr rn :
  Shape s → is_running (proc_at s k) = true →
  code (proc_at s k) = in_stage t n pl pr rn →
  up_open (stage_phase t) = true →
  fdget (fst pl) (ofile (proc_at s k)) = Some (pipe_read (k - 1)).
Proof.
  intros HS Hrun Hc Hup. destruct (running_table s k HS Hrun) as [Hok ->].
  rewrite Hc in *. destruct Hok as (Hk & -> & _). simpl. rewrite Hup.
  rewrite (fdget_inh 0 (k - 1)); [done|]. unfold own_pipe. simpl. lia.
Qed.

Lemma inherited_open s k x :
  Shape s → is_running (proc_at s k) = true → (S x < k)%nat →
  fdget (Z.of_nat x + 3) (ofile (proc_at s k)) = Some (pipe_read x).
Proof.
  intros HS Hrun Hx. destruct (running_table s k HS Hrun) as [Hok ->].
  destruct (code (proc_at s k)) as [m i cur | t n pl pr rn]; simpl in *.
  { destruct Hok as [-> _]. lia. }
  apply fdget_inh_read. lia.
Qed.

(** Every [close] a running process is about to make names an open
    descriptor, except the two of [main] when no pipe was ever created. *)
Lemma close_open s k fd :
  Shape s → is_running (proc_at s k) = true →
  next_call (code (proc_at s k)) = sys_close fd →
  is_Some (fdget fd (ofile (proc_at s k))) ∨
  (fd = PIPE_INVALID ∧ k = 0%nat ∧ cursor_of (code (proc_at s k)) = no_pipe).
Proof.
  intros HS Hrun Hcall. destruct (running_table s k HS Hrun) as [Hok ->].
  destruct (code (proc_at s k)) as [m i cur | t n pl pr rn]; simpl in *.
  - destruct Hok as [-> Hok].
    destruct m as [| |[]| | | |]; simpl in *; try done;
      injection Hcall as <-; destruct Hok as [->| ->]; auto.
  - destruct Hok as (Hk & -> & Hok). left.
    destruct t as [| | |[]| | | | |]; simpl in *; try done;
      try (destruct Hok as [->| ->]; [done|]); simpl in Hcall;
      rewrite close_valid in Hcall by lia; injection Hcall as <-;
      unfold own_slots; rewrite ?initialized_own; simpl.
    + subst pr. simpl. rewrite (fdget_inh 1 (k - 1)); [done|]. lia.
    + rewrite (fdget_inh 0 (k - 1)); [done|]. lia.
    + rewrite (fdget_inh 1 (k - 1)); [done|]. lia.
    + rewrite (fdget_inh 2 (k - 1)); [done|]. lia.
Qed.

End Tables.

Lemma copies_app f l r : copies f (l ++ r) = (copies f l + copies f r)%nat.
Proof. unfold copies. by rewrite filter_app, length_app. Qed.

Lemma copies_none f o : Some f ∉ o → copies f o = 0%nat.
Proof.
  intros H. unfold copies. induction o as [|y o IH]; [done|].
  rewrite filter_cons. rewrite not_elem_of_cons in H. destruct H as [Hy Ho].
  destruct (decide (y = Some f)); [congruence|]. by apply IH.
Qed.

Lemma copies_cons f y o :
  copies f (y :: o) = ((if decide (y = Some f) then 1 else 0) + copies f o)%nat.
Proof. unfold copies. rewrite filter_cons. by destruct (decide _). Qed.

Lemma sum_list_two (f : proc → nat) ps a :
  (∀ j p, ps !! j = Some p → j ≠ a → j ≠ S a → f p = 0%nat) →
  sum_list (map f ps)
  = (from_option f 0%nat (ps !! a) + from_option f 0%nat (ps !! S a))%nat.
Proof.
  revert a. induction ps as [|p ps IH]; intros a H; [done|]. simpl.
  destruct a as [|a]; simpl.
  - f_equal. destruct ps as [|p' ps]; [done|]. simpl.
    assert (sum_list (map f ps) = 0%nat) as ->; [|lia].
    clear IH. assert (∀ j q, ps !! j = Some q → f q = 0%nat) as H0.
    { intros j q Hj. by apply (H (S (S j)) q). }
    clear H. induction ps as [|q ps IH]; [done|]. simpl.
    rewrite (H0 0%nat q eq_refl), IH; [done|].
    intros j q' Hj. by apply (H0 (S j)).
  - rewrite (H 0%nat p eq_refl) by done. simpl. apply IH.
    intros j q Hj ? ?. apply (H (S j) q Hj); lia.
Qed.

Lemma table_copies j c x :
  code_ok j c →
  copies (pipe_write x) (table j c)
  = (Nat.b2n (bool_decide (j = x) && initialized (cursor_of c) && wr_open (phase_of c))
     + Nat.b2n (bool_decide (j = S x) && is_start (phase_of c)))%nat.
Proof.
  intros Hok. unfold table. destruct c as [m i cur | t n pl pr rn];
    unfold cursor_of, phase_of.
  - destruct Hok as [-> _]. rewrite copies_app, (copies_none _ (inh 0)) by apply inh_no_write.
    unfold own_slots. destruct (initialized cur); simpl.
    + rewrite andb_true_r.
      destruct (rd_open (main_phase m)), (wr_open (main_phase m)); simpl;
        rewrite !copies_cons; simpl; repeat case_decide; repeat case_bool_decide;
        simplify_eq; done.
    + by rewrite andb_false_r.
  - destruct Hok as (Hj & _ & Hpr).
    rewrite copies_app, (copies_none _ (inh _)) by apply inh_no_write.
    rewrite copies_cons. unfold own_slots.
    destruct (up_open (stage_phase t)), (initialized pr) eqn:Hi; simpl;
      rewrite ?andb_true_r, ?andb_false_r; simpl;
      destruct (rd_open (stage_phase t)) eqn:Hr, (wr_open (stage_phase t)) eqn:Hw,
        (is_start (stage_phase t)) eqn:Hs; simpl;
      rewrite ?copies_cons; simpl; repeat case_decide; repeat case_bool_decide;
      simplify_eq; try done; try lia;
      try (destruct t as [| | |[]| | | | |]; simpl in *; subst; done);
      match goal with
      | H : Some (pipe_write _) ≠ _ |- _ => destruct H; do 2 f_equal; lia
      end.
Qed.

Lemma writers_count s x :
  Shape s → open_copies (pipe_write x) (procs s) = writers s x.
Proof.
  intros HS. unfold open_copies.
  rewrite (sum_list_two _ _ x).
  - unfold writers, owner_writes, child_starting, proc_at. f_equal.
    + destruct (procs s !! x) as [p|] eqn:Hp; simpl; [|done].
      destruct (shape_procs _ HS _ _ Hp) as [Hok _ Htab _ _ _ _].
      rewrite Htab. destruct (is_running p); [|done].
      rewrite (table_copies _ _ _ Hok). simpl.
      rewrite bool_decide_eq_true_2 by done.
      rewrite (bool_decide_eq_false_2 (x = S x)) by lia. simpl. lia.
    + destruct (procs s !! S x) as [p|] eqn:Hp; simpl; [|done].
      destruct (shape_procs _ HS _ _ Hp) as [Hok _ Htab _ _ _ _].
      rewrite Htab. destruct (is_running p); [|done].
      rewrite (table_copies _ _ _ Hok). simpl.
      rewrite (bool_decide_eq_false_2 (S x = x)) by lia.
      rewrite bool_decide_eq_true_2 by done. done.
  - intros j p Hp Hj Hj'.
    destruct (shape_procs _ HS _ _ Hp) as [Hok _ Htab _ _ _ _].
    rewrite Htab. destruct (is_running p); [|done].
    rewrite (table_copies _ _ _ Hok).
    by rewrite !bool_decide_eq_false_2.
Qed.

(** ** What one step does to the code of a process *)

Section Codes.

Variable N : Z.

Local Arguments resume : simpl never.

Lemma wake_code q p r o s0 k pk :
  procs s0 !! k = Some pk →
  ∃ p', procs (wake N q p r o s0) !! k = Some p' ∧
        (code p' = code pk ∨ (k = q ∧ code p' = resume N (code p) r)).
Proof.
  intros Hk. unfold wake. simpl. destruct (decide (k = q)) as [->|Hne].
  - rewrite list_lookup_insert_eq by (by eapply lookup_lt_Some). eauto.
  - rewrite list_lookup_insert_ne by done. eauto.
Qed.

(** A process keeps its code unless it is the one that steps; then it
    resumes from its call, and never as the child of its own fork. *)
Lemma kstep_code q f s s' k pk :
  kstep N q f s = Some s' → procs s !! k = Some pk →
  ∃ p', procs s' !! k = Some p' ∧
    (code p' = code pk ∨
     (k = q ∧ is_running pk = true ∧
      ∃ r, code p' = resume N (code pk) r ∧
           (next_call (code pk) = sys_fork → rv r ≠ 0))).
Proof.
  intros Hstep Hk. unfold kstep in Hstep.
  destruct (procs s !! q) as [p|] eqn:Hq; [|done].
  destruct (is_running p) eqn:Hrun; [|done]. simpl in Hstep.
  assert (∀ r o s0 p0, procs s0 !! k = Some p0 → code p0 = code pk →
    (next_call (code p) = sys_fork → rv r ≠ 0) →
    ∃ p', procs (wake N q p r o s0) !! k = Some p' ∧
      (code p' = code pk ∨
       (k = q ∧ is_running pk = true ∧
        ∃ r, code p' = resume N (code pk) r ∧
             (next_call (code pk) = sys_fork → rv r ≠ 0)))) as Hwake.
  { intros r o s0 p0 H0 Hc Hr.
    destruct (wake_code q p r o s0 k p0 H0) as (p' & Hp' & [Hcode|[-> Hcode]]).
    - exists p'. split; [done|]. left. congruence.
    - exists p'. split; [done|]. right. rewrite Hq in Hk. injection Hk as <-.
      eauto 6. }
  destruct (next_call (code p)) eqn:Hcall.
  - injection Hstep as <-. by apply (Hwake _ _ _ pk).
  - destruct f; injection Hstep as <-; by apply (Hwake _ _ _ pk).
  - destruct f; injection Hstep as <-; [by apply (Hwake _ _ _ pk)|].
    simpl. destruct (Hwake (returns (Z.of_nat (length (procs s)))) (ofile p) s pk)
      as (p' & Hp' & H); [done..| |].
    { simpl. apply lookup_lt_Some in Hq. lia. }
    exists p'. split; [|done]. by apply lookup_app_l_Some.
  - destruct (fdget fd (ofile p)); injection Hstep as <-; by apply (Hwake _ _ _ pk).
  - destruct (fdget fd (ofile p)) as [[]|]; try done;
      try (injection Hstep as <-; by apply (Hwake _ _ _ pk)).
    destruct (pipes s !! id) as [[|v buf]|];
      try (injection Hstep as <-; by apply (Hwake _ _ _ pk)).
    destruct (open_copies _ _ =? 0)%nat; [|done].
    injection Hstep as <-; by apply (Hwake _ _ _ pk).
  - destruct (fdget fd (ofile p)) as [[]|];
      try (injection Hstep as <-; by apply (Hwake _ _ _ pk)).
    destruct (pipes s !! id);
      try (injection Hstep as <-; by apply (Hwake _ _ _ pk)).
    destruct (open_copies _ _ =? 0)%nat;
      injection Hstep as <-; by apply (Hwake _ _ _ pk).
  - destruct (list_find _ _) as [[j c]|] eqn:Hfind.
    + injection Hstep as <-. apply list_find_Some in Hfind as (Hj & _).
      destruct (decide (k = j)) as [->|Hne].
      * rewrite Hj in Hk. injection Hk as <-.
        apply (Hwake _ _ _ (Proc (code c) (ofile c) (parent c) UNUSED)); [|done..].
        simpl. apply list_lookup_insert_eq. by eapply lookup_lt_Some.
      * apply (Hwake _ _ _ pk); [|done..]. simpl.
        by rewrite list_lookup_insert_ne.
    + destruct (existsb _ _); [done|].
      injection Hstep as <-; by apply (Hwake _ _ _ pk).
  - injection Hstep as <-. simpl. destruct (decide (k = q)) as [->|Hne].
    + rewrite list_lookup_insert_eq by (by eapply lookup_lt_Some).
      rewrite Hq in Hk. injection Hk as <-. eauto.
    + rewrite list_lookup_insert_ne by done. eauto.
  - injection Hstep as <-. by apply (Hwake _ _ _ pk).
Qed.

(** Past line 71 an initialized cursor is never assigned again. *)
Lemma resume_cursor k c r :
  code_ok k c → initialized (cursor_of c) = true →
  (next_call c = sys_fork → rv r ≠ 0) →
  cursor_of (resume N c r) = cursor_of c.
Proof.
  intros Hok Hi Hr. unfold resume.
  destruct c as [m i cur | t n pl pr rn]; simpl in *.
  - destruct Hok as [_ Hok].
    destruct m as [| |d| | | |]; simpl in *; try done.
    + unfold main_for. by repeat case_match.
    + destruct d; simpl in *; subst; try done; repeat case_match; simplify_eq; try done.
      by destruct Hr; [|apply Z.eqb_eq].
  - destruct Hok as (_ & _ & Hok).
    destruct t as [| | |d| | | | |]; simpl in *; try done.
    + by repeat case_match.
    + destruct d; simpl in *; subst; try done; repeat case_match; simplify_eq; try done.
      by destruct Hr; [|apply Z.eqb_eq].
Qed.

Lemma cursor_kept q f s s' k pk :
  Shape s → kstep N q f s = Some s' → procs s !! k = Some pk →
  initialized (cursor_of (code pk)) = true →
  cursor_of (code (proc_at s' k)) = cursor_of (code pk).
Proof.
  intros HS Hstep Hk Hi.
  destruct (kstep_code q f s s' k pk Hstep Hk) as (p' & Hp' & H).
  rewrite (proc_at_lookup _ _ _ Hp').
  destruct H as [->|(_ & _ & r & -> & Hr)]; [done|].
  destruct (shape_procs _ HS _ _ Hk) as [Hok _ _ _ _ _ _].
  by eapply resume_cursor.
Qed.

Lemma cursor_kept_run sched s k :
  Shape s → (k < length (procs s))%nat →
  initialized (cursor_of (code (proc_at s k))) = true →
  cursor_of (code (proc_at (run N sched s) k)) = cursor_of (code (proc_at s k)).
Proof.
  revert s. induction sched as [|[q f] sched IH]; intros s HS Hk Hi; [done|].
  change (run N ((q, f) :: sched) s) with (run N sched (sched_step N s (q, f))).
  unfold sched_step. simpl.
  destruct (kstep N q f s) as [s'|] eqn:Hstep; simpl; [|by apply IH].
  destruct (lookup_lt_is_Some_2 _ _ Hk) as [pk Hpk].
  rewrite (proc_at_lookup _ _ _ Hpk) in *.
  pose proof (cursor_kept q f s s' k pk HS Hstep Hpk Hi) as Hc.
  destruct (kstep_code q f s s' k pk Hstep Hpk) as (p' & Hp' & _).
  rewrite <- Hc. apply IH.
  - by eapply shape_step.
  - by eapply lookup_lt_Some.
  - by rewrite Hc.
Qed.

End Codes.

(** ** Leaving the loop *)

Section LoopExit.

Variable N : Z.

Local Arguments resume : simpl never.

Lemma loop_exit q f s s' :
  Shape s → kstep N q f s = Some s' →
  past_loop (code (proc_at s q)) = false →
  past_loop (code (proc_at s' q)) = true →
  exhausted N s q.
Proof.
  intros HS Hstep Hnp Hp.
  assert (is_running (proc_at s q) = true) as Hrun.
  { unfold kstep, proc_at in *. destruct (procs s !! q); [|done]. simpl.
    by destruct (is_running p). }
  pose proof (proc_at_running _ _ Hrun) as Hq.
  destruct (kstep_code N q f s s' q _ Hstep Hq) as (p' & Hp' & H).
  rewrite (proc_at_lookup _ _ _ Hp') in Hp.
  destruct H as [Hc | (_ & _ & r & Hc & _)]; [congruence|].
  unfold exhausted.
  destruct (code (proc_at s q)) as [m i cur| t n pl pr rn] eqn:Hcode.
  - rewrite Hc in Hp. unfold resume in Hp.
    destruct m as [| |d| | | |]; simpl in *; try done.
    + unfold main_for in Hp. destruct (Z.leb_spec i N); [|lia].
      by destruct (Z.rem i START_PRIME =? 0).
    + by destruct (deliver_prime d cur r).
  - destruct t as [| | |d| | | | |]; simpl in *; try done;
      try (rewrite Hc in Hp; unfold resume in Hp; simpl in Hp; done).
    2:{ rewrite Hc in Hp; unfold resume in Hp.
        by destruct (deliver_prime d pr r). }
    clear Hc r.
    pose proof (upstream_open s q _ _ _ _ _ HS Hrun Hcode eq_refl) as Hfd.
    destruct (shape_procs _ HS _ _ Hq) as [Hok _ _ _ _ _ _].
    rewrite Hcode in Hok. destruct Hok as (Hq0 & _ & _).
    destruct q as [|q']; [lia|].
    replace (S q' - 1)%nat with q' in * by lia.
    destruct (lookup_lt_is_Some_2 (procs s) q') as [pk Hpk].
    { apply lookup_lt_Some in Hq. lia. }
    destruct (shape_upstream_init s (S q') _ q' pk HS Hq Hrun) as [_ Hlen];
      [lia|done|].
    destruct (lookup_lt_is_Some_2 (pipes s) q' Hlen) as [b Hb].
    unfold kstep in Hstep. rewrite Hq, Hrun, Hcode in Hstep. simpl in Hstep.
    rewrite Hfd, Hb in Hstep. rewrite (buf_at_lookup _ _ _ Hb).
    destruct b as [|v buf].
    + destruct (Nat.eqb_spec (open_copies (pipe_write q') (procs s)) 0); done.
    + injection Hstep as <-. unfold wake, with_pipes in Hp'. simpl in Hp'.
      rewrite list_lookup_insert_eq in Hp' by (by eapply lookup_lt_Some).
      injection Hp' as <-. simpl in Hp. rewrite Hcode in Hp.
      unfold resume in Hp. simpl in Hp.
      by destruct (Z.rem v n =? 0).
Qed.

End LoopExit.

(** ** Joining *)

Lemma joined_below s k j :
  Shape s → (k < length (procs s))%nat → quiet (proc_at s k) = true →
  (k < j)%nat → state (proc_at s j) = UNUSED.
Proof.
  intros HS Hk Hquiet Hj.
  destruct (lookup_lt_is_Some_2 _ _ Hk) as [p Hp].
  rewrite (proc_at_lookup _ _ _ Hp) in Hquiet.
  unfold proc_at. destruct (procs s !! j) as [p'|] eqn:Hp'; [|done]. simpl.
  exact (shape_quiet _ HS _ _ _ _ Hp Hquiet Hj Hp').
Qed.

Lemma boot_length N sched : (0 < length (procs (run N sched boot)))%nat.
Proof.
  assert (∀ s, (0 < length (procs s))%nat →
               (0 < length (procs (run N sched s)))%nat) as H.
  { induction sched as [|[q f] sched IH]; intros s Hs; [done|].
    apply IH. unfold sched_step. simpl.
    destruct (kstep N q f s) as [s'|] eqn:Hstep; simpl; [|done].
    destruct (lookup_lt_is_Some_2 _ _ Hs) as [p0 Hp0].
    destruct (kstep_code N q f s s' 0 p0 Hstep Hp0) as (p' & Hp' & _).
    by eapply lookup_lt_Some. }
  apply H. simpl. lia.
Qed.

(** ** The range [2, 2] *)

Lemma short_run_closed sched : ∀ s, In s short_run → In (run 2 sched s) short_run.
Proof.
  induction sched as [|[q f] sched IH]; intros s Hs; [done|].
  apply IH. clear IH. 
  vm_compute in Hs.
  repeat (destruct Hs as [<-|Hs]; [destruct q as [|q], f; vm_compute; tauto|]).
  done.
Qed.

Lemma short_run_ok : forallb short_ok short_run = true.
Proof. by vm_compute. Qed.

(** ** The statements about the sieve *)

Lemma run_app N a b s : run N (a ++ b) s = run N b (run N a s).
Proof. apply fold_left_app. Qed.

Lemma fault_free_app a b :
  fault_free (a ++ b) = fault_free a && fault_free b.
Proof. apply forallb_app. Qed.

(** The value a process is handing to a cursor that has no stage behind
    it yet is the next prime. *)
Lemma first_push_prime N s k p v :
  2 ≤ N < INT_MAX → Shape s → Flow N s →
  procs s !! k = Some p → forked (code p) = false → v ∈ pend (code p) →
  v ∈ primes_upto N.
Proof.
  intros HN HS HF Hk Hf Hv.
  destruct (shape_procs _ HS _ _ Hk) as [_ _ _ _ _ _ Hch].
  rewrite Hf in Hch. symmetry in Hch. apply bool_decide_eq_false in Hch.
  pose proof (lookup_lt_Some _ _ _ Hk) as Hlt.
  assert (length (procs s) - 1 = k)%nat as HK by lia.
  rewrite <- (chain_prefix N HN s HF), HK, flow_unfold.
  assert (codes s !! k = Some (code p)) as Hc by (apply codes_lookup; eauto).
  rewrite (code_at_lookup _ _ _ Hc).
  assert (∃ rest, out N (code p) (input N (codes s) (pipes s) k) = v :: rest)
    as [rest ->].
  { unfold out. destruct (code p) as [[| |d| | | |] i cur | [| | |d| | | | |] n pl pr rn];
      simpl in Hv; try (by apply elem_of_nil in Hv);
      apply list_elem_of_singleton in Hv as ->; simpl; eauto. }
  rewrite sieve_cons. apply elem_of_app. right. apply elem_of_cons. by left.
Qed.

(** C1: for every range [2, N] that fits in an [int] and every schedule
    in which no [pipe] and no [fork] fails, the console only ever holds a
    prefix of the lines 'prime p' for the primes p of the range in
    ascending order, it holds exactly all of them once [main] has returned,
    and every such run can be continued until [main] returns.  The primes
    of the range are those found by trial division: each p with
    2 <= p <= N that is prime, once, in ascending order; for the value 35
    of MAX_PRIMES they are 2, 3, 5, 7, 11, 13, 17, 19, 23, 29, 31. *)
Theorem primes_printed N :
  2 ≤ N < INT_MAX →
  (∀ sched, fault_free sched = true →
     (∃ rest, console_out (run N sched boot) ++ map prime_line rest
              = map prime_line (primes_upto N)) ∧
     (main_returned (run N sched boot) = true →
      console_out (run N sched boot) = map prime_line (primes_upto N)) ∧
     (∃ more, fault_free more = true ∧
              main_returned (run N (sched ++ more) boot) = true)) ∧
  (∀ x, x ∈ primes_upto N ↔ 2 ≤ x ≤ N ∧ Z.prime x) ∧
  StronglySorted Z.lt (primes_upto N) ∧
  primes_upto MAX_PRIMES = [2; 3; 5; 7; 11; 13; 17; 19; 23; 29; 31].
Proof.
  intros HN. split; [|split; [|split]].
  - intros sched Hff.
    pose proof (reach_shape N sched) as HS.
    pose proof (reach_flow N HN sched Hff) as HF.
    split; [|split].
    + by apply console_prefix.
    + by apply flow_finished.
    + destruct (terminates N HN _ _ (Nat.le_refl _) HS HF) as (more & Hm & Hret).
      exists more. by rewrite run_app.
  - apply primes_upto_elem.
  - apply primes_upto_sorted.
  - by vm_compute.
Qed.

Lemma primes_printed_witness :
  console_out (run MAX_PRIMES (round_robin 12 110) boot)
  = map prime_line [2; 3; 5; 7; 11; 13; 17; 19; 23; 29; 31].
Proof.
  assert (2 ≤ MAX_PRIMES < INT_MAX) as HN by (unfold MAX_PRIMES, INT_MAX; lia).
  destruct (primes_printed MAX_PRIMES HN) as (Hrun & _ & _ & <-).
  destruct (Hrun (round_robin 12 110)) as (_ & Hret & _).
  - vm_compute. reflexivity.
  - apply Hret. vm_compute. reflexivity.
Defined.

(** C2: in every run without a failing [pipe] or [fork], the number every
    process of the chain filters by is a prime; every value that has
    reached the cursor of the process at depth k (it is being delivered
    there, or waits in the pipe behind it) is divisible by none of the
    primes of the processes at depths 0..k; and the value being delivered
    to a cursor that has no stage behind it yet, which is the value the new
    stage will filter by, is a prime of the range.  The program gets there
    with remainders by the chain's own primes only. *)
Theorem survivors_are_prime N sched k :
  2 ≤ N < INT_MAX → fault_free sched = true →
  (k < length (procs (run N sched boot)))%nat →
  Z.prime (prime_of (code_at (codes (run N sched boot)) k)) ∧
  (∀ v j,
     v ∈ pend (code_at (codes (run N sched boot)) k)
           ++ buf_at (pipes (run N sched boot)) k →
     (j ≤ k)%nat →
     Z.rem v (prime_of (code_at (codes (run N sched boot)) j)) ≠ 0) ∧
  (∀ v,
     v ∈ pend (code_at (codes (run N sched boot)) k) →
     forked (code_at (codes (run N sched boot)) k) = false →
     Z.prime v ∧ 2 ≤ v ≤ N).
Proof.
  intros HN Hff Hk.
  pose proof (reach_shape N sched) as HS.
  pose proof (reach_flow N HN sched Hff) as HF.
  destruct (lookup_lt_is_Some_2 _ _ Hk) as [p Hp].
  assert (codes (run N sched boot) !! k = Some (code p)) as Hc
    by (apply codes_lookup; eauto).
  rewrite (code_at_lookup _ _ _ Hc). split; [|split].
  - by destruct (chain_prime N HN _ _ _ HF Hc).
  - intros v j Hv Hj. rewrite <- (code_at_lookup _ _ _ Hc) in Hv.
    exact (flow_good _ _ HF k v j Hv Hj).
  - intros v Hv Hf.
    pose proof (first_push_prime N _ k p v HN HS HF Hp Hf Hv) as Hin.
    apply primes_upto_elem in Hin. tauto.
Qed.

Lemma survivors_are_prime_witness :
  Z.prime (prime_of (code_at (codes (run MAX_PRIMES (round_robin 3 9) boot)) 2)).
Proof.
  refine (proj1 (survivors_are_prime MAX_PRIMES (round_robin 3 9) 2 _ _ _)).
  - unfold MAX_PRIMES, INT_MAX. lia.
  - vm_compute. reflexivity.
  - vm_compute. lia.
Defined.

(** C3: a stage with prime p > 0 that runs on its own, with any finite
    sequence of values waiting in its upstream pipe, first prints
    'prime p' (before it reads anything), then reads all of them and ends
    its loop; the values it has passed on to [deliver_prime], in order, are
    exactly the received values that p does not divide, in the order they
    were received. *)
Theorem stage_filters N p received :
  0 < p →
  console_out (run N (alone 2) (stage_alone p received)) = [prime_line p] ∧
  pipes (run N (alone 2) (stage_alone p received)) = [received] ∧
  ∃ m,
    console_out (run N (alone m) (stage_alone p received)) = [prime_line p] ∧
    forwarded (run N (alone m) (stage_alone p received))
    = filter (λ v, Z.rem v p ≠ 0) received ∧
    buf_at (pipes (run N (alone m) (stage_alone p received))) 0 = [] ∧
    kstep N 0 false (run N (alone m) (stage_alone p received)) = None.
Proof.
  intros _. split; [done|]. split; [done|].
  destruct (stage_alone_run N p received) as (m & H). by exists m.
Qed.

Lemma stage_filters_witness :
  0 < 3 ∧
  ∃ m, forwarded (run MAX_PRIMES (alone m) (stage_alone 3 [5; 7; 9; 11; 15; 13]))
       = [5; 7; 11; 13].
Proof.
  split; [lia|].
  destruct (stage_filters MAX_PRIMES 3 [5; 7; 9; 11; 15; 13]) as (_ & _ & m & _ & H & _);
    [lia|].
  exists m. exact H.
Defined.

Lemma before_teardown_phase c :
  past_loop c = false →
  rd_open (phase_of c) = true ∧ wr_open (phase_of c) = true ∧
  at_wait c = false ∧
  match c with
  | in_stage t _ _ _ _ => t = L81_close ∨ up_open (stage_phase t) = true
  | _ => True
  end.
Proof.
  destruct c as [[| |d| | | |] i cur | [| | |d| | | | |] n pl pr rn]; simpl;
    try done; auto.
Qed.

Lemma joined_below_any s k j :
  Shape s → quiet (proc_at s k) = true → (k < j)%nat →
  state (proc_at s j) = UNUSED.
Proof.
  intros HS Hq Hj. destruct (decide (k < length (procs s))%nat) as [Hk|Hk].
  - by eapply joined_below.
  - unfold proc_at. rewrite (lookup_ge_None_2 (procs s) j) by lia. done.
Qed.

(** C4: in every reachable state, under any schedule and with failures:
    (1) the step that takes a process out of its loop (to line 103 in a
    stage, to line 150 in [main]) is taken only when its source is
    exhausted: the upstream pipe is empty and no write end of it is open,
    respectively the loop variable is past the range;
    (2) a running process that has not left its loop is not at its [wait],
    still has both ends of its own pipe open if it has created one, and, in
    a stage past line 81, the upstream read end;
    (3) when the process at depth k has terminated or has returned from its
    [wait], every deeper process has terminated and has been collected. *)
Theorem shutdown_bottom_up N sched q f k j :
  (past_loop (code (proc_at (run N sched boot) q)) = false →
   past_loop (code (proc_at (run N (sched ++ [(q, f)]) boot) q)) = true →
   exhausted N (run N sched boot) q) ∧
  (is_running (proc_at (run N sched boot) k) = true →
   past_loop (code (proc_at (run N sched boot) k)) = false →
   at_wait (code (proc_at (run N sched boot) k)) = false ∧
   (initialized (cursor_of (code (proc_at (run N sched boot) k))) = true →
    fdget (fst (cursor_of (code (proc_at (run N sched boot) k))))
          (ofile (proc_at (run N sched boot) k)) = Some (pipe_read k) ∧
    fdget (snd (cursor_of (code (proc_at (run N sched boot) k))))
          (ofile (proc_at (run N sched boot) k)) = Some (pipe_write k)) ∧
   (∀ t n pl pr rn,
      code (proc_at (run N sched boot) k) = in_stage t n pl pr rn →
      t = L81_close ∨
      fdget (fst pl) (ofile (proc_at (run N sched boot) k))
      = Some (pipe_read (k - 1)))) ∧
  (quiet (proc_at (run N sched boot) k) = true → (k < j)%nat →
   state (proc_at (run N sched boot) j) = UNUSED).
Proof.
  pose proof (reach_shape N sched) as HS. split; [|split].
  - intros Hin Hout. rewrite run_app in Hout. simpl in Hout.
    unfold sched_step in Hout. simpl in Hout.
    destruct (kstep N q f (run N sched boot)) as [s'|] eqn:Hstep;
      simpl in Hout; [|congruence].
    by eapply loop_exit.
  - intros Hrun Hin.
    destruct (before_teardown_phase _ Hin) as (Hr & Hw & Hwait & Hup).
    split; [done|]. split.
    + intros Hinit.
      destruct (endpoints_open _ k HS Hrun Hinit) as [H1 H2]. auto.
    + intros t n pl pr rn Hc. rewrite Hc in Hup.
      destruct Hup as [->|Hup]; [by left|right].
      by eapply upstream_open.
  - by apply joined_below_any.
Qed.

Lemma shutdown_bottom_up_witness :
  exhausted MAX_PRIMES
    (run MAX_PRIMES (take 649 (round_robin 12 100)) boot) 1.
Proof.
  refine (proj1 (shutdown_bottom_up MAX_PRIMES (take 649 (round_robin 12 100))
                   1 false 0 0) _ _).
  - vm_compute. reflexivity.
  - vm_compute. reflexivity.
Defined.

Lemma procs_kept_run N more s k :
  (k < length (procs s))%nat → (k < length (procs (run N more s)))%nat.
Proof.
  revert s. induction more as [|[q f] more IH]; intros s Hk; [done|].
  change (run N ((q, f) :: more) s) with (run N more (sched_step N s (q, f))).
  apply IH. unfold sched_step. simpl.
  destruct (kstep N q f s) as [s'|] eqn:Hstep; simpl; [|done].
  destruct (lookup_lt_is_Some_2 _ _ Hk) as [pk Hpk].
  destruct (kstep_code N q f s s' k pk Hstep Hpk) as (p' & Hp' & _).
  by eapply lookup_lt_Some.
Qed.

Lemma forked_in_range s k :
  forked (code (proc_at s k)) = true → (k < length (procs s))%nat.
Proof.
  unfold proc_at. destruct (procs s !! k) as [p|] eqn:Hk; [|done].
  intros _. by eapply lookup_lt_Some.
Qed.

Lemma forked_kept N more s k :
  Shape s → forked (code (proc_at s k)) = true →
  forked (code (proc_at (run N more s) k)) = true ∧
  cursor_of (code (proc_at (run N more s) k)) = cursor_of (code (proc_at s k)).
Proof.
  intros HS Hf. pose proof (forked_in_range _ _ Hf) as Hk.
  assert (initialized (cursor_of (code (proc_at s k))) = true) as Hi.
  { unfold forked in Hf. by apply andb_true_iff in Hf as [? _]. }
  split; [|by apply cursor_kept_run].
  destruct (lookup_lt_is_Some_2 _ _ Hk) as [p Hp].
  destruct (shape_procs _ HS _ _ Hp) as [_ _ _ _ _ _ Hch].
  rewrite (proc_at_lookup _ _ _ Hp) in Hf. rewrite Hf in Hch.
  symmetry in Hch. apply bool_decide_eq_true in Hch.
  pose proof (procs_kept_run N more s (S k) Hch) as Hch'.
  destruct (lookup_lt_is_Some_2 (procs (run N more s)) k) as [p' Hp']; [lia|].
  destruct (shape_procs _ (shape_run N more s HS) _ _ Hp') as [_ _ _ _ _ _ Hch2].
  rewrite (proc_at_lookup _ _ _ Hp'), Hch2. by apply bool_decide_eq_true.
Qed.

Lemma forked_writes k c d :
  code_ok k c → forked c = true → dp_site_of c = Some d → d = L119_write.
Proof.
  unfold forked. intros Hok Hf Hd. apply andb_true_iff in Hf as [Hi Hf].
  rewrite Hd in Hf.
  destruct c as [m i cur | t n pl pr rn]; simpl in *.
  - destruct Hok as [_ Hok]. destruct m; try done. injection Hd as ->.
    destruct d; simpl in *; subst; done.
  - destruct Hok as (_ & _ & Hok). destruct t; try done. injection Hd as ->.
    destruct d; simpl in *; subst; done.
Qed.

Lemma short_run_all sched : short_ok (run 2 sched boot) = true.
Proof.
  pose proof short_run_ok as H. rewrite forallb_forall in H.
  apply H, short_run_closed. vm_compute. tauto.
Qed.

(** C5: line 71 sends a call of [deliver_prime] to [pipe] and [fork]
    exactly when the write slot of the cursor holds the sentinel, and to
    the [write] otherwise.  In every reachable state, under any schedule
    and with failures: a process about to call [pipe] has an uninitialized
    cursor, and a process about to call [pipe] or [fork] is the last of the
    chain, that is, it has no child; an initialized cursor keeps its value
    in every later state; and once the fork has returned in the parent,
    every later call of [deliver_prime] by that process is at the [write]
    of line 119.  For the range [2, 2] there is only ever one process and
    no pipe, and when [main] has returned the console holds 'prime 2'
    alone, which happens after six steps. *)
Theorem cursor_initialized_once N sched more k d :
  (∀ cur, deliver_prime_enter cur
          = if initialized cur then L119_write else L72_pipe) ∧
  (is_running (proc_at (run N sched boot) k) = true →
   next_call (code (proc_at (run N sched boot) k)) = sys_pipe ∨
   next_call (code (proc_at (run N sched boot) k)) = sys_fork →
   (next_call (code (proc_at (run N sched boot) k)) = sys_pipe →
    cursor_of (code (proc_at (run N sched boot) k)) = no_pipe) ∧
   length (procs (run N sched boot)) = S k) ∧
  (initialized (cursor_of (code (proc_at (run N sched boot) k))) = true →
   (k < length (procs (run N sched boot)))%nat →
   cursor_of (code (proc_at (run N (sched ++ more) boot) k))
   = cursor_of (code (proc_at (run N sched boot) k))) ∧
  (forked (code (proc_at (run N sched boot) k)) = true →
   dp_site_of (code (proc_at (run N (sched ++ more) boot) k)) = Some d →
   d = L119_write) ∧
  (length (procs (run 2 sched boot)) = 1%nat ∧
   pipes (run 2 sched boot) = [] ∧
   (main_returned (run 2 sched boot) = true →
    console_out (run 2 sched boot) = [prime_line 2]) ∧
   main_returned (run 2 (alone 6) boot) = true).
Proof.
  pose proof (reach_shape N sched) as HS.
  split; [|split; [|split; [|split]]].
  - intros cur. unfold deliver_prime_enter, initialized.
    by destruct (snd cur =? PIPE_INVALID).
  - intros Hrun Hcall. destruct (running_table _ k HS Hrun) as [Hok _].
    pose proof (proc_at_running _ _ Hrun) as Hk.
    destruct (shape_procs _ HS _ _ Hk) as [_ _ _ _ _ _ Hch].
    assert (forked (code (proc_at (run N sched boot) k)) = false ∧
            (next_call (code (proc_at (run N sched boot) k)) = sys_pipe →
             cursor_of (code (proc_at (run N sched boot) k)) = no_pipe))
      as [Hf Hcur].
    { unfold forked.
      destruct (code (proc_at (run N sched boot) k))
        as [[| |[]| | | |] i cur | [| | |[]| | | | |] n pl pr rn];
        simpl in *; unfold close_pipe_if_valid in *;
        repeat match goal with
               | H : context [if ?b then _ else _] |- _ => destruct b
               end;
        try (destruct Hcall; discriminate);
        repeat match goal with H : _ ∧ _ |- _ => destruct H end;
        subst; split; try done; by rewrite ?andb_false_r. }
    split; [done|]. rewrite Hf in Hch. symmetry in Hch.
    apply bool_decide_eq_false in Hch. apply lookup_lt_Some in Hk. lia.
  - intros Hi Hk. rewrite run_app. by apply cursor_kept_run.
  - intros Hf Hd. rewrite run_app in Hd.
    destruct (forked_kept N more _ k HS Hf) as [Hf' _].
    pose proof (forked_in_range _ _ Hf') as Hk.
    destruct (lookup_lt_is_Some_2 _ _ Hk) as [p' Hp'].
    destruct (shape_procs _ (shape_run N more _ HS) _ _ Hp') as [Hok _ _ _ _ _ _].
    rewrite (proc_at_lookup _ _ _ Hp') in *. by eapply forked_writes.
  - pose proof (short_run_all sched) as H. unfold short_ok in H.
    apply andb_true_iff in H as [H H3]. apply andb_true_iff in H as [H1 H2].
    apply bool_decide_eq_true in H1, H2.
    split; [done|]. split; [done|]. split; [|by vm_compute].
    intros Hret. rewrite Hret in H3. simpl in H3.
    by apply bool_decide_eq_true in H3.
Qed.

Lemma cursor_initialized_once_witness :
  cursor_of (code (proc_at (run MAX_PRIMES (alone 4 ++ round_robin 2 10) boot) 0))
  = cursor_of (code (proc_at (run MAX_PRIMES (alone 4) boot) 0)).
Proof.
  refine (proj1 (proj2 (proj2
    (cursor_initialized_once MAX_PRIMES (alone 4) (round_robin 2 10) 0 L72_pipe))) _ _).
  - vm_compute. reflexivity.
  - vm_compute. lia.
Defined.

Lemma outstanding_none s :
  (∀ j, (0 < j)%nat → state (proc_at s j) = UNUSED) → outstanding s = 0%nat.
Proof.
  intros H. unfold outstanding.
  assert (filter (λ p, is_unused p = false) (drop 1 (procs s)) = []) as ->; [|done].
  assert (∀ i p, drop 1 (procs s) !! i = Some p → is_unused p = true) as Hall.
  { intros i p Hi. rewrite lookup_drop in Hi.
    specialize (H (1 + i)%nat ltac:(lia)).
    rewrite (proc_at_lookup _ _ _ Hi) in H. unfold is_unused. by rewrite H. }
  induction (drop 1 (procs s)) as [|p l IH]; [done|].
  rewrite filter_cons. rewrite (Hall 0%nat p eq_refl). simpl.
  destruct (decide (true = false)); [done|].
  apply IH. intros i p' Hi. by apply (Hall (S i)).
Qed.

(** C6: in every reachable state, under any schedule and with failures:
    the worker at depth k+1 was spawned by the process at depth k; for as
    long as a worker has not been collected, its spawner is still running
    and has not returned from its one [wait]; so when [main] is no longer
    running, and in particular when it has returned, no worker is left that
    was not collected. *)
Theorem workers_joined N sched k :
  (main_returned (run N sched boot) = true →
   outstanding (run N sched boot) = 0%nat) ∧
  (is_running (proc_at (run N sched boot) 0) = false →
   outstanding (run N sched boot) = 0%nat) ∧
  ((S k < length (procs (run N sched boot)))%nat →
   parent (proc_at (run N sched boot) (S k)) = Some k ∧
   (is_unused (proc_at (run N sched boot) (S k)) = false →
    is_running (proc_at (run N sched boot) k) = true ∧
    after_wait (code (proc_at (run N sched boot) k)) = false)).
Proof.
  pose proof (reach_shape N sched) as HS.
  assert (is_running (proc_at (run N sched boot) 0) = false →
          outstanding (run N sched boot) = 0%nat) as Hmain.
  { intros Hrun. apply outstanding_none. intros j Hj.
    apply (joined_below_any _ 0 j HS); [|done]. unfold quiet. by rewrite Hrun. }
  split; [|split; [done|]].
  - intros Hret. apply Hmain. unfold main_returned, proc_at, exited_with, is_running in *.
    destruct (procs (run N sched boot) !! 0%nat) as [p|]; [|done]. simpl.
    by destruct (state p).
  - intros Hk. destruct (lookup_lt_is_Some_2 _ _ Hk) as [p Hp].
    destruct (shape_procs _ HS _ _ Hp) as [_ Hpar _ _ _ _ _].
    rewrite (proc_at_lookup _ _ _ Hp). split; [done|].
    intros Hu.
    destruct (quiet (proc_at (run N sched boot) k)) eqn:Hq.
    + pose proof (joined_below_any _ k (S k) HS Hq ltac:(lia)) as Hst.
      rewrite (proc_at_lookup _ _ _ Hp) in Hst. unfold is_unused in Hu.
      by rewrite Hst in Hu.
    + unfold quiet in Hq. apply orb_false_iff in Hq as [Hr Ha].
      by apply negb_false_iff in Hr.
Qed.

Lemma workers_joined_witness :
  outstanding (run MAX_PRIMES (round_robin 12 110) boot) = 0%nat.
Proof.
  refine (proj1 (workers_joined MAX_PRIMES (round_robin 12 110) 0) _).
  vm_compute. reflexivity.
Defined.

(** ** Single steps *)

Section Single.

Variable N : Z.

Local Arguments resume : simpl never.

Lemma step_state q f s p :
  procs s !! q = Some p → is_running p = true →
  sched_step N s (q, f)
  = match next_call (code p) with
    | sys_printf l =>
        wake N q p (returns 0) (ofile p)
          (Sys (procs s) (pipes s) (console_out s ++ [l]))
    | sys_exit status =>
        Sys (<[q := Proc (code p) [] (parent p) (ZOMBIE status)]> (procs s))
            (pipes s) (console_out s)
    | _ => sched_step N s (q, f)
    end.
Proof.
  intros Hq Hrun. unfold sched_step, kstep. simpl. rewrite Hq, Hrun. simpl.
  by destruct (next_call (code p)).
Qed.

Lemma step_fault q s p :
  procs s !! q = Some p → is_running p = true →
  next_call (code p) = sys_pipe ∨ next_call (code p) = sys_fork →
  sched_step N s (q, true) = wake N q p (returns (-1)) (ofile p) s.
Proof.
  intros Hq Hrun Hcall. unfold sched_step, kstep. simpl. rewrite Hq, Hrun. simpl.
  by destruct Hcall as [-> | ->].
Qed.

Lemma wake_at q p r o s :
  (q < length (procs s))%nat →
  procs (wake N q p r o s) !! q
  = Some (Proc (resume N (code p) r) o (parent p) RUNNING).
Proof. intros Hq. unfold wake. simpl. by apply list_lookup_insert_eq. Qed.

Lemma stopped q f s p :
  procs s !! q = Some p → is_running p = false → kstep N q f s = None.
Proof. intros Hq Hrun. unfold kstep. by rewrite Hq, Hrun. Qed.

(** A failed [pipe] or [fork]: one line on the console, then [exit(1)]. *)
Lemma failed_creation q s :
  is_running (proc_at s q) = true →
  next_call (code (proc_at s q)) = sys_pipe ∨
  next_call (code (proc_at s q)) = sys_fork →
  run N [(q, true); (q, false); (q, false)] s
  = Sys (<[q := Proc (resume N (resume N (code (proc_at s q)) (returns (-1)))
                             (returns 0))
                     [] (parent (proc_at s q)) (ZOMBIE 1)]> (procs s))
        (pipes s)
        (console_out s ++ [error_line (code (proc_at s q))]).
Proof.
  intros Hrun Hcall. pose proof (proc_at_running _ _ Hrun) as Hq.
  pose proof (lookup_lt_Some _ _ _ Hq) as Hlt.
  set (p := proc_at s q) in *.
  assert (∃ c1 c2, resume N (code p) (returns (-1)) = c1 ∧
                   next_call c1 = sys_printf (error_line (code p)) ∧
                   resume N c1 (returns 0) = c2 ∧ next_call c2 = sys_exit 1)
    as (c1 & c2 & H1 & Hc1 & H2 & Hc2).
  { unfold error_line, resume.
    destruct (code p) as [[| |[]| | | |] i cur | [| | |[]| | | | |] n pl pr rn];
      simpl in *; unfold close_pipe_if_valid in *;
      repeat match goal with
             | H : context [if ?b then _ else _] |- _ => destruct b
             end;
      try (destruct Hcall; discriminate); eauto 10. }
  unfold run. simpl fold_left.
  rewrite (step_fault q s p Hq Hrun Hcall).
  rewrite (step_state q false (wake N q p (returns (-1)) (ofile p) s)
             (Proc c1 (ofile p) (parent p) RUNNING));
    [|by rewrite wake_at, H1|done].
  simpl. rewrite Hc1.
  set (s1 := wake N q _ _ _ _).
  assert (procs s1 !! q = Some (Proc c2 (ofile p) (parent p) RUNNING)) as Hq1.
  { unfold s1. rewrite wake_at; simpl; [by rewrite H2|].
    unfold wake. simpl. by rewrite length_insert. }
  rewrite (step_state q false s1 _ Hq1 eq_refl). simpl. rewrite Hc2.
  unfold s1, wake. simpl. rewrite H1, H2.
  by rewrite !list_insert_insert_eq.
Qed.

End Single.

Lemma proc_at_insert ps q x bs con :
  (q < length ps)%nat → proc_at (Sys (<[q := x]> ps) bs con) q = x.
Proof. intros Hq. unfold proc_at. simpl. by rewrite list_lookup_insert_eq. Qed.

(** The fork of line 78 in the parent: nothing is closed. *)
Lemma fork_step N s q :
  Shape s → is_running (proc_at s q) = true →
  next_call (code (proc_at s q)) = sys_fork →
  ofile (proc_at (sched_step N s (q, false)) q) = ofile (proc_at s q) ∧
  ofile (proc_at (sched_step N s (q, false)) (length (procs s)))
  = ofile (proc_at s q) ∧
  parent (proc_at (sched_step N s (q, false)) (length (procs s))) = Some q ∧
  cursor_of (code (proc_at s q)) = own_pipe q ∧
  forked (code (proc_at (sched_step N s (q, false)) q)) = true.
Proof.
  intros HS Hrun Hcall. pose proof (proc_at_running _ _ Hrun) as Hq.
  pose proof (lookup_lt_Some _ _ _ Hq) as Hlt.
  destruct (running_table _ q HS Hrun) as [Hok _].
  set (p := proc_at s q) in *.
  unfold sched_step, kstep. simpl. rewrite Hq, Hrun, Hcall. simpl.
  unfold proc_at at 1 2 3 4. simpl.
  rewrite lookup_app_l by (by rewrite length_insert).
  rewrite list_lookup_insert_eq by done.
  rewrite lookup_app_r by (by rewrite length_insert).
  rewrite length_insert, Nat.sub_diag. simpl.
  split; [done|]. split; [done|]. split; [done|].
  assert (0 < Z.of_nat (length (procs s))) as Hpos by lia.
  destruct (code p) as [[| |[]| | | |] i cur | [| | |[]| | | | |] n pl pr rn];
    simpl in *; unfold close_pipe_if_valid in *;
    repeat match goal with
           | H : context [if ?b then _ else _] |- _ => destruct b
           end;
    try discriminate;
    repeat match goal with H : _ ∧ _ |- _ => destruct H end; subst;
    (split; [done|]);
    destruct (Z.eqb_spec (Z.of_nat (length (procs s))) 0); try lia;
    destruct (Z.gtb_spec (Z.of_nat (length (procs s))) 0); try lia;
    unfold forked; simpl; by rewrite ?initialized_own.
Qed.

(** C7, as the code has it: the parent does not close its copy of the read
    end after the fork.  In every reachable state, the [fork] of line 78
    leaves the table of the calling process as it is, with both ends of the
    new pipe open, and hands the child a copy of that table; in every later
    state in which the parent runs, the read end is still open until the
    parent has made the close of its teardown (line 104 in a stage, line
    150 in [main]) and the write end until the close of line 105 or 151. *)
Theorem parent_keeps_both_ends N sched more q :
  is_running (proc_at (run N sched boot) q) = true →
  next_call (code (proc_at (run N sched boot) q)) = sys_fork →
  ofile (proc_at (run N (sched ++ [(q, false)]) boot) q)
  = ofile (proc_at (run N sched boot) q) ∧
  ofile (proc_at (run N (sched ++ [(q, false)]) boot)
                 (length (procs (run N sched boot))))
  = ofile (proc_at (run N sched boot) q) ∧
  parent (proc_at (run N (sched ++ [(q, false)]) boot)
                  (length (procs (run N sched boot)))) = Some q ∧
  (is_running (proc_at (run N (sched ++ (q, false) :: more) boot) q) = true →
   (rd_open (phase_of (code (proc_at (run N (sched ++ (q, false) :: more) boot) q)))
    = true →
    fdget (fst (own_pipe q))
          (ofile (proc_at (run N (sched ++ (q, false) :: more) boot) q))
    = Some (pipe_read q)) ∧
   (wr_open (phase_of (code (proc_at (run N (sched ++ (q, false) :: more) boot) q)))
    = true →
    fdget (snd (own_pipe q))
          (ofile (proc_at (run N (sched ++ (q, false) :: more) boot) q))
    = Some (pipe_write q))).
Proof.
  intros Hrun Hcall. pose proof (reach_shape N sched) as HS.
  destruct (fork_step N _ q HS Hrun Hcall) as (H1 & H2 & H3 & Hcur & Hf).
  rewrite !run_app. split; [done|]. split; [done|]. split; [done|].
  change (run N ((q, false) :: more) (run N sched boot))
    with (run N more (sched_step N (run N sched boot) (q, false))).
  set (s1 := sched_step N (run N sched boot) (q, false)) in *.
  assert (Shape s1) as HS1 by (by apply shape_sched_step).
  intros Hrun2.
  destruct (forked_kept N more s1 q HS1 Hf) as [Hf2 Hc2].
  assert (cursor_of (code (proc_at s1 q)) = own_pipe q) as Hc1.
  { apply code_ok_cursor.
    - pose proof (forked_in_range _ _ Hf) as Hk.
      destruct (lookup_lt_is_Some_2 _ _ Hk) as [p1 Hp1].
      destruct (shape_procs _ HS1 _ _ Hp1) as [Hok _ _ _ _ _ _].
      by rewrite (proc_at_lookup _ _ _ Hp1).
    - unfold forked in Hf. by apply andb_true_iff in Hf as [? _]. }
  destruct (endpoints_open _ q (shape_run N more _ HS1) Hrun2) as [Hr Hw].
  { rewrite Hc2, Hc1. apply initialized_own. }
  rewrite Hc2, Hc1 in Hr, Hw. done.
Qed.

Lemma parent_keeps_both_ends_witness :
  fdget 3 (ofile (proc_at (run MAX_PRIMES (alone 3 ++ (0%nat, false) :: alone 40) boot) 0))
  = Some (pipe_read 0).
Proof.
  refine (proj1 (proj2 (proj2 (proj2
    (parent_keeps_both_ends MAX_PRIMES (alone 3) (alone 40) 0 _ _))) _) _).
  - vm_compute. reflexivity.
  - vm_compute. reflexivity.
  - vm_compute. reflexivity.
  - vm_compute. reflexivity.
Defined.

(** C7, as stated, fails: once the fork of line 78 has returned in [main]
    (after its fourth step), the read end of the new pipe is still open on
    descriptor 3, with [main] back at the head of its loop, and it still is
    when [main] makes its first write. *)
Lemma parent_read_end_not_closed :
  next_call (code (proc_at (run MAX_PRIMES (alone 3) boot) 0)) = sys_fork ∧
  code (proc_at (run MAX_PRIMES (alone 4) boot) 0) = in_main L139_for 4 (3, 4) ∧
  fdget 3 (ofile (proc_at (run MAX_PRIMES (alone 4) boot) 0)) = Some (pipe_read 0) ∧
  next_call (code (proc_at (run MAX_PRIMES (alone 6) boot) 0)) = sys_write 4 5 ∧
  fdget 3 (ofile (proc_at (run MAX_PRIMES (alone 6) boot) 0)) = Some (pipe_read 0).
Proof. vm_compute. tauto. Qed.

(** C8: a process whose [pipe] or [fork] fails prints the line that names
    the value [deliver_prime] was called with and exits with status 1,
    without calling [pipe] or [fork] again and without creating anything;
    a process whose [write] returns 0 or less goes straight to [exit(1)];
    and a process that has exited never runs again. *)
Theorem failure_is_terminal N s q f r :
  is_running (proc_at s q) = true →
  (next_call (code (proc_at s q)) = sys_pipe →
   console_out (run N [(q, true); (q, false); (q, false)] s)
   = console_out s ++ [pipe_error_line (in_flight (code (proc_at s q)))] ∧
   state (proc_at (run N [(q, true); (q, false); (q, false)] s) q) = ZOMBIE 1 ∧
   length (procs (run N [(q, true); (q, false); (q, false)] s)) = length (procs s) ∧
   pipes (run N [(q, true); (q, false); (q, false)] s) = pipes s ∧
   kstep N q f (run N [(q, true); (q, false); (q, false)] s) = None) ∧
  (next_call (code (proc_at s q)) = sys_fork →
   console_out (run N [(q, true); (q, false); (q, false)] s)
   = console_out s ++ [fork_error_line (in_flight (code (proc_at s q)))] ∧
   state (proc_at (run N [(q, true); (q, false); (q, false)] s) q) = ZOMBIE 1 ∧
   length (procs (run N [(q, true); (q, false); (q, false)] s)) = length (procs s) ∧
   pipes (run N [(q, true); (q, false); (q, false)] s) = pipes s ∧
   kstep N q f (run N [(q, true); (q, false); (q, false)] s) = None) ∧
  (∀ fd v, next_call (code (proc_at s q)) = sys_write fd v → rv r ≤ 0 →
     next_call (resume N (code (proc_at s q)) r) = sys_exit 1) ∧
  (∀ status, next_call (code (proc_at s q)) = sys_exit status →
     state (proc_at (sched_step N s (q, f)) q) = ZOMBIE status ∧
     kstep N q f (sched_step N s (q, f)) = None).
Proof.
  intros Hrun. pose proof (proc_at_running _ _ Hrun) as Hq.
  pose proof (lookup_lt_Some _ _ _ Hq) as Hlt.
  assert (∀ l, next_call (code (proc_at s q)) = sys_pipe ∨
               next_call (code (proc_at s q)) = sys_fork →
               error_line (code (proc_at s q)) = l →
    console_out (run N [(q, true); (q, false); (q, false)] s)
    = console_out s ++ [l] ∧
    state (proc_at (run N [(q, true); (q, false); (q, false)] s) q) = ZOMBIE 1 ∧
    length (procs (run N [(q, true); (q, false); (q, false)] s)) = length (procs s) ∧
    pipes (run N [(q, true); (q, false); (q, false)] s) = pipes s ∧
    kstep N q f (run N [(q, true); (q, false); (q, false)] s) = None) as Hfail.
  { intros l Hcall <-. rewrite (failed_creation N q s Hrun Hcall). simpl.
    rewrite proc_at_insert by done. simpl.
    rewrite length_insert. repeat split.
    eapply stopped; [simpl; by apply list_lookup_insert_eq|done]. }
  split; [|split; [|split]].
  - intros Hcall. apply Hfail; [by left|]. unfold error_line. by rewrite Hcall.
  - intros Hcall. apply Hfail; [by right|]. unfold error_line. by rewrite Hcall.
  - intros fd v Hcall Hr. unfold resume.
    destruct (code (proc_at s q))
      as [[| |[]| | | |] i cur | [| | |[]| | | | |] n pl pr rn];
      simpl in *; unfold close_pipe_if_valid in *;
      repeat match goal with
             | H : context [if ?b then _ else _] |- _ => destruct b
             end;
      try discriminate;
      by destruct (Z.leb_spec (rv r) 0); [|lia].
  - intros status Hcall.
    rewrite (step_state N q f s _ Hq Hrun), Hcall.
    rewrite proc_at_insert by done.
    split; [done|].
    eapply stopped; [simpl; by apply list_lookup_insert_eq|done].
Qed.

Lemma failure_is_terminal_witness :
  console_out
    (run MAX_PRIMES [(0%nat, true); (0%nat, false); (0%nat, false)]
       (run MAX_PRIMES (alone 2) boot))
  = [prime_line 2; pipe_error_line 3].
Proof.
  refine (proj1 (proj1
    (failure_is_terminal MAX_PRIMES (run MAX_PRIMES (alone 2) boot) 0 false
       (returns 0) _) _)).
  - vm_compute. reflexivity.
  - vm_compute. reflexivity.
Defined.

(** With a range that holds 3, [main] cannot get past its loop without
    having created its pipe, unless a [pipe] or [fork] has failed. *)
Lemma main_cursor_initialized N s p :
  3 ≤ N < INT_MAX → Shape s → Flow N s →
  procs s !! 0%nat = Some p → past_loop (code p) = true →
  cursor_of (code p) = no_pipe → False.
Proof.
  intros HN HS HF Hp Hpast Hcur.
  destruct (shape_procs _ HS _ _ Hp) as [Hok _ _ _ _ _ Hch].
  assert (forked (code p) = false) as Hf.
  { unfold forked. by rewrite Hcur. }
  rewrite Hf in Hch. symmetry in Hch. apply bool_decide_eq_false in Hch.
  pose proof (lookup_lt_Some _ _ _ Hp) as Hlt.
  assert (length (procs s) = 1%nat) as Hlen by lia.
  pose proof (chain_prefix N ltac:(lia) s HF) as Hpre.
  assert (codes s = [code p]) as Hcs.
  { unfold codes. destruct (procs s) as [|p0 [|p1 l]]; simpl in *; try done.
    by injection Hp as ->. }
  rewrite Hlen, Hcs in Hpre. simpl in Hpre.
  assert (3 ∈ primes_upto N) as H3.
  { apply primes_upto_elem. split; [lia|apply Z.prime_3]. }
  rewrite <- Hpre in H3.
  destruct (code p) as [[| |d| | | |] i cur | t n pl pr rn];
    simpl in *; try done;
    try (destruct Hok; lia);
    rewrite sieve_nil in H3;
    apply list_elem_of_singleton in H3; done.
Qed.

Lemma close_not_inherited s k fd :
  Shape s → is_running (proc_at s k) = true → (0 < k)%nat →
  next_call (code (proc_at s k)) = sys_close fd → Z.of_nat k + 2 ≤ fd.
Proof.
  intros HS Hrun Hk Hcall. destruct (running_table _ k HS Hrun) as [Hok _].
  destruct (code (proc_at s k)) as [m i cur | t n pl pr rn]; simpl in *.
  { destruct Hok. lia. }
  destruct Hok as (_ & -> & Hok).
  destruct t as [| | |[]| | | | |]; simpl in *; try done;
    try (destruct Hok as [->| ->]; [done|]); simpl in Hcall;
    rewrite close_valid in Hcall by lia; injection Hcall as <-; lia.
Qed.

Lemma child_closes_write_end s k n pl pr rn :
  Shape s → is_running (proc_at s k) = true →
  code (proc_at s k) = in_stage L81_close n pl pr rn →
  next_call (code (proc_at s k)) = sys_close (snd pl) ∧
  fdget (snd pl) (ofile (proc_at s k)) = Some (pipe_write (k - 1)).
Proof.
  intros HS Hrun Hc. destruct (running_table _ k HS Hrun) as [Hok ->].
  rewrite Hc in *. destruct Hok as (Hk & -> & ->). cbn -[inh].
  rewrite close_valid by lia. split; [done|].
  rewrite (fdget_inh 1 (k - 1)); [done|]. lia.
Qed.

(** A [close] of a descriptor that is not open changes nothing. *)
Lemma close_unopened N s q f fd :
  is_running (proc_at s q) = true →
  next_call (code (proc_at s q)) = sys_close fd →
  fdget fd (ofile (proc_at s q)) = None →
  ofile (proc_at (sched_step N s (q, f)) q) = ofile (proc_at s q) ∧
  pipes (sched_step N s (q, f)) = pipes s.
Proof.
  intros Hrun Hcall Hfd. pose proof (proc_at_running _ _ Hrun) as Hq.
  pose proof (lookup_lt_Some _ _ _ Hq) as Hlt.
  unfold sched_step, kstep. simpl. rewrite Hq, Hrun, Hcall. simpl.
  rewrite Hfd. simpl. unfold wake. by rewrite proc_at_insert.
Qed.

(** C9, as the code has it.  The guard of [close_pipe_if_valid] skips the
    close for the sentinel and for nothing else.  In every reachable state,
    under any schedule and with failures, every [close] a running process
    is about to make names a descriptor that is open in its table, so
    nothing is closed twice, with one exception: [main], whose teardown is
    not guarded, calls [close(-1)] when it never created a pipe; it is
    then the only process, and the call changes neither its table nor the
    pipes.  With a range that holds 3 and no failing [pipe] or [fork] the
    exception does not arise. *)
Theorem closes_name_open_descriptors N sched k fd f :
  close_pipe_if_valid PIPE_INVALID = no_syscall ∧
  (fd = PIPE_INVALID ∨ close_pipe_if_valid fd = sys_close fd) ∧
  (is_running (proc_at (run N sched boot) k) = true →
   next_call (code (proc_at (run N sched boot) k)) = sys_close fd →
   is_Some (fdget fd (ofile (proc_at (run N sched boot) k))) ∨
   (fd = PIPE_INVALID ∧ k = 0%nat ∧
    cursor_of (code (proc_at (run N sched boot) k)) = no_pipe ∧
    length (procs (run N sched boot)) = 1%nat ∧
    ofile (proc_at (run N (sched ++ [(k, f)]) boot) k)
    = ofile (proc_at (run N sched boot) k) ∧
    pipes (run N (sched ++ [(k, f)]) boot) = pipes (run N sched boot))) ∧
  (3 ≤ N < INT_MAX → fault_free sched = true →
   is_running (proc_at (run N sched boot) k) = true →
   next_call (code (proc_at (run N sched boot) k)) = sys_close fd →
   is_Some (fdget fd (ofile (proc_at (run N sched boot) k)))).
Proof.
  pose proof (reach_shape N sched) as HS.
  assert (is_running (proc_at (run N sched boot) k) = true →
   next_call (code (proc_at (run N sched boot) k)) = sys_close fd →
   is_Some (fdget fd (ofile (proc_at (run N sched boot) k))) ∨
   (fd = PIPE_INVALID ∧ k = 0%nat ∧
    cursor_of (code (proc_at (run N sched boot) k)) = no_pipe ∧
    length (procs (run N sched boot)) = 1%nat ∧
    ofile (proc_at (run N (sched ++ [(k, f)]) boot) k)
    = ofile (proc_at (run N sched boot) k) ∧
    pipes (run N (sched ++ [(k, f)]) boot) = pipes (run N sched boot))) as Hclose.
  { intros Hrun Hcall.
    destruct (close_open _ k fd HS Hrun Hcall) as [H|(-> & -> & Hcur)]; [by left|].
    right. split; [done|]. split; [done|]. split; [done|].
    pose proof (proc_at_running _ _ Hrun) as Hq.
    destruct (shape_procs _ HS _ _ Hq) as [_ _ _ _ _ _ Hch].
    assert (forked (code (proc_at (run N sched boot) 0)) = false) as Hf.
    { unfold forked. by rewrite Hcur. }
    rewrite Hf in Hch. symmetry in Hch. apply bool_decide_eq_false in Hch.
    pose proof (lookup_lt_Some _ _ _ Hq) as Hlt.
    split; [lia|]. rewrite run_app.
    by apply (close_unopened N _ 0 f PIPE_INVALID). }
  split; [done|]. split; [|split; [done|]].
  - unfold close_pipe_if_valid. destruct (Z.eqb_spec fd PIPE_INVALID); auto.
  - intros HN Hff Hrun Hcall.
    destruct (Hclose Hrun Hcall) as [H|(-> & -> & Hcur & _)]; [done|].
    exfalso. pose proof (proc_at_running _ _ Hrun) as Hq.
    apply (main_cursor_initialized N _ _ HN HS
             (reach_flow N ltac:(lia) sched Hff) Hq); [|done].
    destruct (running_table _ 0 HS Hrun) as [Hok _].
    destruct (code (proc_at (run N sched boot) 0))
      as [[| |[]| | | |] i cur | t n pl pr rn]; simpl in *; try done.
    destruct Hok; lia.
Qed.

Lemma closes_name_open_descriptors_witness :
  is_Some (fdget 3 (ofile (proc_at (run MAX_PRIMES (alone 53) boot) 0))).
Proof.
  refine (proj2 (proj2 (proj2
    (closes_name_open_descriptors MAX_PRIMES (alone 53) 0 3 false))) _ _ _ _).
  - unfold MAX_PRIMES, INT_MAX. lia.
  - vm_compute. reflexivity.
  - vm_compute. reflexivity.
  - vm_compute. reflexivity.
Defined.

(** C9, as stated, fails: with the range [2, 2] no stage is ever spawned,
    and [main], after its second step, is at line 150 about to call
    [close(-1)], where the guard would have made no call at all; the
    descriptor is not open, so the call fails; one step later the same
    holds at line 151. *)
Lemma main_teardown_unguarded :
  next_call (code (proc_at (run 2 (alone 2) boot) 0)) = sys_close PIPE_INVALID ∧
  close_pipe_if_valid PIPE_INVALID = no_syscall ∧
  fdget PIPE_INVALID (ofile (proc_at (run 2 (alone 2) boot) 0)) = None ∧
  length (procs (run 2 (alone 2) boot)) = 1%nat ∧
  next_call (code (proc_at (run 2 (alone 3) boot) 0)) = sys_close PIPE_INVALID.
Proof. vm_compute. tauto. Qed.

(** C10: in every reachable state, under any schedule and with failures,
    a running stage at depth k holds, on descriptor x+3, the read end of
    every pipe x its ancestors read from (x+1 < k), whatever line it is at;
    none of its [close] calls names one of these descriptors, they all name
    descriptor k+2 or above, that is its own upstream read end, its
    inherited copy of the upstream write end and the two ends of its own
    pipe; the first thing a stage does is to close that copy of the write
    end; and the open copies of the write end of pipe x are exactly the one
    of its creator, until the creator's teardown, and the one of the child
    that has not yet made that first close: once the child has made it and
    until the creator's teardown there is exactly one. *)
Theorem inherited_read_ends N sched k x fd :
  (is_running (proc_at (run N sched boot) k) = true → (S x < k)%nat →
   fdget (Z.of_nat x + 3) (ofile (proc_at (run N sched boot) k))
   = Some (pipe_read x)) ∧
  (is_running (proc_at (run N sched boot) k) = true → (0 < k)%nat →
   next_call (code (proc_at (run N sched boot) k)) = sys_close fd →
   Z.of_nat k + 2 ≤ fd) ∧
  (is_running (proc_at (run N sched boot) k) = true →
   child_starting (proc_at (run N sched boot) k) = true →
   next_call (code (proc_at (run N sched boot) k)) = sys_close (Z.of_nat k + 3) ∧
   fdget (Z.of_nat k + 3) (ofile (proc_at (run N sched boot) k))
   = Some (pipe_write (k - 1))) ∧
  open_copies (pipe_write x) (procs (run N sched boot))
  = writers (run N sched boot) x ∧
  (owner_writes (proc_at (run N sched boot) x) = true →
   child_starting (proc_at (run N sched boot) (S x)) = false →
   open_copies (pipe_write x) (procs (run N sched boot)) = 1%nat).
Proof.
  pose proof (reach_shape N sched) as HS.
  split; [|split; [|split; [|split]]].
  - intros Hrun Hx. by apply inherited_open.
  - intros Hrun Hk Hcall. by eapply close_not_inherited.
  - intros Hrun Hst. unfold child_starting in Hst.
    apply andb_true_iff in Hst as [_ Hst].
    destruct (running_table _ k HS Hrun) as [Hok _].
    destruct (code (proc_at (run N sched boot) k))
      as [m i cur | [| | |d| | | | |] n pl pr rn] eqn:Hc; simpl in Hst; try done.
    { by destruct m. }
    destruct (child_closes_write_end _ k _ _ _ _ HS Hrun Hc) as [H1 H2].
    destruct Hok as (Hk & -> & _).
    rewrite Hc in H1.
    replace (Z.of_nat k + 3) with (snd (own_pipe (k - 1)))
      by (unfold own_pipe; simpl; lia).
    by split.
  - by apply writers_count.
  - intros Ho Hc. rewrite (writers_count _ x HS). unfold writers.
    by rewrite Ho, Hc.
Qed.

Lemma inherited_read_ends_witness :
  fdget 3 (ofile (proc_at (run MAX_PRIMES (round_robin 12 30) boot) 3))
  = Some (pipe_read 0).
Proof.
  refine (proj1 (inherited_read_ends MAX_PRIMES (round_robin 12 30) 3 0 0) _ _).
  - vm_compute. reflexivity.
  - lia.
Defined.

(** * Further properties of the program *)

Lemma fdget_elem fd o f : fdget fd o = Some f → Some f ∈ o.
Proof.
  unfold fdget. destruct (fd <? 0); [done|].
  destruct (o !! Z.to_nat fd) as [[g|]|] eqn:H; simpl; try done.
  intros [= ->]. by eapply list_elem_of_lookup_2.
Qed.

(** Where a call of [write] by the process at depth [k] of a reachable
    state goes. *)
Lemma write_target s k fd v :
  Shape s → is_running (proc_at s k) = true →
  next_call (code (proc_at s k)) = sys_write fd v →
  fd = Z.of_nat k + 4 ∧ v = in_flight (code (proc_at s k)) ∧
  fdget fd (ofile (proc_at s k)) = Some (pipe_write k) ∧
  fdget (Z.of_nat k + 3) (ofile (proc_at s k)) = Some (pipe_read k) ∧
  (k < length (pipes s))%nat.
Proof.
  intros HS Hrun Hcall. pose proof (proc_at_running _ _ Hrun) as Hq.
  destruct (shape_procs _ HS _ _ Hq) as [Hok _ _ _ _ Hpipe _].
  assert (cursor_of (code (proc_at s k)) = own_pipe k ∧
          fd = Z.of_nat k + 4 ∧ v = in_flight (code (proc_at s k)) ∧
          rd_open (phase_of (code (proc_at s k))) = true ∧
          wr_open (phase_of (code (proc_at s k))) = true)
    as (Hcur & -> & -> & Hr & Hw).
  { destruct (code (proc_at s k))
      as [[| |[]| | | |] i cur | [| | |[]| | | | |] n pl pr rn];
      simpl in *; unfold close_pipe_if_valid in *;
      repeat match goal with
             | H : context [if ?b then _ else _] |- _ => destruct b
             end;
      try discriminate;
      repeat match goal with H : _ ∧ _ |- _ => destruct H end; subst;
      injection Hcall as <- <-; done. }
  assert (initialized (cursor_of (code (proc_at s k))) = true) as Hi
    by (rewrite Hcur; apply initialized_own).
  destruct (endpoints_open s k HS Hrun Hi) as [H1 H2].
  rewrite Hcur in H1, H2. specialize (H1 Hr). specialize (H2 Hw).
  rewrite Hi in Hpipe. symmetry in Hpipe. apply bool_decide_eq_true in Hpipe.
  done.
Qed.

(** X1: in every reachable state, under any schedule and with failures, a
    [write] a process is about to make names the write end of its own pipe
    and passes the value [deliver_prime] was called with; the call never
    fails, because the writer still holds a read end of that pipe: the value
    is appended to the pipe, and the process leaves [deliver_prime] without
    reaching [exit(1)] of line 120. *)
Theorem write_never_fails N sched k fd v f :
  is_running (proc_at (run N sched boot) k) = true →
  next_call (code (proc_at (run N sched boot) k)) = sys_write fd v →
  fd = Z.of_nat k + 4 ∧
  v = in_flight (code (proc_at (run N sched boot) k)) ∧
  fdget fd (ofile (proc_at (run N sched boot) k)) = Some (pipe_write k) ∧
  pipes (run N (sched ++ [(k, f)]) boot)
  = <[k := buf_at (pipes (run N sched boot)) k ++ [v]]> (pipes (run N sched boot)) ∧
  (k < length (pipes (run N sched boot)))%nat ∧
  dp_site_of (code (proc_at (run N (sched ++ [(k, f)]) boot) k)) = None.
Proof.
  intros Hrun Hcall. pose proof (reach_shape N sched) as HS.
  destruct (write_target _ k fd v HS Hrun Hcall) as (Hfd & Hv & Hw & Hr & Hlen).
  split; [done|]. split; [done|]. split; [done|].
  pose proof (proc_at_running _ _ Hrun) as Hq.
  pose proof (lookup_lt_Some _ _ _ Hq) as Hlt.
  destruct (lookup_lt_is_Some_2 _ _ Hlen) as [buf Hbuf].
  rewrite run_app. simpl. unfold sched_step, kstep. simpl.
  rewrite Hq, Hrun, Hcall. simpl. rewrite Hw, Hbuf.
  rewrite (open_copies_pos _ _ k _ Hq (fdget_elem _ _ _ Hr)). simpl.
  rewrite (buf_at_lookup _ _ _ Hbuf). split; [done|]. split; [done|].
  unfold wake, with_pipes. simpl. rewrite proc_at_insert by done. simpl.
  destruct (code (proc_at (run N sched boot) k))
    as [[| |[]| | | |] i cur | [| | |[]| | | | |] n pl pr rn];
    simpl in *; unfold close_pipe_if_valid in *;
    repeat match goal with
           | H : context [if ?b then _ else _] |- _ => destruct b
           end;
    try discriminate; done.
Qed.

Lemma write_never_fails_witness :
  pipes (run MAX_PRIMES (alone 6 ++ [(0%nat, false)]) boot) = [[5]].
Proof.
  refine (proj1 (proj2 (proj2 (proj2
    (write_never_fails MAX_PRIMES (alone 6) 0 4 5 false _ _))))).
  - vm_compute. reflexivity.
  - vm_compute. reflexivity.
Defined.

(** X2: in every reachable state, a process that has exited and has not
    been collected yet exited with status 0 or 1; with status 1 it exited
    at line 75 or 114, after a failed [pipe] or [fork] of its own; in a run
    without such failures every process exits with status 0. *)
Theorem exit_statuses N sched k x :
  state (proc_at (run N sched boot) k) = ZOMBIE x →
  (x = 0 ∨ x = 1) ∧
  (x = 1 →
   dp_site_of (code (proc_at (run N sched boot) k)) = Some L75_exit ∨
   dp_site_of (code (proc_at (run N sched boot) k)) = Some L114_exit) ∧
  (2 ≤ N < INT_MAX → fault_free sched = true → x = 0).
Proof.
  intros Hst. pose proof (reach_shape N sched) as HS.
  assert (procs (run N sched boot) !! k = Some (proc_at (run N sched boot) k)) as Hk.
  { unfold proc_at in *. by destruct (procs (run N sched boot) !! k). }
  destruct (shape_procs _ HS _ _ Hk) as [Hok _ _ _ Hx _ _].
  rewrite Hst in Hx.
  assert ((x = 0 ∧ no_error_site (code (proc_at (run N sched boot) k)) = true) ∨
          (x = 1 ∧ no_error_site (code (proc_at (run N sched boot) k)) = false ∧
           (dp_site_of (code (proc_at (run N sched boot) k)) = Some L75_exit ∨
            dp_site_of (code (proc_at (run N sched boot) k)) = Some L114_exit)))
    as Hcases.
  { destruct (code (proc_at (run N sched boot) k))
      as [[| |[]| | | |] i cur | [| | |[]| | | | |] n pl pr rn];
      simpl in *; unfold close_pipe_if_valid in *;
      repeat match goal with
             | H : context [if ?b then _ else _] |- _ => destruct b
             end;
      try discriminate;
      repeat match goal with H : _ ∧ _ |- _ => destruct H end;
      try done; injection Hx as <-; auto 10. }
  split; [|split].
  - destruct Hcases as [[-> _]|[-> _]]; auto.
  - intros ->. by destruct Hcases as [[? _]|(_ & _ & H)].
  - intros HN Hff. destruct Hcases as [[-> _]|(_ & Hne & _)]; [done|].
    pose proof (reach_flow N HN sched Hff) as HF.
    assert (codes (run N sched boot) !! k
            = Some (code (proc_at (run N sched boot) k))) as Hc
      by (apply codes_lookup; eauto).
    destruct (flow_sites _ _ HF _ _ Hc) as [Hne' _]. congruence.
Qed.

Lemma exit_statuses_witness :
  dp_site_of (code (proc_at
    (run MAX_PRIMES (alone 2 ++ [(0%nat, true); (0%nat, false); (0%nat, false)]) boot)
    0)) = Some L75_exit ∨
  dp_site_of (code (proc_at
    (run MAX_PRIMES (alone 2 ++ [(0%nat, true); (0%nat, false); (0%nat, false)]) boot)
    0)) = Some L114_exit.
Proof.
  refine (proj1 (proj2 (exit_statuses MAX_PRIMES
    (alone 2 ++ [(0%nat, true); (0%nat, false); (0%nat, false)]) 0 1 _)) eq_refl).
  vm_compute. reflexivity.
Defined.

Lemma toll_aux_bound fuel l :
  (toll_aux fuel l ≤ length l * (8 + 3 * length l))%nat.
Proof.
  revert l. induction fuel as [|fuel IH]; intros l; simpl; [lia|].
  destruct l as [|v t]; simpl; [lia|].
  specialize (IH (filter (survives v) t)).
  pose proof (length_filter (survives v) t) as Hf. nia.
Qed.

Lemma steps_bound N sched : ∀ s,
  2 ≤ N < INT_MAX → fault_free sched = true → Shape s → Flow N s →
  (steps_taken N sched s + mu N (run N sched s) ≤ mu N s)%nat.
Proof.
  induction sched as [|[q f] sched IH]; intros s HN Hff HS HF; [simpl; lia|].
  simpl in Hff. apply andb_true_iff in Hff as [Hf Hff].
  apply negb_true_iff in Hf. simpl in Hf. subst f.
  change (run N ((q, false) :: sched) s)
    with (run N sched (sched_step N s (q, false))).
  unfold sched_step. simpl.
  destruct (kstep N q false s) as [s'|] eqn:Hstep; simpl; [|by apply IH].
  destruct (flow_step N HN q s s' HS HF Hstep) as [HF' Hlt].
  specialize (IH s' HN Hff (shape_step N q false s s' HS Hstep) HF'). lia.
Qed.

Lemma mu_boot N :
  mu N boot
  = (6 + 3 * Z.to_nat (N + 1 - (START_PRIME + 1))
     + toll (candidates (START_PRIME + 1) N))%nat.
Proof. unfold mu. simpl. unfold weight_at. simpl. unfold proc_weight. simpl. lia. Qed.

(** X3: a run of the program in which no [pipe] and no [fork] fails takes
    at most 3 N^2 steps (system calls and loop heads), whatever the
    schedule, and it cannot get stuck before [main] has returned: as long
    as it has not, some process can take a step. *)
Theorem run_is_bounded N sched :
  2 ≤ N < INT_MAX → fault_free sched = true →
  (Z.of_nat (steps_taken N sched boot) ≤ 3 * N * N) ∧
  (main_returned (run N sched boot) = false →
   ∃ q, is_Some (kstep N q false (run N sched boot))).
Proof.
  intros HN Hff. split.
  - pose proof (steps_bound N sched boot HN Hff shape_boot (flow_boot N)) as H.
    rewrite mu_boot in H. unfold toll in H.
    pose proof (toll_aux_bound (length (candidates (START_PRIME + 1) N))
                  (candidates (START_PRIME + 1) N)) as Ht.
    assert (length (candidates (START_PRIME + 1) N) ≤ Z.to_nat (N - 2))%nat as Hl.
    { unfold candidates. etransitivity; [apply length_filter|].
      unfold upto, START_PRIME.
      assert (∀ a len, length (range a len) = len) as Hr.
      { intros a len. revert a. induction len; intros; simpl; auto. }
      rewrite Hr. lia. }
    unfold START_PRIME in *. nia.
  - intros Hret. apply (progress N); [apply reach_shape|by apply reach_flow|done].
Qed.

Lemma run_is_bounded_witness :
  Z.of_nat (steps_taken MAX_PRIMES (round_robin 12 110) boot)
  ≤ 3 * MAX_PRIMES * MAX_PRIMES.
Proof.
  refine (proj1 (run_is_bounded MAX_PRIMES (round_robin 12 110) _ _)).
  - unfold MAX_PRIMES, INT_MAX. lia.
  - vm_compute. reflexivity.
Defined.

Lemma own_slots_length k cur ph fresh :
  (length fresh ≤ 2)%nat → (length (own_slots k cur ph fresh) ≤ 2)%nat.
Proof. intros H. unfold own_slots. by destruct (initialized cur). Qed.

Lemma table_length k c : code_ok k c → (length (table k c) ≤ k + 5)%nat.
Proof.
  intros Hok. unfold table. destruct c as [m i cur | t n pl pr rn].
  - destruct Hok as [-> _]. rewrite length_app, inh_length.
    pose proof (own_slots_length 0 cur (main_phase m) [] ltac:(simpl; lia)). lia.
  - destruct Hok as (Hk & _ & _). rewrite length_app, inh_length. simpl.
    pose proof (own_slots_length k pr (stage_phase t)
                  [slot (is_start (stage_phase t)) (pipe_write (k - 1))]
                  ltac:(simpl; lia)). lia.
Qed.

(** X4: what a run uses.  In every reachable state, under any schedule
    and with failures, pipes and processes are created in step: there are
    as many pipes as processes, or one less; the descriptor table of the
    process at depth k has at most k + 5 entries, and the pipe it creates
    gets the descriptors k + 3 and k + 4.  In a run without a failing
    [pipe] or [fork] there are never more processes than primes in the
    range. *)
Theorem chain_resources N sched k :
  (length (procs (run N sched boot)) ≤ length (pipes (run N sched boot)) + 1)%nat ∧
  (length (pipes (run N sched boot)) ≤ length (procs (run N sched boot)))%nat ∧
  (length (ofile (proc_at (run N sched boot) k)) ≤ k + 5)%nat ∧
  (initialized (cursor_of (code (proc_at (run N sched boot) k))) = true →
   (k < length (procs (run N sched boot)))%nat →
   cursor_of (code (proc_at (run N sched boot) k))
   = (Z.of_nat k + 3, Z.of_nat k + 4)) ∧
  (2 ≤ N < INT_MAX → fault_free sched = true →
   (length (procs (run N sched boot)) ≤ length (primes_upto N))%nat).
Proof.
  pose proof (reach_shape N sched) as HS.
  split; [|split; [|split; [|split]]].
  - destruct (length (procs (run N sched boot))) as [|[|n]] eqn:Hlen; try lia.
    destruct (lookup_lt_is_Some_2 (procs (run N sched boot)) n) as [p Hp]; [lia|].
    destruct (shape_procs _ HS _ _ Hp) as [_ _ _ _ _ Hpipe Hch].
    rewrite Hlen in Hch. rewrite bool_decide_eq_true_2 in Hch by lia.
    unfold forked in Hch. apply andb_true_iff in Hch as [Hi _].
    rewrite Hi in Hpipe. symmetry in Hpipe. apply bool_decide_eq_true in Hpipe. lia.
  - apply (shape_pipes _ HS).
  - unfold proc_at.
    destruct (procs (run N sched boot) !! k) as [p|] eqn:Hp; simpl; [|lia].
    destruct (shape_procs _ HS _ _ Hp) as [Hok _ Htab _ _ _ _].
    rewrite Htab. destruct (is_running p); [by apply table_length|simpl; lia].
  - intros Hi Hk. destruct (lookup_lt_is_Some_2 _ _ Hk) as [p Hp].
    destruct (shape_procs _ HS _ _ Hp) as [Hok _ _ _ _ _ _].
    rewrite (proc_at_lookup _ _ _ Hp) in *.
    by apply code_ok_cursor.
  - intros HN Hff. pose proof (reach_flow N HN sched Hff) as HF.
    rewrite <- (chain_prefix N HN _ HF), length_app, length_map, codes_length. lia.
Qed.

Lemma chain_resources_witness :
  (length (procs (run MAX_PRIMES (round_robin 12 110) boot))
   ≤ length (primes_upto MAX_PRIMES))%nat.
Proof.
  refine (proj2 (proj2 (proj2 (proj2
    (chain_resources MAX_PRIMES (round_robin 12 110) 0)))) _ _).
  - unfold MAX_PRIMES, INT_MAX. lia.
  - vm_compute. reflexivity.
Defined.

(** X5: in a run without a failing [pipe] or [fork], the loop variable of
    [main] stays between 3 and N + 1 at the head of the loop, so that its
    increment never overflows, and [deliver_prime] is entered by [main]
    with odd values between 3 and N only. *)
Theorem main_loop_bounds N sched m i cur :
  2 ≤ N < INT_MAX → fault_free sched = true →
  code (proc_at (run N sched boot) 0) = in_main m i cur →
  (m = L139_for → 3 ≤ i ≤ N + 1 ∧ (i ≤ N → to_int (i + 1) = i + 1)) ∧
  (∀ d, m = M_deliver d →
     3 ≤ i ≤ N ∧ Z.odd i = true ∧ to_int (i + 1) = i + 1 ∧
     in_flight (code (proc_at (run N sched boot) 0)) = i).
Proof.
  intros HN Hff Hc. pose proof (reach_flow N HN sched Hff) as HF.
  pose proof (boot_length N sched) as Hlen.
  destruct (lookup_lt_is_Some_2 _ _ Hlen) as [p Hp].
  rewrite (proc_at_lookup _ _ _ Hp) in *.
  assert (codes (run N sched boot) !! 0%nat = Some (code p)) as Hcs
    by (apply codes_lookup; eauto).
  destruct (flow_sites _ _ HF _ _ Hcs) as [_ Hi]. rewrite Hc in Hi.
  unfold INT_MAX in HN. split.
  - intros ->. simpl in Hi. split; [done|]. intros Hle.
    apply to_int_id. lia.
  - intros d ->. simpl in Hi. destruct Hi as [Hi Hodd].
    split; [done|]. split; [|split; [apply to_int_id; lia|by rewrite Hc]].
    unfold START_PRIME in Hodd. rewrite Z.rem_mod_nonneg in Hodd by lia.
    rewrite <- Z.negb_even.
    destruct (Z.even i) eqn:He; [|done].
    apply Z.even_spec in He. destruct He as [h ->].
    destruct Hodd. by rewrite Z.mul_comm, Z.mod_mul.
Qed.

Lemma main_loop_bounds_witness :
  3 ≤ 5 ≤ MAX_PRIMES ∧ Z.odd 5 = true ∧ to_int (5 + 1) = 5 + 1 ∧
  in_flight (code (proc_at (run MAX_PRIMES (alone 6) boot) 0)) = 5.
Proof.
  refine (proj2 (main_loop_bounds MAX_PRIMES (alone 6) (M_deliver L119_write) 5 (3, 4)
                   _ _ _) L119_write eq_refl).
  - unfold MAX_PRIMES, INT_MAX. lia.
  - vm_compute. reflexivity.
  - vm_compute. reflexivity.
Defined.

(** X6: in a run without a failing [pipe] or [fork], the console holds one
    line per process of the chain, in the order of the chain: the prime of
    [main], then the prime of each stage; only the newest process may not
    have printed its line yet. *)
Theorem printed_in_chain_order N sched :
  2 ≤ N < INT_MAX → fault_free sched = true →
  console_out (run N sched boot)
    ++ map prime_line
         (unprinted (code (proc_at (run N sched boot)
                             (length (procs (run N sched boot)) - 1))))
  = map prime_line (map (λ p, prime_of (code p)) (procs (run N sched boot))) ∧
  (length (unprinted (code (proc_at (run N sched boot)
                              (length (procs (run N sched boot)) - 1)))) ≤ 1)%nat.
Proof.
  intros HN Hff. pose proof (reach_flow N HN sched Hff) as HF.
  pose proof (boot_length N sched) as Hlen.
  pose proof (flow_chain _ _ HF) as Hch.
  destruct (lookup_lt_is_Some_2 (procs (run N sched boot))
              (length (procs (run N sched boot)) - 1)) as [p Hp]; [lia|].
  assert (codes (run N sched boot) !! (length (procs (run N sched boot)) - 1)%nat
          = Some (code p)) as Hcs by (apply codes_lookup; eauto).
  rewrite (code_at_lookup _ _ _ Hcs) in Hch.
  rewrite (proc_at_lookup _ _ _ Hp). split.
  - rewrite Hch. unfold codes. f_equal. apply map_map.
  - destruct (code p) as [[| |d| | | |] i cur | [| | |d| | | | |] n pl pr rn];
      simpl; lia.
Qed.

Lemma printed_in_chain_order_witness :
  console_out (run MAX_PRIMES (round_robin 12 110) boot)
    ++ map prime_line
         (unprinted (code (proc_at (run MAX_PRIMES (round_robin 12 110) boot)
            (length (procs (run MAX_PRIMES (round_robin 12 110) boot)) - 1))))
  = map prime_line (map (λ p, prime_of (code p))
                      (procs (run MAX_PRIMES (round_robin 12 110) boot))).
Proof.
  refine (proj1 (printed_in_chain_order MAX_PRIMES (round_robin 12 110) _ _)).
  - unfold MAX_PRIMES, INT_MAX. lia.
  - vm_compute. reflexivity.
Defined.

Section LastStage.

Variable N : Z.

Variable p : Z.

Local Arguments run : simpl never.

Local Arguments alone : simpl never.

Lemma alone_no_survivor xs : ∀ rn con,
  Forall (λ v, Z.rem v p = 0) xs →
  ∃ m rn',
    run N (alone m) (Sys [reading p no_pipe rn [None]] [xs] con)
    = Sys [Proc (in_stage L109_exit p (3, 4) no_pipe rn') [] None (ZOMBIE 0)]
          [[]] con.
Proof.
  induction xs as [|y xs IH]; intros rn con Hall.
  - exists 6%nat, rn. by vm_compute.
  - apply Forall_cons in Hall as [Hy Hall].
    destruct (IH y con Hall) as (m & rn' & Hm). exists (S m), rn'.
    rewrite run_alone_S. simpl. unfold wake, with_pipes. simpl.
    unfold resume. simpl. rewrite Hy. simpl. exact Hm.
Qed.

End LastStage.

(** X7: a stage with prime p > 0 that runs on its own and receives nothing
    that p does not divide (nothing at all, or multiples of p only) prints
    'prime p', reads everything, and ends without having created a pipe or
    a child: the two guarded closes of its own pipe make no call, its
    [wait] fails at once, and it exits with status 0. *)
Theorem stage_without_survivors N p received :
  0 < p → Forall (λ v, Z.rem v p = 0) received →
  ∃ m rn,
    run N (alone m) (stage_alone p received)
    = Sys [Proc (in_stage L109_exit p (3, 4) no_pipe rn) [] None (ZOMBIE 0)]
          [[]] [prime_line p].
Proof.
  intros _ Hall.
  destruct (alone_no_survivor N p received 0 [prime_line p] Hall) as (m & rn & Hm).
  exists (S (S m)), rn. rewrite !run_alone_S. exact Hm.
Qed.

Lemma stage_without_survivors_witness :
  ∃ m rn,
    run MAX_PRIMES (alone m) (stage_alone 5 [25; 35])
    = Sys [Proc (in_stage L109_exit 5 (3, 4) no_pipe rn) [] None (ZOMBIE 0)]
          [[]] [prime_line 5].
Proof.
  refine (stage_without_survivors MAX_PRIMES 5 [25; 35] _ _).
  - lia.
  - repeat constructor.
Defined.

(** ** [get_path_name] of user/find.c *)

Lemma char_at_app_r pre name j :
  char_at (pre ++ name) (Z.of_nat (length pre + j)) = nth j name 0.
Proof.
  unfold char_at. rewrite Nat2Z.id. rewrite app_nth2 by lia. f_equal. lia.
Qed.

Lemma nth_not_slash name j : slash ∉ name → Z.eqb (nth j name 0) slash = false.
Proof.
  intros H. apply Z.eqb_neq. intros Heq.
  destruct (decide (j < length name)%nat) as [Hj|Hj].
  - apply H. rewrite <- Heq. apply list_elem_of_In, nth_In. done.
  - rewrite nth_overflow in Heq by lia. done.
Qed.

Lemma scan_back_name pre name j : ∀ fuel,
  slash ∉ name → pre = [] ∨ (∃ dir, pre = dir ++ [slash]) →
  (j < fuel)%nat →
  scan_back (pre ++ name) fuel (Z.of_nat (length pre + j))
  = Z.of_nat (length pre) - 1.
Proof.
  intros fuel Hname Hpre. revert fuel.
  induction j as [|j IH]; intros [|fuel] Hfuel; try lia; simpl.
  - rewrite char_at_app_r, nth_not_slash by done.
    destruct (Z.leb_spec 0 (Z.of_nat (length pre + 0))); [|lia]. simpl.
    replace (Z.of_nat (length pre + 0) - 1) with (Z.of_nat (length pre) - 1) by lia.
    destruct fuel as [|fuel]; [done|]. simpl.
    destruct Hpre as [->|[dir ->]]; [done|].
    rewrite length_app. simpl.
    replace (Z.of_nat (length dir + 1) - 1) with (Z.of_nat (length dir)) by lia.
    destruct (Z.leb_spec 0 (Z.of_nat (length dir))); [|lia]. simpl.
    unfold char_at. rewrite Nat2Z.id, <- app_assoc, app_nth2 by lia.
    rewrite Nat.sub_diag. done.
  - rewrite char_at_app_r, nth_not_slash by done.
    destruct (Z.leb_spec 0 (Z.of_nat (length pre + S j))); [|lia]. simpl.
    replace (Z.of_nat (length pre + S j) - 1) with (Z.of_nat (length pre + j)) by lia.
    apply IH. lia.
Qed.

Lemma last_slash (path : list Z) :
  slash ∉ path ∨ ∃ dir name, path = dir ++ slash :: name ∧ slash ∉ name.
Proof.
  induction path as [|c path IH]; [left; apply not_elem_of_nil|].
  destruct IH as [IH|(dir & name & -> & Hname)].
  - destruct (decide (c = slash)) as [->|Hc].
    + right. by exists [], path.
    + left. by apply not_elem_of_cons.
  - right. by exists (c :: dir), name.
Qed.

(** X8: [get_path_name] returns what follows the last '/' of the
    path, and the whole path when it holds no '/'; so the result is always
    the end of the path and never holds a '/', and it is empty for a path
    that ends in '/'. *)
Theorem get_path_name_last_component path dir name :
  (slash ∉ name → get_path_name name = name) ∧
  (slash ∉ name → get_path_name (dir ++ slash :: name) = name) ∧
  get_path_name (dir ++ [slash]) = [] ∧
  (∃ front, path = front ++ get_path_name path) ∧
  Forall (λ c, (c =? slash) = false) (get_path_name path).
Proof.
  assert (∀ name, slash ∉ name → get_path_name name = name) as H1.
  { intros nm Hn. unfold get_path_name.
    pose proof (scan_back_name [] nm (length nm) (S (length nm)) Hn) as H.
    cbn [app length Nat.add] in H. rewrite H by (auto; lia). done. }
  assert (∀ dir name, slash ∉ name → get_path_name (dir ++ slash :: name) = name) as H2.
  { intros d nm Hn. unfold get_path_name.
    pose proof (scan_back_name (d ++ [slash]) nm (length nm)
                  (S (length (d ++ slash :: nm))) Hn) as H.
    rewrite <- app_assoc in H. cbn [app] in H.
    replace (length (d ++ [slash]) + length nm)%nat
      with (length (d ++ slash :: nm)) in H
      by (rewrite !length_app; simpl; lia).
    rewrite H by (eauto; rewrite !length_app; simpl; lia).
    rewrite length_app. simpl.
    replace (Z.to_nat (Z.of_nat (length d + 1) - 1 + 1)) with (length (d ++ [slash]))
      by (rewrite length_app; simpl; lia).
    replace (d ++ slash :: nm) with ((d ++ [slash]) ++ nm) by (by rewrite <- app_assoc).
    apply drop_app_length. }
  split; [apply H1|]. split; [apply H2|]. split; [|split].
  - apply (H2 dir []), not_elem_of_nil.
  - destruct (last_slash path) as [Hp|(d & nm & -> & Hn)].
    + exists []. by rewrite H1.
    + exists (d ++ [slash]). by rewrite H2, <- app_assoc.
  - assert (∀ nm, slash ∉ nm → Forall (λ c, (c =? slash) = false) nm) as Hall.
    { intros nm Hn. apply Forall_forall. intros c Hc. apply Z.eqb_neq.
      intros ->. done. }
    destruct (last_slash path) as [Hp|(d & nm & -> & Hn)].
    + rewrite H1 by done. by apply Hall.
    + rewrite H2 by done. by apply Hall.
Qed.

Lemma get_path_name_last_component_witness :
  get_path_name [47; 117; 115; 114; 47; 108; 115] = [108; 115].
Proof.
  refine (proj1 (proj2
    (get_path_name_last_component [] [47; 117; 115; 114] [108; 115])) _).
  unfold slash. intros H. rewrite !elem_of_cons in H.
  destruct H as [H|[H|H]]; try discriminate. by apply elem_of_nil in H.
Defined.

(** ** [readline_from_stdin] of user/xargs.c *)

Section Readline.

Variable max : Z.

Lemma store_in buf n c k :
  (n < length buf)%nat → store buf n c k = k (<[n := c]> buf).
Proof.
  intros H. unfold store. by destruct (Nat.ltb_spec n (length buf)); [|lia].
Qed.

Lemma store_out buf n c k :
  (length buf ≤ n)%nat → store buf n c k = PastTheEnd n.
Proof.
  intros H. unfold store. by destruct (Nat.ltb_spec n (length buf)); [lia|].
Qed.

(** The characters of a line go to the buffer one after the other. *)
Lemma readline_loop_prefix pre : ∀ n buf rest,
  newline ∉ pre → (n + length pre ≤ length buf)%nat →
  Z.of_nat (n + length pre) ≤ max →
  readline_loop max (pre ++ rest) buf n
  = readline_loop max rest (take n buf ++ pre ++ drop (n + length pre) buf)
      (n + length pre).
Proof.
  induction pre as [|c pre IH]; intros n buf rest Hnl Hcap Hmax.
  - simpl. by rewrite Nat.add_0_r, take_drop.
  - apply not_elem_of_cons in Hnl as [Hc Hnl]. simpl in *.
    destruct (Z.ltb_spec (Z.of_nat n) max); [|lia].
    rewrite store_in by lia.
    destruct (Z.eqb_spec c newline); [congruence|].
    rewrite IH by (rewrite ?length_insert; done || lia).
    replace (S n + length pre)%nat with (n + S (length pre))%nat by lia.
    f_equal.
    rewrite (take_S_r _ _ c) by (apply list_lookup_insert_eq; lia).
    rewrite take_insert_ge by lia. rewrite drop_insert_lt by lia.
    by rewrite <- app_assoc.
Qed.

Lemma terminate_line line buf c stdin :
  (length line < length buf)%nat →
  terminate (<[length line := c]> (line ++ drop (length line) buf))
            (length line) stdin
  = Returned (length line) (line ++ 0 :: drop (S (length line)) buf) stdin.
Proof.
  intros Hcap. unfold terminate.
  assert (length (line ++ drop (length line) buf) = length buf) as Hlen.
  { rewrite length_app, length_drop. lia. }
  rewrite store_in by (rewrite length_insert; lia).
  rewrite list_insert_insert_eq.
  destruct (lookup_lt_is_Some_2 buf (length line) Hcap) as [x Hx].
  rewrite (drop_S _ _ _ Hx).
  rewrite insert_app_r_alt by lia. by rewrite Nat.sub_diag.
Qed.

Lemma terminate_plain line buf stdin :
  (length line < length buf)%nat →
  terminate (line ++ drop (length line) buf) (length line) stdin
  = Returned (length line) (line ++ 0 :: drop (S (length line)) buf) stdin.
Proof.
  intros Hcap.
  rewrite <- (list_insert_id (line ++ drop (length line) buf) (length line)
                (default 0 (buf !! length line))).
  - by apply terminate_line.
  - rewrite lookup_app_r by lia. rewrite Nat.sub_diag, lookup_drop, Nat.add_0_r.
    by destruct (lookup_lt_is_Some_2 buf (length line) Hcap) as [x ->].
Qed.

End Readline.

(** X9: when the next line of the input has fewer than [max] characters
    and fits the buffer with its terminator, [readline_from_stdin] returns
    its length, leaves the line in the buffer, terminated by NUL in place of
    the newline, and takes the line and its newline off the input; the rest
    of the buffer is untouched.  The same holds for a last line that ends
    with the input instead of a newline.  In particular an empty line and
    the end of the input both give 0. *)
Theorem readline_reads_one_line buf max line rest :
  newline ∉ line → Z.of_nat (length line) < max →
  (length line < length buf)%nat →
  readline_from_stdin buf max (line ++ newline :: rest)
  = Returned (length line) (line ++ 0 :: drop (S (length line)) buf) rest ∧
  readline_from_stdin buf max line
  = Returned (length line) (line ++ 0 :: drop (S (length line)) buf) [] ∧
  (line = [] →
   ∃ buf', readline_from_stdin buf max (newline :: rest) = Returned 0 buf' rest ∧
           readline_from_stdin buf max [] = Returned 0 buf' []).
Proof.
  intros Hnl Hmax Hcap. unfold readline_from_stdin.
  assert (readline_loop max (line ++ newline :: rest) buf 0
          = Returned (length line) (line ++ 0 :: drop (S (length line)) buf) rest)
    as H1.
  { rewrite readline_loop_prefix by (simpl; done || lia). simpl.
    destruct (Z.ltb_spec (Z.of_nat (length line)) max); [|lia].
    rewrite store_in by (rewrite length_app, length_drop; lia).
    by apply terminate_line. }
  assert (readline_loop max line buf 0
          = Returned (length line) (line ++ 0 :: drop (S (length line)) buf) [])
    as H2.
  { rewrite <- (app_nil_r line) at 1.
    rewrite readline_loop_prefix by (simpl; done || lia). simpl.
    destruct (Z.ltb_spec (Z.of_nat (length line)) max); [|lia].
    by apply terminate_plain. }
  split; [done|]. split; [done|].
  intros ->. simpl in *. eauto.
Qed.

Lemma readline_reads_one_line_witness :
  readline_from_stdin [1; 2; 3; 4; 5] 5 [108; 115; 10; 97; 10]
  = Returned 2 [108; 115; 0; 4; 5] [97; 10].
Proof.
  refine (proj1 (readline_reads_one_line [1; 2; 3; 4; 5] 5 [108; 115] [97; 10] _ _ _)).
  - unfold newline. intros H. rewrite !elem_of_cons in H.
    destruct H as [H|[H|H]]; try discriminate. by apply elem_of_nil in H.
  - simpl. lia.
  - simpl. lia.
Defined.

(** X10: when the input holds [max] characters or more before the next
    newline, [readline_from_stdin] stops after [max] of them and leaves the
    others on the input, for the next call; it then stores the terminator
    at index [max].  Called as in [main], with the size of the buffer for
    [max], that store is one past the end of the buffer. *)
Theorem readline_long_line buf max stdin :
  newline ∉ take (Z.to_nat max) stdin → 0 ≤ max →
  (Z.to_nat max ≤ length stdin)%nat → (Z.to_nat max ≤ length buf)%nat →
  ((Z.to_nat max < length buf)%nat →
   readline_from_stdin buf max stdin
   = Returned (Z.to_nat max)
       (take (Z.to_nat max) stdin ++ 0 :: drop (S (Z.to_nat max)) buf)
       (drop (Z.to_nat max) stdin)) ∧
  (Z.to_nat max = length buf →
   readline_from_stdin buf max stdin = PastTheEnd (length buf)).
Proof.
  intros Hnl Hmax Hin Hcap. unfold readline_from_stdin.
  assert (length (take (Z.to_nat max) stdin) = Z.to_nat max) as Hpre
    by (by apply length_take_le).
  assert (readline_loop max stdin buf 0
          = terminate (take (Z.to_nat max) stdin ++ drop (Z.to_nat max) buf)
              (Z.to_nat max) (drop (Z.to_nat max) stdin)) as ->.
  { rewrite <- (take_drop (Z.to_nat max) stdin) at 1.
    rewrite (readline_loop_prefix max) by (rewrite ?Hpre; simpl; done || lia).
    rewrite Hpre. simpl.
    destruct (drop (Z.to_nat max) stdin); simpl;
      by destruct (Z.ltb_spec (Z.of_nat (Z.to_nat max)) max); [lia|]. }
  split.
  - intros Hlt.
    pose proof (terminate_plain (take (Z.to_nat max) stdin) buf
                  (drop (Z.to_nat max) stdin)) as H.
    rewrite Hpre in H. by apply H.
  - intros Heq. unfold terminate. rewrite store_out; [by rewrite Heq|].
    rewrite !length_app, Hpre, length_drop. lia.
Qed.

Lemma readline_long_line_witness :
  readline_from_stdin [0; 0; 0] 3 [97; 98; 99; 100; 10] = PastTheEnd 3.
Proof.
  refine (proj2 (readline_long_line [0; 0; 0] 3 [97; 98; 99; 100; 10] _ _ _ _) _).
  - unfold newline. simpl. intros H. rewrite !elem_of_cons in H.
    destruct H as [H|[H|[H|H]]]; try discriminate. by apply elem_of_nil in H.
  - lia.
  - simpl. lia.
  - simpl. lia.
  - reflexivity.
Defined.
